(** * A WebDAV client: path canonicalisation, multi-status parsing, requests

    A shallow embedding of [src/webdav-client.ts] (class [WebDAVClient])
    and the properties its specification states about it.

    Conventions of the embedding.
    - A JavaScript string is a [string]: a sequence of 8-bit characters,
      read as the code units U+0000 .. U+00FF.
    - A thrown exception is an explicit result: [None] for a platform
      call that throws, [Throw e] in the monad of the asynchronous
      operations.
    - What the platform provides ([URL], [decodeURIComponent], [fetch],
      [TextDecoder]) is a parameter of the development: the type class
      [Platform] and the [server] argument of the operations.  The general
      theorems hold for every platform; closed examples run on the
      instance [Whatwg.platform]. *)

From Stdlib Require Import ZArith NArith String Ascii List Bool Lia DecimalString.
From Stdlib Require DecimalPos.
From stdpp Require Import base option strings gmap.

Local Open Scope string_scope.

(** ** JavaScript string primitives *)

Module JS.

(** The double quote character, U+0022. *)
Definition dquote : string := String "034" "".

(** [s.startsWith(p)] *)
Fixpoint startsWith (s p : string) {struct p} : bool :=
  match p with
  | EmptyString => true
  | String c p' =>
      match s with
      | String d s' => Ascii.eqb c d && startsWith s' p'
      | EmptyString => false
      end
  end.

(** [s.slice(n)] for [0 <= n] *)
Fixpoint slice (n : nat) (s : string) : string :=
  match n, s with
  | O, _ => s
  | S n', String _ s' => slice n' s'
  | S _, EmptyString => EmptyString
  end.

(** [s.endsWith(p)] *)
Definition endsWith (s p : string) : bool :=
  (String.length p <=? String.length s)%nat
  && String.eqb (slice (String.length s - String.length p) s) p.

(** [s.includes(sub)] *)
Fixpoint includes (s sub : string) : bool :=
  startsWith s sub ||
  match s with
  | String _ s' => includes s' sub
  | EmptyString => false
  end.

(** [s.replace(/\/+$/, "")]: the leftmost run of slashes that reaches the
    end of the string is removed. *)
Fixpoint strip_trailing_slashes (s : string) : string :=
  match s with
  | EmptyString => EmptyString
  | String c s' =>
      let r := strip_trailing_slashes s' in
      if Ascii.eqb c "/" && String.eqb r "" then "" else String c r
  end.

(** White space and line terminators of ECMAScript within U+0000..U+00FF:
    TAB, LF, VT, FF, CR, SP, NBSP.  This is the class [\s] and the set
    removed by [trim] and skipped by [parseInt]. *)
Definition is_whitespace (c : ascii) : bool :=
  let n := nat_of_ascii c in
  ((9 <=? n) && (n <=? 13) || (n =? 32) || (n =? 160))%nat.

Fixpoint trimStart (s : string) : string :=
  match s with
  | String c s' => if is_whitespace c then trimStart s' else s
  | EmptyString => EmptyString
  end.

Fixpoint trimEnd (s : string) : string :=
  match s with
  | EmptyString => EmptyString
  | String c s' =>
      let r := trimEnd s' in
      if is_whitespace c && String.eqb r "" then "" else String c r
  end.

(** [s.trim()] *)
Definition trim (s : string) : string := trimEnd (trimStart s).

(** Truthiness of a string: [""] is the only falsy one. *)
Definition truthy (s : string) : bool := negb (String.eqb s "").

(** [a || b] on strings *)
Definition or_else (a b : string) : string := if truthy a then a else b.

Definition is_upper (c : ascii) : bool :=
  let n := nat_of_ascii c in
  ((65 <=? n) && (n <=? 90) ||
   (192 <=? n) && (n <=? 222) && negb (n =? 215))%nat.

Definition lower_char (c : ascii) : ascii :=
  if is_upper c then ascii_of_nat (nat_of_ascii c + 32) else c.

(** [s.toLowerCase()] on U+0000..U+00FF *)
Fixpoint toLowerCase (s : string) : string :=
  match s with
  | EmptyString => EmptyString
  | String c s' => String (lower_char c) (toLowerCase s')
  end.

(** [s.split("/")]: the pieces between slashes, empty pieces included. *)
Fixpoint split_slash (s : string) : list string :=
  match s with
  | EmptyString => [EmptyString]
  | String c s' =>
      if Ascii.eqb c "/" then EmptyString :: split_slash s'
      else match split_slash s' with
           | piece :: rest => String c piece :: rest
           | [] => [String c EmptyString]
           end
  end.

(** [xs.filter(Boolean)] on an array of strings *)
Definition filter_Boolean (xs : list string) : list string :=
  List.filter truthy xs.

(** [xs.join(sep)] *)
Fixpoint join (sep : string) (xs : list string) : string :=
  match xs with
  | [] => ""
  | [x] => x
  | x :: rest => x +:+ sep +:+ join sep rest
  end.

(** [s.replace(/c/g, by)] for a single character [c] *)
Fixpoint replace_char_all (c : ascii) (by_ : string) (s : string) : string :=
  match s with
  | EmptyString => EmptyString
  | String a s' =>
      if Ascii.eqb a c then by_ +:+ replace_char_all c by_ s'
      else String a (replace_char_all c by_ s')
  end.

(** The decimal numeral of an integer, as a template literal renders an
    integer-valued number of magnitude below 10^21. *)
Definition string_of_Z (z : Z) : string :=
  NilZero.string_of_int (Z.to_int z).

End JS.

(** ** Regular expressions

    The fragment of ECMAScript regular expressions the client uses, with
    the backtracking semantics of the language: alternatives are tried in
    priority order (a greedy quantifier tries the longest repetition first, a
    lazy one the shortest) and the first success is the match.  Every
    quantifier of the source applies to a single character or character
    class, which is what [Star], [StarLazy] and [Opt] offer. *)

Module Regex.

Inductive regex : Type :=
| Eps
| Chr (c : ascii)                 (* a literal character *)
| Cls (p : ascii -> bool)         (* a character class *)
| Star (p : ascii -> bool)        (* [class*] *)
| StarLazy (p : ascii -> bool)    (* [class*?] *)
| Opt (r : regex)                 (* [r?] *)
| Cat (r1 r2 : regex)
| Alt (r1 r2 : regex)
| Grp (r : regex)                 (* the capturing group *)
| Eol.                            (* [$] *)

Fixpoint seq (rs : list regex) : regex :=
  match rs with
  | [] => Eps
  | [r] => r
  | r :: rest => Cat r (seq rest)
  end.

(** A literal word, character by character. *)
Fixpoint lit (w : string) : regex :=
  match w with
  | EmptyString => Eps
  | String c EmptyString => Chr c
  | String c w' => Cat (Chr c) (lit w')
  end.

Definition is_ascii_lower (c : ascii) : bool :=
  let n := nat_of_ascii c in ((97 <=? n) && (n <=? 122))%nat.

(** Canonicalisation of the [i] flag (no [u] flag): a character is
    upper-cased, unless that would turn a non-ASCII character into an ASCII
    one.  Every literal of the source is ASCII, for which this is ASCII
    case folding. *)
Definition canonicalize (c : ascii) : ascii :=
  if is_ascii_lower c then ascii_of_nat (nat_of_ascii c - 32) else c.

Definition chr_match (icase : bool) (c a : ascii) : bool :=
  if icase then Ascii.eqb (canonicalize c) (canonicalize a) else Ascii.eqb c a.

Section Matcher.
Context {R : Type}.
Variable icase : bool.

(** [exec_at r s cap k]: match [r] at the head of [s], then continue with
    [k] on the rest; [cap] is the text of the capturing group so far. *)
Fixpoint exec_at (r : regex) (s : string) (cap : option string)
    (k : string -> option string -> option R) : option R :=
  match r with
  | Eps => k s cap
  | Chr c =>
      match s with
      | String a s' => if chr_match icase c a then k s' cap else None
      | EmptyString => None
      end
  | Cls p =>
      match s with
      | String a s' => if p a then k s' cap else None
      | EmptyString => None
      end
  | Star p =>
      (fix go (s : string) : option R :=
         match s with
         | String a s' =>
             if p a then
               match go s' with
               | Some x => Some x
               | None => k s cap
               end
             else k s cap
         | EmptyString => k s cap
         end) s
  | StarLazy p =>
      (fix go (s : string) : option R :=
         match k s cap with
         | Some x => Some x
         | None =>
             match s with
             | String a s' => if p a then go s' else None
             | EmptyString => None
             end
         end) s
  | Opt r1 =>
      match exec_at r1 s cap k with
      | Some x => Some x
      | None => k s cap
      end
  | Cat r1 r2 => exec_at r1 s cap (fun s' cap' => exec_at r2 s' cap' k)
  | Alt r1 r2 =>
      match exec_at r1 s cap k with
      | Some x => Some x
      | None => exec_at r2 s cap k
      end
  | Grp r1 =>
      exec_at r1 s cap
        (fun s' _ =>
           k s' (Some (String.substring 0 (String.length s - String.length s') s)))
  | Eol =>
      match s with
      | EmptyString => k s cap
      | String _ _ => None
      end
  end.
End Matcher.

(** A compiled expression: the pattern and its [i] flag. *)
Record RegExp : Type := { pattern : regex; ignoreCase : bool }.

(** A match at the head of [s]: its length and the text of the group
    ([None] when the group took no part). *)
Definition match_here (re : RegExp) (s : string) : option (nat * option string) :=
  exec_at (ignoreCase re) (pattern re) s None
    (fun s' cap => Some ((String.length s - String.length s')%nat, cap)).

(** The leftmost match: every start position is tried in turn, the end of
    the string included. *)
Fixpoint search (re : RegExp) (s : string) : option (nat * option string) :=
  match match_here re s with
  | Some m => Some m
  | None =>
      match s with
      | String _ s' => search re s'
      | EmptyString => None
      end
  end.

(** [re.test(s)] *)
Definition test (re : RegExp) (s : string) : bool :=
  match search re s with Some _ => true | None => false end.

(** [re.test(s)] for a pattern that begins with [^] *)
Definition test_anchored (re : RegExp) (s : string) : bool :=
  match match_here re s with Some _ => true | None => false end.

(** [s.match(re)] without the [g] flag, projected on group 1: [None] when
    there is no match. *)
Definition match_group (re : RegExp) (s : string) : option string :=
  match search re s with
  | Some (_, cap) => Some (default "" cap)
  | None => None
  end.

(** The loop [while ((m = re.exec(s)) !== null) out.push(m[1])] of a
    global expression: after a match of length [len] the next search starts
    [len] characters further ([skip] counts the characters still to pass).
    The expressions of the client never match the empty string. *)
Fixpoint exec_all (re : RegExp) (s : string) (skip : nat) : list string :=
  match s with
  | EmptyString => []
  | String _ s' =>
      match skip with
      | S n => exec_all re s' n
      | O =>
          match match_here re s with
          | Some (len, cap) => default "" cap :: exec_all re s' (Nat.pred len)
          | None => exec_all re s' 0
          end
      end
  end.

(** [s.replace(re, by)] without the [g] flag: the leftmost match is
    replaced. *)
Fixpoint replace_first (re : RegExp) (by_ : string) (s : string) : string :=
  match match_here re s with
  | Some (len, _) => by_ +:+ JS.slice len s
  | None =>
      match s with
      | String c s' => String c (replace_first re by_ s')
      | EmptyString => EmptyString
      end
  end.

(** [/\/+$/] *)
Definition trailing_slashes_expression : RegExp :=
  {| pattern := seq [Cls (Ascii.eqb "/"); Star (Ascii.eqb "/"); Eol];
     ignoreCase := false |}.

Definition any_char (_ : ascii) : bool := true.
Definition not_in (cs : string) (a : ascii) : bool :=
  negb (existsb (Ascii.eqb a) (list_ascii_of_string cs)).

End Regex.

(** ** Numbers

    A number value in the form [Number::toString] is specified on: NaN, an
    infinity, zero, or a finite non-zero value [±s × 10^(n-k)] where the
    numeral [digits] of [s] has [k] digits, no leading zero and no trailing
    zero (the shortest numeral that denotes the value). *)

Module Number.

Inductive number : Type :=
| NaN
| Infinity (negative : bool)
| Zero
| Finite (negative : bool) (digits : string) (n : Z).

(** [Number.isFinite(x)] *)
Definition isFinite (x : number) : bool :=
  match x with
  | NaN | Infinity _ => false
  | Zero | Finite _ _ _ => true
  end.

(** [Number.isInteger(x)]: no digit of [s] stands after the decimal point. *)
Definition isInteger (x : number) : bool :=
  match x with
  | NaN | Infinity _ => false
  | Zero => true
  | Finite _ digits n => (Z.of_nat (String.length digits) <=? n)%Z
  end.

Fixpoint zeros (j : nat) : string :=
  match j with
  | O => ""
  | S j' => String "0" (zeros j')
  end.

(** [Number::toString(x, 10)] (ECMA-262, 6.1.6.1.20): positional notation
    for [-5 <= n <= 21], exponential notation otherwise. *)
Definition toString (x : number) : string :=
  match x with
  | NaN => "NaN"
  | Infinity negative => if negative then "-Infinity" else "Infinity"
  | Zero => "0"
  | Finite negative digits n =>
      let k := Z.of_nat (String.length digits) in
      let sign := if negative then "-" else "" in
      sign +:+
      (if ((-5 <=? n) && (n <=? 21))%Z then
         if (k <=? n)%Z then digits +:+ zeros (Z.to_nat (n - k))
         else if (0 <? n)%Z then
           String.substring 0 (Z.to_nat n) digits +:+ "." +:+ JS.slice (Z.to_nat n) digits
         else "0." +:+ zeros (Z.to_nat (- n)) +:+ digits
       else
         let e := (n - 1)%Z in
         let exponent := (if (e <? 0)%Z then "-" else "+") +:+ JS.string_of_Z (Z.abs e) in
         if (k =? 1)%Z then digits +:+ "e" +:+ exponent
         else String.substring 0 1 digits +:+ "." +:+ JS.slice 1 digits +:+ "e" +:+ exponent)
  end.

(** The numeral without its trailing zeros. *)
Fixpoint strip_trailing_zeros (s : string) : string :=
  match s with
  | EmptyString => EmptyString
  | String c s' =>
      let r := strip_trailing_zeros s' in
      if Ascii.eqb c "0" && String.eqb r "" then "" else String c r
  end.

(** The number value of an integer. *)
Definition of_Z (z : Z) : number :=
  if (z =? 0)%Z then Zero
  else
    let numeral := JS.string_of_Z (Z.abs z) in
    Finite (z <? 0)%Z (strip_trailing_zeros numeral) (Z.of_nat (String.length numeral)).

(** ** [Number.parseInt(value, 10)]

    The result is NaN or an integer-valued number, given here by its
    mathematical value; a digit string too long for a double is rounded to
    the nearest double, ties to even, and to an infinity from 2^1024 on. *)

Inductive parsed : Type :=
| PNaN
| PInfinity (negative : bool)
| PInt (z : Z).

Definition is_digit (c : ascii) : bool :=
  let n := nat_of_ascii c in ((48 <=? n) && (n <=? 57))%nat.

Definition digit_value (c : ascii) : N := N.of_nat (nat_of_ascii c - 48).

(** The longest prefix of decimal digits and its value. *)
Fixpoint digits_prefix (s : string) (count : nat) (acc : N) : nat * N :=
  match s with
  | String c s' =>
      if is_digit c then digits_prefix s' (S count) (acc * 10 + digit_value c)%N
      else (count, acc)
  | EmptyString => (count, acc)
  end.

(** Round-to-nearest-even of a natural number to 53 significant bits. *)
Definition round_to_double (v : N) : N :=
  let bits := N.size v in
  if (bits <=? 53)%N then v
  else
    let shift := (bits - 53)%N in
    let q := N.shiftr v shift in
    let rem := N.land v (N.ones shift) in
    let half := N.shiftl 1 (shift - 1) in
    let q' := if (half <? rem)%N || ((rem =? half)%N && N.odd q) then (q + 1)%N else q in
    N.shiftl q' shift.

Definition parseInt10 (value : string) : parsed :=
  let s := JS.trimStart value in
  let '(negative, s) :=
    match s with
    | String "-" s' => (true, s')
    | String "+" s' => (false, s')
    | _ => (false, s)
    end in
  match digits_prefix s 0 0 with
  | (O, _) => PNaN
  | (S _, v) =>
      let d := round_to_double v in
      if (N.shiftl 1 1024 <=? d)%N then PInfinity negative
      else PInt (if negative then - Z.of_N d else Z.of_N d)
  end.

End Number.

(** ** The platform *)

(** A thrown JavaScript value: whether it is an instance of [Error], and
    its [message]. *)
Record Thrown : Type := { is_Error : bool; message : string }.

(** [new Error(message)] *)
Definition Error (msg : string) : Thrown := {| is_Error := true; message := msg |}.

Inductive result (A : Type) : Type :=
| Ok (a : A)
| Throw (e : Thrown).
Arguments Ok {A} a.
Arguments Throw {A} e.

(** What the client takes from its host.  [URL_new input base] is
    [new URL(input, base)], [None] when that throws (the value thrown is
    [URL_TypeError]); the setters are the assignments to [hash], [search]
    and [pathname].  [decodeURIComponent] is [None] when it throws.  [btoa]
    is [None] on a host without [globalThis.btoa]. *)
Class Platform : Type := {
  URL : Type;
  URL_new : string -> option string -> option URL;
  URL_TypeError : Thrown;
  URL_href : URL -> string;
  URL_origin : URL -> string;
  URL_pathname : URL -> string;
  URL_set_hash : URL -> string -> URL;
  URL_set_search : URL -> string -> URL;
  URL_set_pathname : URL -> string -> URL;
  decodeURIComponent : string -> option string;
  btoa : option (string -> string);
  TextDecoder_decode : string -> string -> result string;
}.

(** ** The client *)

Module WebDAV.

Import JS Regex.

(** *** Module-level helpers *)

Definition BASE64_ALPHABET : string :=
  "ABCDEFGHIJKLMNOPQRSTUVWXYZabcdefghijklmnopqrstuvwxyz0123456789+/".

(** [new TextEncoder().encode(value)]: the UTF-8 bytes of the code units. *)
Fixpoint utf8_encode (value : string) : list Z :=
  match value with
  | EmptyString => []
  | String c rest =>
      let u := Z.of_nat (nat_of_ascii c) in
      if (u <? 128)%Z then u :: utf8_encode rest
      else Z.lor 192 (Z.shiftr u 6) :: Z.lor 128 (Z.land u 63) :: utf8_encode rest
  end.

(** [BASE64_ALPHABET[index]] *)
Definition alphabet_at (index : Z) : string :=
  String.substring (Z.to_nat index) 1 BASE64_ALPHABET.

(** One round of the outer loop of [toBase64]: the four characters for the
    bytes at [index .. index+2], of which [remaining] exist. *)
Definition base64_quad (byte0 byte1 byte2 : Z) (remaining : Z) : string :=
  let combined := Z.lor (Z.lor (Z.shiftl byte0 16) (Z.shiftl byte1 8)) byte2 in
  let padding := if (3 <=? remaining)%Z then 0%Z else (3 - remaining)%Z in
  let emit (offset : Z) : string :=
    if (4 - padding <=? offset)%Z then "="
    else alphabet_at (Z.land (Z.shiftr combined (18 - offset * 6)) 63) in
  emit 0%Z +:+ emit 1%Z +:+ emit 2%Z +:+ emit 3%Z.

(** The loop [for (index = 0; index < bytes.length; index += 3)], on the
    bytes from [index] on; a missing byte reads as 0 ([bytes[i] ?? 0]). *)
Fixpoint base64_loop (bytes : list Z) : string :=
  match bytes with
  | [] => ""
  | [byte0] => base64_quad byte0 0 0 1
  | [byte0; byte1] => base64_quad byte0 byte1 0 2
  | byte0 :: byte1 :: byte2 :: rest =>
      base64_quad byte0 byte1 byte2 3 +:+ base64_loop rest
  end.

Definition escapeXml (value : string) : string :=
  replace_char_all "'" "&apos;"
    (replace_char_all "034" "&quot;"
      (replace_char_all ">" "&gt;"
        (replace_char_all "<" "&lt;"
          (replace_char_all "&" "&amp;" value)))).

Definition safeParseInteger (value : string) : Z :=
  match Number.parseInt10 value with
  | Number.PInt parsed => parsed
  | Number.PNaN | Number.PInfinity _ => 0%Z
  end.

Record WebDAVClientOptions : Type := {
  baseURL : string;
  username : option string;
  password : option string;
  headers : option (gmap string string);
}.

Inductive ResourceType : Type := directory | file.

Record WebDAVStat : Type := {
  filename : string;
  basename : string;
  lastmod : string;
  size : Z;
  type : ResourceType;
  etag : option string;
  mime : option string;
}.

Record WebDAVQuota : Type := {
  used : Z;
  available : Z;
}.

(** [/^[a-zA-Z][a-zA-Z\d+.-]*:/] *)
Definition is_alpha (c : ascii) : bool :=
  let n := nat_of_ascii c in
  ((65 <=? n) && (n <=? 90) || (97 <=? n) && (n <=? 122))%nat.

Definition is_scheme_char (c : ascii) : bool :=
  is_alpha c || Number.is_digit c
  || Ascii.eqb c "+" || Ascii.eqb c "." || Ascii.eqb c "-".

Definition scheme_expression : RegExp :=
  {| pattern := seq [Cls is_alpha; Star is_scheme_char; Chr ":"];
     ignoreCase := false |}.

(** [<[^:>]*:?TAG[^>]*>([\s\S]*?)</[^:>]*:?TAG>], flag [i] *)
Definition tag_expression (tag : string) : RegExp :=
  {| pattern :=
       seq [Chr "<"; Star (not_in ":>"); Opt (Chr ":"); lit tag; Star (not_in ">"); Chr ">";
            Grp (StarLazy any_char);
            Chr "<"; Chr "/"; Star (not_in ":>"); Opt (Chr ":"); lit tag; Chr ">"];
     ignoreCase := true |}.

(** [<[^:>]*:?TAG[^>]*(?:/?>|>[\s\S]*?</[^:>]*:?TAG>)], flag [i] *)
Definition hasTag_expression (tag : string) : RegExp :=
  {| pattern :=
       seq [Chr "<"; Star (not_in ":>"); Opt (Chr ":"); lit tag; Star (not_in ">");
            Alt (seq [Opt (Chr "/"); Chr ">"])
                (seq [Chr ">"; StarLazy any_char;
                      Chr "<"; Chr "/"; Star (not_in ":>"); Opt (Chr ":"); lit tag; Chr ">"])];
     ignoreCase := true |}.

(** The element [tag] of [xml] as the first expression finds it: the
    trimmed text of the group, [None] when nothing matches. *)
Definition findTag (xml tag : string) : option string :=
  trim <$> match_group (tag_expression tag) xml.

Definition getTagContent (xml tag : string) : string :=
  default "" (findTag xml tag).

Definition getAllTagContents (xml tag : string) : list string :=
  trim <$> exec_all (tag_expression tag) xml 0.

Definition hasTag (xml tag : string) : bool :=
  if negb (truthy xml) then false
  else test (hasTag_expression tag) xml.

(** *** Requests, responses and asynchronous operations

    An operation is a function from the list of requests sent so far to its
    outcome and the list after it: [Ok v] for a promise fulfilled with [v],
    [Throw e] for one rejected with [e].  The transport is a [Server]: what
    [fetch] yields for a request, given the requests before it.  A response
    comes with its whole body. *)

Record Request : Type := {
  url : string;
  method : string;
  request_headers : gmap string string;
  request_body : option string;
}.

Record Response : Type := {
  status : Z;
  statusText : string;
  response_body : string;
}.

(** [response.ok] *)
Definition ok (response : Response) : bool :=
  (200 <=? status response)%Z && (status response <=? 299)%Z.

Inductive Outcome : Type :=
| Responded (response : Response)
| Rejected (e : Thrown).

Definition Server : Type := list Request -> Request -> Outcome.

Definition Async (A : Type) : Type := list Request -> result A * list Request.

Definition ret {A} (a : A) : Async A := fun sent => (Ok a, sent).

Definition throw {A} (e : Thrown) : Async A := fun sent => (Throw e, sent).

Definition bind {A B} (m : Async A) (k : A -> Async B) : Async B :=
  fun sent =>
    match m sent with
    | (Ok a, sent') => k a sent'
    | (Throw e, sent') => (Throw e, sent')
    end.

Notation "'await' x <- m ; k" := (bind m (fun x => k))
  (at level 10, x name, m at level 100, k at level 200).

(** [try { m } catch (error) { handler }] *)
Definition try_catch {A} (m : Async A) (handler : Thrown -> Async A) : Async A :=
  fun sent =>
    match m sent with
    | (Ok a, sent') => (Ok a, sent')
    | (Throw e, sent') => handler e sent'
    end.

Definition fetch (server : Server) (request : Request) : Async Response :=
  fun sent =>
    match server sent request with
    | Responded response => (Ok response, (sent ++ [request])%list)
    | Rejected e => (Throw e, (sent ++ [request])%list)
    end.

(** The requests an operation sends when started after [sent]. *)
Definition requests_of {A} (m : Async A) (sent : list Request) : list Request :=
  drop (List.length sent) (snd (m sent)).

Definition newline : string := String "010" "".

(** A template literal of several lines. *)
Definition lines (ls : list string) : string := join newline ls.

Definition xml_declaration : string :=
  "<?xml version=" +:+ dquote +:+ "1.0" +:+ dquote
  +:+ " encoding=" +:+ dquote +:+ "utf-8" +:+ dquote +:+ " ?>".

Definition dav_open (element : string) : string :=
  "<d:" +:+ element +:+ " xmlns:d=" +:+ dquote +:+ "DAV:" +:+ dquote +:+ ">".

Definition propfind_body : string :=
  lines [xml_declaration;
         dav_open "propfind";
         "  <d:prop>";
         "    <d:resourcetype/>";
         "    <d:getlastmodified/>";
         "    <d:getcontentlength/>";
         "    <d:getetag/>";
         "    <d:getcontenttype/>";
         "  </d:prop>";
         "</d:propfind>"].

Definition quota_body : string :=
  lines [xml_declaration;
         dav_open "propfind";
         "  <d:prop>";
         "    <d:quota-available-bytes/>";
         "    <d:quota-used-bytes/>";
         "  </d:prop>";
         "</d:propfind>"].

Definition xml_content_type : string := "application/xml; charset=utf-8".

(** The [depth] parameter, of type [number | "infinity"]. *)
Inductive Depth : Type :=
| DepthNumber (x : Number.number)
| DepthInfinity.

(** A [Date], as far as the client looks at it: what [toISOString()]
    returns or throws. *)
Record Date : Type := { toISOString : result string }.

Record SearchOptions : Type := {
  query : option string;
  contentType : option string;
  modifiedAfter : option Date;
  modifiedBefore : option Date;
}.

(** [/Resource not found/i] and [/Failed to stat resource:\s*404/] *)
Definition not_found_expression : RegExp :=
  {| pattern := lit "Resource not found"; ignoreCase := true |}.

Definition stat_404_expression : RegExp :=
  {| pattern := seq [lit "Failed to stat resource:"; Star is_whitespace; lit "404"];
     ignoreCase := false |}.

(** The message of a failed operation: [`${what}: ${status} ${statusText}`]. *)
Definition failure (what : string) (response : Response) : Thrown :=
  Error (what +:+ ": " +:+ string_of_Z (status response) +:+ " " +:+ statusText response).

Section Client.
Context `{Platform}.

Definition toBase64 (value : string) : string :=
  match btoa with
  | Some platform_btoa => platform_btoa value
  | None => base64_loop (utf8_encode value)
  end.

Definition decodeSegment (segment : string) : string :=
  match decodeURIComponent segment with
  | Some decoded => decoded
  | None => segment
  end.

Record WebDAVClient : Type := {
  base : URL;
  basePath : string;
  authHeader : option string;
  customHeaders : gmap string string;
}.

Definition constructor (options : WebDAVClientOptions) : result WebDAVClient :=
  if negb (truthy (baseURL options)) then Throw (Error "baseURL is required")
  else
    match URL_new (baseURL options) None with
    | None => Throw URL_TypeError
    | Some base =>
        let base := URL_set_hash base "" in
        let base := URL_set_search base "" in
        let base :=
          if negb (endsWith (URL_pathname base) "/")
          then URL_set_pathname base (URL_pathname base +:+ "/")
          else base in
        Ok {| base := base;
              basePath := or_else (strip_trailing_slashes (URL_pathname base)) "/";
              customHeaders := default ∅ (headers options);
              authHeader :=
                match username options, password options with
                | Some user, Some pass =>
                    Some ("Basic " +:+ toBase64 (user +:+ ":" +:+ pass))
                | _, _ => None
                end |}
    end.

Definition createClient (options : WebDAVClientOptions) : result WebDAVClient :=
  constructor options.

Variable this : WebDAVClient.

Definition resolveURL (path : string) : option URL :=
  if test_anchored scheme_expression path then URL_new path None
  else if startsWith path "/" then URL_new path (Some (URL_origin (base this)))
  else URL_new path (Some (URL_href (base this))).

Definition resolveRequestURL (path : string) : option URL :=
  if test_anchored scheme_expression path then URL_new path None
  else
    let relative := if startsWith path "/" then slice 1 path else path in
    URL_new relative (Some (URL_href (base this))).

Definition normalizePath (path : string) : string :=
  match resolveURL path with
  | Some url =>
      let pathname := URL_pathname url in
      let pathname :=
        if negb (String.eqb (basePath this) "/")
           && (String.eqb pathname (basePath this)
               || startsWith pathname (basePath this +:+ "/"))
        then slice (String.length (basePath this)) pathname
        else pathname in
      let pathname := strip_trailing_slashes pathname in
      if String.eqb pathname "" then "/"
      else if negb (startsWith pathname "/") then "/" +:+ pathname
      else pathname
  | None =>
      let ensured := if startsWith path "/" then path else "/" +:+ path in
      let trimmed := strip_trailing_slashes ensured in
      if String.eqb trimmed "" then "/" else trimmed
  end.

(** The loop over the [propstat] blocks of one response; [prop] is the
    variable of that name, and returning without recursion is the
    [break]. *)
Fixpoint propstat_loop (propstats : list string) (prop : string) : string :=
  match propstats with
  | [] => prop
  | propstat :: rest =>
      let status := getTagContent propstat "status" in
      if String.eqb status "" || includes status " 200 " then
        let prop := getTagContent propstat "prop" in
        if truthy prop then prop else propstat_loop rest prop
      else propstat_loop rest prop
  end.

(** The record built from a response's [href] and selected [prop]. *)
Definition make_stat (href prop : string) : WebDAVStat :=
  let resourceType := getTagContent prop "resourcetype" in
  let isDirectory := hasTag resourceType "collection" in
  let normalizedPath := normalizePath href in
  let segments := filter_Boolean (split_slash normalizedPath) in
  let basenameSegment := List.last segments "/" in
  let etag := getTagContent prop "getetag" in
  let mime := getTagContent prop "getcontenttype" in
  {| filename := normalizedPath;
     basename := decodeSegment basenameSegment;
     lastmod := getTagContent prop "getlastmodified";
     size := safeParseInteger (or_else (getTagContent prop "getcontentlength") "0");
     type := if isDirectory then directory else file;
     etag := if truthy etag then Some etag else None;
     mime := if truthy mime then Some mime else None |}.

(** One round of the loop over the responses: [None] is [continue]. *)
Definition parse_response (response : string) : option WebDAVStat :=
  let href := getTagContent response "href" in
  if negb (truthy href) then None
  else
    let propstats := getAllTagContents response "propstat" in
    let prop := propstat_loop propstats "" in
    if negb (truthy prop) then None
    else Some (make_stat href prop).

Definition parseMultiStatus (xml : string) : list WebDAVStat :=
  let responses := getAllTagContents xml "response" in
  fold_left
    (fun stats response =>
       match parse_response response with
       | Some stat => (stats ++ [stat])%list
       | None => stats
       end)
    responses [].

Definition buildHeaders (additional : option (gmap string string)) : gmap string string :=
  let headers := default ∅ additional ∪ customHeaders this in
  match authHeader this with
  | Some auth =>
      if truthy auth && bool_decide (headers !! "Authorization" = None)
      then <["Authorization" := auth]> headers
      else headers
  | None => headers
  end.

(** *** The operations *)

Variable server : Server.

Definition request (method path : string) (body : option string)
    (headers : option (gmap string string)) : Async Response :=
  match resolveRequestURL path with
  | None => throw URL_TypeError
  | Some target =>
      fetch server
        {| url := URL_href target;
           method := method;
           request_headers := buildHeaders headers;
           request_body := body |}
  end.

Definition depthValue (depth : Depth) : string :=
  match depth with
  | DepthInfinity => toLowerCase "infinity"
  | DepthNumber x =>
      if Number.isFinite x then Number.toString x else "infinity"
  end.

Definition getDirectoryContents (path : string) (depth : option Depth)
    : Async (list WebDAVStat) :=
  let depth := default (DepthNumber (Number.of_Z 1)) depth in
  await response <- request "PROPFIND" path (Some propfind_body)
                (Some {[ "Content-Type" := xml_content_type;
                         "Depth" := depthValue depth ]}) ;
  if negb (ok response)
  then throw (failure "Failed to get directory contents" response)
  else
    let xml := response_body response in
    let stats := parseMultiStatus xml in
    let targetPath := normalizePath path in
    ret (List.filter (fun stat => negb (String.eqb (filename stat) targetPath)) stats).

Definition stat (path : string) : Async WebDAVStat :=
  await response <- request "PROPFIND" path (Some propfind_body)
                (Some {[ "Content-Type" := xml_content_type;
                         "Depth" := "0" ]}) ;
  if negb (ok response)
  then throw (failure "Failed to stat resource" response)
  else
    let xml := response_body response in
    let stats := parseMultiStatus xml in
    let targetPath := normalizePath path in
    match List.find (fun stat => String.eqb (filename stat) targetPath) stats with
    | Some found => ret found
    | None =>
        match stats with
        | first :: _ => ret first
        | [] => throw (Error ("Resource not found: " +:+ path))
        end
    end.

Definition exists_ (path : string) : Async bool :=
  try_catch (await _ <- stat path; ret true)
    (fun error =>
       if is_Error error && test not_found_expression (message error) then ret false
       else if is_Error error && test stat_404_expression (message error) then ret false
       else throw error).

Definition getFileContents (path : string) : Async string :=
  await response <- request "GET" path None None ;
  if negb (ok response)
  then throw (failure "Failed to get file contents" response)
  else ret (response_body response).

Definition getFileContentsAsText (path : string) (encoding : option string)
    : Async string :=
  let encoding := default "utf-8" encoding in
  await buffer <- getFileContents path ;
  match TextDecoder_decode encoding buffer with
  | Ok text => ret text
  | Throw e => throw e
  end.

Definition putFileContents (path : string) (data : option string)
    (options : option (gmap string string)) : Async unit :=
  await response <- request "PUT" path data options ;
  if negb (ok response)
  then throw (failure "Failed to write file" response)
  else ret tt.

Definition createDirectory (path : string) : Async unit :=
  await response <- request "MKCOL" path None None ;
  if negb (ok response)
  then throw (failure "Failed to create directory" response)
  else ret tt.

Definition deleteFile (path : string) : Async unit :=
  await response <- request "DELETE" path None None ;
  if (status response =? 404)%Z then ret tt
  else if negb (ok response)
  then throw (failure "Failed to delete resource" response)
  else ret tt.

(** The common body of [moveFile] and [copyFile], which differ in the
    method and in the word of the failure message. *)
Definition transfer (method what : string) (fromPath toPath : string)
    (overwrite : option bool) : Async unit :=
  let overwrite := default false overwrite in
  match resolveRequestURL toPath with
  | None => throw URL_TypeError
  | Some target =>
      let destination := URL_href target in
      await response <- request method fromPath None
                    (Some {[ "Destination" := destination;
                             "Overwrite" := if overwrite then "T" else "F" ]}) ;
      if negb (ok response)
      then throw (failure what response)
      else ret tt
  end.

Definition moveFile : string -> string -> option bool -> Async unit :=
  transfer "MOVE" "Failed to move resource".

Definition copyFile : string -> string -> option bool -> Async unit :=
  transfer "COPY" "Failed to copy resource".

(** The loop of [getQuota] over the [propstat] blocks. *)
Fixpoint quota_loop (propstats : list string) : option WebDAVQuota :=
  match propstats with
  | [] => None
  | propstat :: rest =>
      let status := getTagContent propstat "status" in
      if negb (String.eqb status "") && negb (includes status " 200 ")
      then quota_loop rest
      else
        let prop := getTagContent propstat "prop" in
        if negb (truthy prop) then quota_loop rest
        else
          let quotaAvailable := getTagContent prop "quota-available-bytes" in
          let quotaUsed := getTagContent prop "quota-used-bytes" in
          if negb (truthy quotaAvailable) || negb (truthy quotaUsed)
          then quota_loop rest
          else Some {| used := safeParseInteger quotaUsed;
                       available := safeParseInteger quotaAvailable |}
  end.

Definition getQuota (path : option string) : Async (option WebDAVQuota) :=
  let path := default "/" path in
  await response <- request "PROPFIND" path (Some quota_body)
                (Some {[ "Content-Type" := xml_content_type;
                         "Depth" := "0" ]}) ;
  if negb (ok response) then ret None
  else
    let xml := response_body response in
    ret (quota_loop (getAllTagContents xml "propstat")).

(** A clause of the [where] part: three lines around a literal. *)
Definition clause (operator property literal : string) : string :=
  lines ["<d:" +:+ operator +:+ ">";
         "        <d:prop><d:" +:+ property +:+ "/></d:prop>";
         "        <d:literal>" +:+ literal +:+ "</d:literal>";
         "      </d:" +:+ operator +:+ ">"].

(** The clause for a date bound, when the option is set; [toISOString]
    may throw. *)
Definition date_clause (operator : string) (bound : option Date)
    : result (list string) :=
  match bound with
  | None => Ok []
  | Some date =>
      match toISOString date with
      | Ok iso => Ok [clause operator "getlastmodified" (escapeXml iso)]
      | Throw e => Throw e
      end
  end.

Definition search_body (scopeHref : string) (clauses : list string) : string :=
  lines [xml_declaration;
         dav_open "searchrequest";
         "  <d:basicsearch>";
         "    <d:select>";
         "      <d:prop>";
         "        <d:resourcetype/>";
         "        <d:getlastmodified/>";
         "        <d:getcontentlength/>";
         "        <d:getetag/>";
         "        <d:getcontenttype/>";
         "      </d:prop>";
         "    </d:select>";
         "    <d:from>";
         "      <d:scope>";
         "        <d:href>" +:+ escapeXml scopeHref +:+ "</d:href>";
         "        <d:depth>infinity</d:depth>";
         "      </d:scope>";
         "    </d:from>";
         "    " +:+ (if (0 <? List.length clauses)%nat
                     then "<d:where>" +:+ join newline clauses +:+ "</d:where>"
                     else "");
         "  </d:basicsearch>";
         "</d:searchrequest>"].

Definition search (path : string) (options : SearchOptions) : Async (list WebDAVStat) :=
  let clauses1 :=
    match query options with
    | Some q =>
        if truthy q then [clause "like" "displayname" ("%" +:+ escapeXml q +:+ "%")] else []
    | None => []
    end in
  let clauses2 :=
    match contentType options with
    | Some t => if truthy t then [clause "eq" "getcontenttype" (escapeXml t)] else []
    | None => []
    end in
  match date_clause "gt" (modifiedAfter options) with
  | Throw e => throw e
  | Ok clauses3 =>
      match date_clause "lt" (modifiedBefore options) with
      | Throw e => throw e
      | Ok clauses4 =>
          let clauses := (clauses1 ++ clauses2 ++ clauses3 ++ clauses4)%list in
          let scopePath := normalizePath path in
          let scopeHref := if String.eqb scopePath "/" then scopePath else scopePath +:+ "/" in
          let body := search_body scopeHref clauses in
          await response <- request "SEARCH" path (Some body)
                        (Some {[ "Content-Type" := xml_content_type ]}) ;
          if negb (ok response)
          then throw (failure "Failed to search" response)
          else ret (parseMultiStatus (response_body response))
      end
  end.

End Client.
End WebDAV.

(** ** A platform to run examples on

    [new URL] after the URL Standard (url.spec.whatwg.org), for the URLs a
    WebDAV server is addressed by: scheme [http], [https], [ws], [wss] or
    [ftp], and a host that is a domain name of ASCII characters.  On this
    fragment the definitions follow the standard's parser state by state.
    Outside it (another scheme, an IP address, percent-escapes or
    non-ASCII characters in the host, a punycode label) the model reports
    a failure where the standard may not; the examples of this file never
    leave the fragment. *)

Module Whatwg.

Import JS.

Record url : Type := {
  scheme : string;
  username : string;
  password : string;
  host : string;
  port : option N;
  path : list string;
  query : option string;
  fragment : option string;
}.

Definition code (c : ascii) : nat := nat_of_ascii c.

Definition hex_digit (n : nat) : ascii :=
  if (n <? 10)%nat then ascii_of_nat (48 + n) else ascii_of_nat (55 + n).

(** [%XX] for a byte *)
Definition percent_byte (b : nat) : string :=
  String "%" (String (hex_digit (b / 16)) (String (hex_digit (b mod 16)) "")).

(** UTF-8 percent-encoding of one code unit of U+0000..U+00FF. *)
Definition percent_encode_char (c : ascii) : string :=
  let u := code c in
  if (u <? 128)%nat then percent_byte u
  else percent_byte (192 + u / 64) +:+ percent_byte (128 + u mod 64).

Definition one_of (cs : string) (c : ascii) : bool :=
  existsb (Ascii.eqb c) (list_ascii_of_string cs).

(** The percent-encode sets of the standard. *)
Definition c0_control_set (c : ascii) : bool :=
  ((code c <? 32) || (126 <? code c))%nat.

Definition fragment_set (c : ascii) : bool :=
  c0_control_set c || one_of " <>`" c || Ascii.eqb c "034".

Definition query_set (c : ascii) : bool :=
  c0_control_set c || one_of " #<>" c || Ascii.eqb c "034".

Definition special_query_set (c : ascii) : bool :=
  query_set c || Ascii.eqb c "'".

Definition path_set (c : ascii) : bool :=
  query_set c || one_of "?^`{}" c.

Definition userinfo_set (c : ascii) : bool :=
  path_set c || one_of "/:;=@[\]|" c.

Fixpoint percent_encode (set : ascii -> bool) (s : string) : string :=
  match s with
  | EmptyString => EmptyString
  | String c s' =>
      if set c then percent_encode_char c +:+ percent_encode set s'
      else String c (percent_encode set s')
  end.

Definition is_special (scheme : string) : bool :=
  existsb (String.eqb scheme) ["http"; "https"; "ws"; "wss"; "ftp"].

Definition default_port (scheme : string) : option N :=
  if String.eqb scheme "http" || String.eqb scheme "ws" then Some 80%N
  else if String.eqb scheme "https" || String.eqb scheme "wss" then Some 443%N
  else if String.eqb scheme "ftp" then Some 21%N
  else None.

(** Leading and trailing C0 controls and spaces are removed, then every
    tab and newline. *)
Definition is_c0_or_space (c : ascii) : bool := (code c <=? 32)%nat.

Fixpoint strip_leading (p : ascii -> bool) (s : string) : string :=
  match s with
  | String c s' => if p c then strip_leading p s' else s
  | EmptyString => EmptyString
  end.

Fixpoint strip_trailing (p : ascii -> bool) (s : string) : string :=
  match s with
  | EmptyString => EmptyString
  | String c s' =>
      let r := strip_trailing p s' in
      if p c && String.eqb r "" then "" else String c r
  end.

Fixpoint remove_all (p : ascii -> bool) (s : string) : string :=
  match s with
  | EmptyString => EmptyString
  | String c s' => if p c then remove_all p s' else String c (remove_all p s')
  end.

Definition is_tab_or_newline (c : ascii) : bool :=
  ((code c =? 9) || (code c =? 10) || (code c =? 13))%nat.

Definition preprocess (input : string) : string :=
  remove_all is_tab_or_newline
    (strip_trailing is_c0_or_space (strip_leading is_c0_or_space input)).

(** [break_at p s]: the longest prefix without a character of [p], and the
    rest (which begins with such a character, or is empty). *)
Fixpoint break_at (p : ascii -> bool) (s : string) : string * string :=
  match s with
  | EmptyString => ("", "")
  | String c s' =>
      if p c then ("", s)
      else let '(a, b) := break_at p s' in (String c a, b)
  end.

(** Scheme start state and scheme state: an ASCII letter, then letters,
    digits, [+], [-], [.], then [:].  The scheme is lower-cased. *)
Definition split_scheme (s : string) : option (string * string) :=
  match s with
  | String c _ =>
      if WebDAV.is_alpha c then
        let '(name, rest) := break_at (fun a => negb (WebDAV.is_scheme_char a)) s in
        match rest with
        | String ":" rest' => Some (toLowerCase name, rest')
        | _ => None
        end
      else None
  | EmptyString => None
  end.

Definition is_slash (c : ascii) : bool := Ascii.eqb c "/" || Ascii.eqb c "\".

(** The pieces of a special URL's path, cut at [/] and [\]. *)
Fixpoint split_path (s : string) : list string :=
  match s with
  | EmptyString => [EmptyString]
  | String c s' =>
      if is_slash c then EmptyString :: split_path s'
      else match split_path s' with
           | piece :: rest => String c piece :: rest
           | [] => [String c EmptyString]
           end
  end.

Definition is_single_dot (segment : string) : bool :=
  let l := toLowerCase segment in
  String.eqb l "." || String.eqb l "%2e".

Definition is_double_dot (segment : string) : bool :=
  let l := toLowerCase segment in
  String.eqb l ".." || String.eqb l ".%2e" || String.eqb l "%2e." || String.eqb l "%2e%2e".

(** Shorten a path: drop its last segment, if any. *)
Definition shorten (path : list string) : list string := removelast path.

(** Path state, one piece at a time; a piece is the last one when it is
    ended by the end of the path and not by a slash. *)
Fixpoint path_state (pieces : list string) (path : list string) : list string :=
  match pieces with
  | [] => path
  | piece :: rest =>
      let last := match rest with [] => true | _ => false end in
      let path :=
        if is_double_dot piece then
          if last then (shorten path ++ [""])%list else shorten path
        else if is_single_dot piece then
          if last then (path ++ [""])%list else path
        else (path ++ [percent_encode path_set piece])%list in
      path_state rest path
  end.

(** The input from the path on: path, [?] query, [#] fragment.  In the
    [pathname] setter (a state override) [?] and [#] belong to the path. *)
Definition split_tail (s : string) : string * option string * option string :=
  let '(before, frag) := break_at (Ascii.eqb "#") s in
  let '(p, q) := break_at (Ascii.eqb "?") before in
  (p,
   match q with String _ q' => Some q' | EmptyString => None end,
   match frag with String _ f' => Some f' | EmptyString => None end).

Definition with_tail (u : url) (path : list string) (q f : option string) : url :=
  {| scheme := scheme u; username := username u; password := password u;
     host := host u; port := port u;
     path := path;
     query := percent_encode special_query_set <$> q;
     fragment := percent_encode fragment_set <$> f |}.

Definition lower_ascii_letter (c : ascii) : ascii :=
  if ((65 <=? code c) && (code c <=? 90))%nat then ascii_of_nat (code c + 32) else c.

Fixpoint map_string (f : ascii -> ascii) (s : string) : string :=
  match s with
  | EmptyString => EmptyString
  | String c s' => String (f c) (map_string f s')
  end.

Fixpoint forallb_string (p : ascii -> bool) (s : string) : bool :=
  match s with
  | EmptyString => true
  | String c s' => p c && forallb_string p s'
  end.

Fixpoint split_dot (s : string) : list string :=
  match s with
  | EmptyString => [EmptyString]
  | String c s' =>
      if Ascii.eqb c "." then EmptyString :: split_dot s'
      else match split_dot s' with
           | piece :: rest => String c piece :: rest
           | [] => [String c EmptyString]
           end
  end.

Definition forbidden_domain_code_point (c : ascii) : bool :=
  ((code c <=? 32) || (code c =? 127))%nat || one_of "#/:<>?@[\]^|%" c.

(** The last label reads as a number (decimal, or [0x] and hexadecimal):
    the host would be an IPv4 address. *)
Definition ends_in_number (domain : string) : bool :=
  let labels := split_dot domain in
  let labels := match List.last labels "x" with
                | EmptyString => removelast labels
                | _ => labels
                end in
  match List.last labels "x" with
  | EmptyString => false
  | String "0" (String "x" hex) =>
      forallb_string (fun c => Number.is_digit c || one_of "abcdef" c) hex
  | label => forallb_string Number.is_digit label
  end.

(** The host parser on a special URL's host: an ASCII domain is
    lower-cased; the empty host and a forbidden character are failures of
    the standard, the other rejections bound the model. *)
Definition parse_host (input : string) : option string :=
  let domain := map_string lower_ascii_letter input in
  if String.eqb input "" then None
  else if negb (forallb_string (fun c => (code c <? 128)%nat) input) then None
  else if negb (forallb_string (fun c => negb (forbidden_domain_code_point c)) input) then None
  else if existsb (fun label => startsWith label "xn--") (split_dot domain) then None
  else if ends_in_number domain then None
  else Some domain.

(** Port state: digits only, at most 65535, and the scheme's default port
    is not kept. *)
Definition parse_port (scheme digits : string) : option (option N) :=
  if negb (forallb_string Number.is_digit digits) then None
  else if String.eqb digits "" then Some None
  else
    let '(_, value) := Number.digits_prefix digits 0 0 in
    if (65535 <? value)%N then None
    else if bool_decide (default_port scheme = Some value) then Some None
    else Some (Some value).

(** The part of an authority before its last [@], as [(before, after)];
    [None] when there is no [@]. *)
Fixpoint split_last_at (s : string) : option (string * string) :=
  match s with
  | EmptyString => None
  | String c s' =>
      match split_last_at s' with
      | Some (a, b) => Some (String c a, b)
      | None => if Ascii.eqb c "@" then Some ("", s') else None
      end
  end.

(** Authority state, host state, port state and path start state of a
    special URL, from the first character after the slashes. *)
Definition authority_state (scheme : string) (s : string) : option url :=
  let '(authority, tail) := break_at (fun c => is_slash c || one_of "?#" c) s in
  let '(userinfo, hostport) :=
    match split_last_at authority with
    | Some (credentials, rest) => (credentials, rest)
    | None => ("", authority)
    end in
  let '(user, pass) := break_at (Ascii.eqb ":") userinfo in
  let pass := match pass with String _ p => p | EmptyString => "" end in
  let '(hostname, port_part) := break_at (Ascii.eqb ":") hostport in
  match parse_host hostname with
  | None => None
  | Some host =>
      match parse_port scheme
              (match port_part with String _ d => d | EmptyString => "" end) with
      | None => None
      | Some port =>
          let '(p, q, f) := split_tail tail in
          let p := match p with
                   | String c p' => if is_slash c then p' else p
                   | EmptyString => p
                   end in
          Some (with_tail
                  {| scheme := scheme;
                     username := percent_encode userinfo_set user;
                     password := percent_encode userinfo_set pass;
                     host := host; port := port;
                     path := []; query := None; fragment := None |}
                  (path_state (split_path p) []) q f)
      end
  end.

(** Special authority ignore slashes state. *)
Definition ignore_slashes (scheme : string) (s : string) : option url :=
  authority_state scheme (strip_leading is_slash s).

(** Relative state and relative slash state, against a special base. *)
Definition relative_state (b : url) (s : string) : option url :=
  match s with
  | String c s' =>
      if is_slash c then
        match s' with
        | String c' _ =>
            if is_slash c' then ignore_slashes (scheme b) s'
            else
              let '(p, q, f) := split_tail s' in
              Some (with_tail b (path_state (split_path p) []) q f)
        | EmptyString => Some (with_tail b (path_state [""] []) None None)
        end
      else if Ascii.eqb c "?" || Ascii.eqb c "#" then
        let '(_, q, f) := split_tail s in
        Some (with_tail b (path b)
                (match q with Some q' => Some q' | None => query b end) f)
      else
        let '(p, q, f) := split_tail s in
        Some (with_tail b (path_state (split_path p) (shorten (path b))) q f)
  | EmptyString =>
      Some {| scheme := scheme b; username := username b; password := password b;
              host := host b; port := port b; path := path b;
              query := query b; fragment := None |}
  end.

(** The basic URL parser. *)
Definition parse (input : string) (base : option url) : option url :=
  let s := preprocess input in
  match split_scheme s with
  | Some (scheme, rest) =>
      if is_special scheme then
        match base with
        | Some b =>
            if String.eqb (Whatwg.scheme b) scheme && negb (startsWith rest "//")
            then relative_state b rest
            else ignore_slashes scheme rest
        | None => ignore_slashes scheme rest
        end
      else None
  | None =>
      match base with
      | Some b => relative_state b s
      | None => None
      end
  end.

(** The serializers behind [href], [origin] and [pathname]. *)
Definition serialize_path (path : list string) : string :=
  fold_right (fun segment acc => "/" +:+ segment +:+ acc) "" path.

Definition serialize_host (u : url) : string :=
  host u +:+
  match port u with
  | Some p => ":" +:+ string_of_Z (Z.of_N p)
  | None => ""
  end.

Definition origin (u : url) : string :=
  scheme u +:+ "://" +:+ serialize_host u.

Definition href (u : url) : string :=
  scheme u +:+ "://" +:+
  (if truthy (username u) || truthy (password u)
   then username u +:+ (if truthy (password u) then ":" +:+ password u else "") +:+ "@"
   else "") +:+
  serialize_host u +:+ serialize_path (path u) +:+
  match query u with Some q => "?" +:+ q | None => "" end +:+
  match fragment u with Some f => "#" +:+ f | None => "" end.

(** [new URL(input, base)]: the base, a string, is parsed first. *)
Definition new_URL (input : string) (base : option string) : option url :=
  match base with
  | None => parse input None
  | Some b =>
      match parse b None with
      | Some parsed_base => parse input (Some parsed_base)
      | None => None
      end
  end.

(** The setters of [hash] and [search], for the empty string. *)
Definition set_hash (u : url) (value : string) : url :=
  let value := match value with String "#" v => v | _ => value end in
  {| scheme := scheme u; username := username u; password := password u;
     host := host u; port := port u; path := path u; query := query u;
     fragment := if String.eqb value "" then None
                 else Some (percent_encode fragment_set (remove_all is_tab_or_newline value)) |}.

Definition set_search (u : url) (value : string) : url :=
  let value := match value with String "?" v => v | _ => value end in
  {| scheme := scheme u; username := username u; password := password u;
     host := host u; port := port u; path := path u;
     query := if String.eqb value "" then None
              else Some (percent_encode special_query_set (remove_all is_tab_or_newline value));
     fragment := fragment u |}.

(** The setter of [pathname]: the path is parsed again from the path start
    state, where [?] and [#] are characters of the path. *)
Definition set_pathname (u : url) (value : string) : url :=
  let value := remove_all is_tab_or_newline value in
  let p := match value with
           | String c p' => if is_slash c then p' else value
           | EmptyString => value
           end in
  {| scheme := scheme u; username := username u; password := password u;
     host := host u; port := port u;
     path := path_state (split_path p) [];
     query := query u; fragment := fragment u |}.

Definition hex_value (c : ascii) : option nat :=
  let n := code c in
  if ((48 <=? n) && (n <=? 57))%nat then Some (n - 48)%nat
  else if ((65 <=? n) && (n <=? 70))%nat then Some (n - 55)%nat
  else if ((97 <=? n) && (n <=? 102))%nat then Some (n - 87)%nat
  else None.

(** [decodeURIComponent]: an escape of an ASCII byte, or the two escapes
    of U+0080..U+00FF, is decoded; a malformed escape throws.  [lead] is the
    first byte of a two-byte sequence still to be completed.  An escape
    sequence for a character above U+00FF has no 8-bit string to decode to
    and is reported as a failure by this model. *)
Fixpoint decode_loop (lead : option nat) (s : string) : option string :=
  match s with
  | EmptyString => match lead with None => Some EmptyString | Some _ => None end
  | String c rest =>
      if Ascii.eqb c "%" then
        match rest with
        | String h (String l rest') =>
            match hex_value h, hex_value l with
            | Some a, Some b =>
                let byte := (16 * a + b)%nat in
                match lead with
                | None =>
                    if (byte <? 128)%nat
                    then String (ascii_of_nat byte) <$> decode_loop None rest'
                    else if ((byte =? 194) || (byte =? 195))%nat
                    then decode_loop (Some byte) rest'
                    else None
                | Some first =>
                    if ((128 <=? byte) && (byte <=? 191))%nat
                    then String (ascii_of_nat ((first - 192) * 64 + (byte - 128)))
                           <$> decode_loop None rest'
                    else None
                end
            | _, _ => None
            end
        | _ => None
        end
      else
        match lead with
        | None => String c <$> decode_loop None rest
        | Some _ => None
        end
  end.

Definition decode_component (s : string) : option string := decode_loop None s.

(** [btoa] on a string of code units below 256: base64 of those bytes. *)
Definition btoa_latin1 (value : string) : string :=
  WebDAV.base64_loop (List.map (fun c => Z.of_nat (code c)) (list_ascii_of_string value)).

(** [new TextDecoder(encoding).decode(buffer)] for UTF-8 and a buffer of
    ASCII bytes; other labels and bytes are outside this model. *)
Definition decode_text (encoding buffer : string) : result string :=
  if String.eqb (toLowerCase (trim encoding)) "utf-8"
     && forallb_string (fun c => (code c <? 128)%nat) buffer
  then Ok buffer
  else Throw {| is_Error := true; message := "unsupported by the model platform" |}.

#[export] Instance platform : Platform := {|
  URL := url;
  URL_new := new_URL;
  URL_TypeError := {| is_Error := true; message := "Invalid URL" |};
  URL_href := href;
  URL_origin := origin;
  URL_pathname := fun u => serialize_path (path u);
  URL_set_hash := set_hash;
  URL_set_search := set_search;
  URL_set_pathname := set_pathname;
  decodeURIComponent := decode_component;
  btoa := Some btoa_latin1;
  TextDecoder_decode := decode_text;
|}.

End Whatwg.

(** ** Definitions the statements use *)

Module Spec.

Import JS Regex WebDAV.

(** A canonical path: a leading slash, and no trailing slash unless the
    path is the root. *)
Definition canonical (path : string) : Prop :=
  startsWith path "/" = true /\ (path = "/" \/ endsWith path "/" = false).

(** The string-based fallback, in the words of the specification: a
    leading slash is ensured, trailing slashes are stripped, the empty
    result becomes the root. *)
Definition string_fallback (path : string) : string :=
  or_else
    (strip_trailing_slashes (if startsWith path "/" then path else "/" +:+ path))
    "/".

(** The text has an integer at its head: a decimal digit, after at most
    one sign. *)
Definition has_leading_integer (text : string) : bool :=
  match text with
  | String "-" (String c _) | String "+" (String c _) => Number.is_digit c
  | String c _ => Number.is_digit c
  | EmptyString => false
  end.

(** A [propstat] block is successful, as the specification words it: its
    [status] element is absent or contains [" 200 "]. *)
Definition status_absent_or_200 (propstat : string) : bool :=
  match findTag propstat "status" with
  | None => true
  | Some status => includes status " 200 "
  end.

(** The same, with an empty [status] element counted as absent. *)
Definition status_empty_or_200 (propstat : string) : bool :=
  match findTag propstat "status" with
  | None => true
  | Some status => String.eqb status "" || includes status " 200 "
  end.

(** The [prop] block of a [propstat] is non-empty (after trimming). *)
Definition has_prop (propstat : string) : bool :=
  truthy (getTagContent propstat "prop").

(** The parser in the words of the specification, for a notion
    [successful] of successful [propstat]: a response with a non-empty
    [href] gives the record of its first successful [propstat] with a
    non-empty [prop]; any other response gives none; the records come in
    the order of the responses. *)
Section Parser.
Context `{Platform}.
Variable this : WebDAVClient.
Variable successful : string -> bool.

Definition record_of_response (response : string) : option WebDAVStat :=
  let href := getTagContent response "href" in
  if String.eqb href "" then None
  else
    match List.find (fun propstat => successful propstat && has_prop propstat)
            (getAllTagContents response "propstat") with
    | Some propstat => Some (make_stat this href (getTagContent propstat "prop"))
    | None => None
    end.

Definition records (xml : string) : list WebDAVStat :=
  omap record_of_response (getAllTagContents xml "response").

End Parser.

(** The pathname of the resource [relative] below a base path. *)
Definition below (basePath relative : string) : string :=
  if String.eqb basePath "/" then "/" +:+ relative
  else basePath +:+ "/" +:+ relative.

(** The request [request(method, path, {body, headers})] hands to
    [fetch], for the URL [target] the path resolves to. *)
Definition request_for `{Platform} (this : WebDAVClient) (method : string)
    (target : URL) (body : option string)
    (headers : option (gmap string string)) : Request :=
  {| url := URL_href target;
     method := method;
     request_headers := buildHeaders this headers;
     request_body := body |}.

(** An operation that has sent a request ends in the failure [e]. *)
Definition fails_with {A} (op : Async A) (sent : list Request) (e : Thrown) : Prop :=
  requests_of op sent <> [] -> fst (op sent) = Throw e.

(** The value of header [name] in a request. *)
Definition header (name : string) (request : Request) : option string :=
  request_headers request !! name.

End Spec.

(** ** Example data *)

Module Examples.

Import JS WebDAV.

#[local] Existing Instance Whatwg.platform.

Definition options : WebDAVClientOptions :=
  {| baseURL := "https://example.com/dav";
     username := Some "user";
     password := Some "pass";
     headers := None |}.

(** The URL [https://example.com] followed by the path of the given
    segments. *)
Definition url_of (segments : list string) : Whatwg.url :=
  {| Whatwg.scheme := "https"; Whatwg.username := ""; Whatwg.password := "";
     Whatwg.host := "example.com"; Whatwg.port := None;
     Whatwg.path := segments; Whatwg.query := None; Whatwg.fragment := None |}.

Definition base_url : Whatwg.url := url_of ["dav"; ""].

(** The client [createClient(options)] returns. *)
Definition client : WebDAVClient :=
  {| base := base_url : URL;
     basePath := "/dav";
     authHeader := Some "Basic dXNlcjpwYXNz";
     customHeaders := ∅ |}.

(** A client whose base path is [/a]. *)
Definition options_a : WebDAVClientOptions :=
  {| baseURL := "https://example.com/a";
     username := None;
     password := None;
     headers := None |}.

Definition client_a : WebDAVClient :=
  {| base := url_of ["a"; ""] : URL;
     basePath := "/a";
     authHeader := None;
     customHeaders := ∅ |}.

(** A multi-status document with one response: [href], the text of the
    [status] element, and the properties. *)
Definition response_xml (href status : string) (props : list string) : string :=
  lines (["  <d:response>";
          "    <d:href>" +:+ href +:+ "</d:href>";
          "    <d:propstat>";
          "      <d:status>" +:+ status +:+ "</d:status>";
          "      <d:prop>"] ++
         props ++
         ["      </d:prop>";
          "    </d:propstat>";
          "  </d:response>"])%list.

Definition multistatus (responses : list string) : string :=
  lines ([xml_declaration; dav_open "multistatus"] ++ responses ++ ["</d:multistatus>"])%list.

Definition file_props (length : string) : list string :=
  ["        <d:resourcetype />";
   "        <d:getlastmodified>Tue, 21 May 2024 11:20:30 GMT</d:getlastmodified>";
   "        <d:getcontentlength>" +:+ length +:+ "</d:getcontentlength>"].

Definition collection_props : list string :=
  ["        <d:resourcetype><d:collection/></d:resourcetype>";
   "        <d:getlastmodified>Tue, 21 May 2024 10:20:30 GMT</d:getlastmodified>";
   "        <d:getcontentlength>0</d:getcontentlength>"].

(** A server that answers every request with the same response. *)
Definition always (response : Response) : Server := fun _ _ => Responded response.

Definition multi_status (body : string) : Response :=
  {| status := 207; statusText := "Multi-Status"; response_body := body |}.

Definition not_found : Response :=
  {| status := 404; statusText := "Not Found"; response_body := "" |}.

Definition server_error : Response :=
  {| status := 500; statusText := "Server Error"; response_body := "" |}.

Definition created : Response :=
  {| status := 201; statusText := "Created"; response_body := "" |}.

(** A document with the single entry [/dav/b.txt], and the record the
    parser makes of it. *)
Definition doc_b : string :=
  multistatus [response_xml "/dav/b.txt" "HTTP/1.1 200 OK" (file_props "7")].

Definition stat_b : WebDAVStat :=
  {| filename := "/b.txt";
     basename := "b.txt";
     lastmod := "Tue, 21 May 2024 11:20:30 GMT";
     size := 7;
     type := file;
     etag := None;
     mime := None |}.

(** The same entry with a [status] element that is present and empty. *)
Definition doc_empty_status : string :=
  multistatus [response_xml "/dav/b.txt" "" (file_props "7")].

(** Entries with the lengths [-5] and [12abc]. *)
Definition doc_sizes : string :=
  multistatus [response_xml "/dav/b.txt" "HTTP/1.1 200 OK" (file_props "-5");
               response_xml "/dav/c.txt" "HTTP/1.1 200 OK" (file_props "12abc")].

(** The entry of the base collection itself. *)
Definition doc_root : string :=
  multistatus [response_xml "/dav/" "HTTP/1.1 200 OK" collection_props].

(** The number 1.5. *)
Definition one_and_a_half : Number.number := Number.Finite false "15" 1.

(** An answer to the quota request: a first block without the quota
    properties, then one that holds both. *)
Definition doc_quota : string :=
  multistatus
    ["  <d:response>";
     "    <d:href>/dav/</d:href>";
     "    <d:propstat>";
     "      <d:prop><d:getetag>e1</d:getetag></d:prop>";
     "      <d:status>HTTP/1.1 200 OK</d:status>";
     "    </d:propstat>";
     "    <d:propstat>";
     "      <d:prop>";
     "        <d:quota-available-bytes>100</d:quota-available-bytes>";
     "        <d:quota-used-bytes>25</d:quota-used-bytes>";
     "      </d:prop>";
     "      <d:status>HTTP/1.1 200 OK</d:status>";
     "    </d:propstat>";
     "  </d:response>"].

(** A status other than 404 whose text says that the resource is gone. *)
Definition gone : Response :=
  {| status := 410; statusText := "Resource Not Found"; response_body := "" |}.

(** The platform of the examples without its [btoa]. *)
Definition without_btoa : Platform :=
  {| URL := Whatwg.url;
     URL_new := Whatwg.new_URL;
     URL_TypeError := {| is_Error := true; message := "Invalid URL" |};
     URL_href := Whatwg.href;
     URL_origin := Whatwg.origin;
     URL_pathname := fun u => Whatwg.serialize_path (Whatwg.path u);
     URL_set_hash := Whatwg.set_hash;
     URL_set_search := Whatwg.set_search;
     URL_set_pathname := Whatwg.set_pathname;
     decodeURIComponent := Whatwg.decode_component;
     btoa := None;
     TextDecoder_decode := Whatwg.decode_text |}.

(** A date that is not a time: [toISOString] throws a [RangeError]. *)
Definition range_error : Thrown :=
  {| is_Error := true; message := "Invalid time value" |}.

Definition invalid_date : Date := {| toISOString := Throw range_error |}.

Definition modified_after (date : Date) : SearchOptions :=
  {| query := None; contentType := None;
     modifiedAfter := Some date; modifiedBefore := None |}.

End Examples.

(** ** Vocabulary for the properties of the other functions *)

Module Laws.

Import JS Regex WebDAV.

(** [s] contains the character [c]. *)
Fixpoint has_char (c : ascii) (s : string) : bool :=
  match s with
  | EmptyString => false
  | String a s' => Ascii.eqb a c || has_char c s'
  end.

(** Every character of [s] satisfies [p]. *)
Fixpoint all_chars (p : ascii -> bool) (s : string) : bool :=
  match s with
  | EmptyString => true
  | String a s' => p a && all_chars p s'
  end.

(** The entity of a reserved character of XML; any other character stands
    for itself. *)
Definition escape_char (c : ascii) : string :=
  if Ascii.eqb c "&" then "&amp;"
  else if Ascii.eqb c "<" then "&lt;"
  else if Ascii.eqb c ">" then "&gt;"
  else if Ascii.eqb c "034" then "&quot;"
  else if Ascii.eqb c "'" then "&apos;"
  else String c "".

(** The characters of [s], each replaced by [f] of it. *)
Fixpoint concat_map (f : ascii -> string) (s : string) : string :=
  match s with
  | EmptyString => EmptyString
  | String c s' => f c +:+ concat_map f s'
  end.

(** The number a decimal numeral denotes, read from the left: [acc] is
    the value of the digits before it. *)
Fixpoint decimal_value (d : Decimal.uint) (acc : N) : N :=
  match d with
  | Decimal.Nil => acc
  | Decimal.D0 d => decimal_value d (acc * 10 + 0)
  | Decimal.D1 d => decimal_value d (acc * 10 + 1)
  | Decimal.D2 d => decimal_value d (acc * 10 + 2)
  | Decimal.D3 d => decimal_value d (acc * 10 + 3)
  | Decimal.D4 d => decimal_value d (acc * 10 + 4)
  | Decimal.D5 d => decimal_value d (acc * 10 + 5)
  | Decimal.D6 d => decimal_value d (acc * 10 + 6)
  | Decimal.D7 d => decimal_value d (acc * 10 + 7)
  | Decimal.D8 d => decimal_value d (acc * 10 + 8)
  | Decimal.D9 d => decimal_value d (acc * 10 + 9)
  end%N.

(** [s] does not begin with a decimal digit. *)
Definition no_leading_digit (s : string) : bool :=
  match s with
  | String c _ => negb (Number.is_digit c)
  | EmptyString => true
  end.

(** The expression cannot consume the character [c]. *)
Fixpoint avoids (icase : bool) (c : ascii) (r : regex) : bool :=
  match r with
  | Eps | Eol => true
  | Chr c' => negb (chr_match icase c' c)
  | Cls p | Star p | StarLazy p => negb (p c)
  | Opt r1 | Grp r1 => avoids icase c r1
  | Cat r1 r2 | Alt r1 r2 => avoids icase c r1 && avoids icase c r2
  end.

(** The expression has no capturing group. *)
Fixpoint no_group (r : regex) : bool :=
  match r with
  | Eps | Eol | Chr _ | Cls _ | Star _ | StarLazy _ => true
  | Opt r1 => no_group r1
  | Cat r1 r2 | Alt r1 r2 => no_group r1 && no_group r2
  | Grp _ => false
  end.

(** The end of a tag expression, which stands for the closing tag:
    [</[^:>]*:?TAG>], flag [i]. *)
Definition closing_expression (tag : string) : RegExp :=
  {| pattern := seq [Chr "<"; Chr "/"; Star (not_in ":>"); Opt (Chr ":"); lit tag; Chr ">"];
     ignoreCase := true |}.

(** No closing tag of [tag] begins inside [content], which is followed by
    [rest]. *)
Fixpoint free_of_closing (tag content rest : string) : bool :=
  match content with
  | EmptyString => true
  | String c content' =>
      negb (test_anchored (closing_expression tag) (String c content' +:+ rest))
      && free_of_closing tag content' rest
  end.

(** The beginning of a tag expression, which stands for the opening tag:
    [<[^:>]*:?TAG[^>]*>], flag [i]. *)
Definition opening_expression (tag : string) : RegExp :=
  {| pattern := seq [Chr "<"; Star (not_in ":>"); Opt (Chr ":"); lit tag;
                     Star (not_in ">"); Chr ">"];
     ignoreCase := true |}.

(** No opening tag of [tag] begins inside [text], which is followed by
    [rest]. *)
Fixpoint free_of_opening (tag text rest : string) : bool :=
  match text with
  | EmptyString => true
  | String c text' =>
      negb (test_anchored (opening_expression tag) (String c text' +:+ rest))
      && free_of_opening tag text' rest
  end.

(** The position of [c] in [s]; the length of [s] when [c] is not in it. *)
Fixpoint index_in (c : ascii) (s : string) : Z :=
  match s with
  | EmptyString => 0
  | String a s' => if Ascii.eqb a c then 0 else 1 + index_in c s'
  end.

(** The character of the alphabet at [index]. *)
Definition sextet_char (index : Z) : ascii :=
  match alphabet_at index with
  | String c _ => c
  | EmptyString => "="
  end.

(** The value of a byte. *)
Definition is_byte (b : Z) : bool := (0 <=? b)%Z && (b <? 256)%Z.

(** The code unit of a character. *)
Definition code_unit (c : ascii) : Z := Z.of_nat (nat_of_ascii c).

(** A character of the base64 alphabet, or the padding character. *)
Definition is_base64_char (c : ascii) : bool :=
  has_char c BASE64_ALPHABET || Ascii.eqb c "=".

(** A continuation that sends no request. *)
Definition quiet {A B} (k : A -> Async B) : Prop :=
  forall a sent, snd (k a sent) = sent.

(** One round trip at most: the operation either fails before it sends
    anything, or appends exactly one request to those sent before. *)
Definition round_trip {A} (op : Async A) (sent : list Request) : Prop :=
  (snd (op sent) = sent /\ exists e, fst (op sent) = Throw e)
  \/ exists rq, snd (op sent) = (sent ++ [rq])%list.

(** A [propstat] block from which [getQuota] takes its answer: successful,
    with a non-empty [prop] that holds both quota properties. *)
Definition quota_complete (propstat : string) : bool :=
  let prop := getTagContent propstat "prop" in
  Spec.status_empty_or_200 propstat
  && truthy prop
  && truthy (getTagContent prop "quota-available-bytes")
  && truthy (getTagContent prop "quota-used-bytes").

Definition quota_of (propstat : string) : WebDAVQuota :=
  let prop := getTagContent propstat "prop" in
  {| used := safeParseInteger (getTagContent prop "quota-used-bytes");
     available := safeParseInteger (getTagContent prop "quota-available-bytes") |}.

Section Operations.
Context `{Platform}.
Variable this : WebDAVClient.
Variable server : Server.

(** [P] holds of every operation of the client that is one request and
    what follows from the response; [exists], which catches failures, is
    stated apart. *)
Definition every_operation (P : forall A, Async A -> Prop) : Prop :=
  (forall path depth, P _ (getDirectoryContents this server path depth))
  /\ (forall path, P _ (stat this server path))
  /\ (forall path, P _ (getFileContents this server path))
  /\ (forall path encoding, P _ (getFileContentsAsText this server path encoding))
  /\ (forall path data options, P _ (putFileContents this server path data options))
  /\ (forall path, P _ (createDirectory this server path))
  /\ (forall path, P _ (deleteFile this server path))
  /\ (forall fromPath toPath overwrite,
        P _ (moveFile this server fromPath toPath overwrite))
  /\ (forall fromPath toPath overwrite,
        P _ (copyFile this server fromPath toPath overwrite))
  /\ (forall path, P _ (getQuota this server path))
  /\ (forall path options, P _ (search this server path options)).

End Operations.

(** An operation that has sent a request ends in the result [r]. *)
Definition ends_with {A} (op : Async A) (sent : list Request) (r : result A) : Prop :=
  requests_of op sent <> [] -> fst (op sent) = r.

(** Every request the operation sends is the request for [path] with
    this method, body and per-call headers. *)
Definition sends `{Platform} (this : WebDAVClient) {A} (op : Async A)
    (sent : list Request) (method path : string) (body : option string)
    (headers : option (gmap string string)) : Prop :=
  forall rq, In rq (requests_of op sent) ->
    exists target,
      resolveRequestURL this path = Some target
      /\ rq = Spec.request_for this method target body headers.

(** Every request the operation sends has the header [name] with this
    value. *)
Definition carries {A} (op : Async A) (sent : list Request) (name value : string) : Prop :=
  forall rq, In rq (requests_of op sent) -> Spec.header name rq = Some value.

(** A transport without connection: [fetch] rejects. *)
Definition offline (e : Thrown) : Server := fun _ _ => Rejected e.

Definition network_error : Thrown := {| is_Error := true; message := "fetch failed" |}.

End Laws.

(** ** Properties *)

Import JS Regex WebDAV.

#[local] Arguments String.append !_ _ / : simpl nomatch.

(** *** Strings *)

Lemma startsWith_append_l (p s q : string) :
  startsWith (p +:+ s) (p +:+ q) = startsWith s q.
Proof.
  induction p as [|c p IH]; simpl; [reflexivity |].
  now rewrite Ascii.eqb_refl.
Qed.

Lemma startsWith_inv (s p : string) :
  startsWith s p = true -> exists r, s = p +:+ r.
Proof.
  revert s. induction p as [|c p IH]; intros s Hp; simpl in *.
  - now exists s.
  - destruct s as [|d s]; [discriminate |].
    apply andb_true_iff in Hp. destruct Hp as [Hc Hp].
    apply Ascii.eqb_eq in Hc. subst d.
    destruct (IH _ Hp) as [r ->]. now exists r.
Qed.

Lemma slice_append (p r : string) : slice (String.length p) (p +:+ r) = r.
Proof. induction p as [|c p IH]; simpl; [now destruct r | exact IH]. Qed.

(** [endsWith s "/"] looks at the last character. *)
Lemma endsWith_slash_cons (c : ascii) (s : string) :
  endsWith (String c s) "/" =
  if String.eqb s "" then Ascii.eqb c "/" else endsWith s "/".
Proof.
  unfold endsWith. destruct s as [|d s]; simpl.
  - now destruct (Ascii.eqb c "/").
  - rewrite Nat.sub_0_r. reflexivity.
Qed.

(** What is left after stripping has no trailing slash. *)
Lemma strip_trailing_slashes_ends (s : string) :
  endsWith (strip_trailing_slashes s) "/" = false.
Proof.
  induction s as [|c s IH]; simpl; [reflexivity |].
  destruct (Ascii.eqb c "/" && String.eqb (strip_trailing_slashes s) "") eqn:Hc;
    [reflexivity |].
  rewrite endsWith_slash_cons.
  destruct (String.eqb (strip_trailing_slashes s) "") eqn:He; [| exact IH].
  rewrite andb_true_r in Hc. exact Hc.
Qed.

(** Stripping leaves a string without trailing slash as it is. *)
Lemma strip_trailing_slashes_id (s : string) :
  endsWith s "/" = false -> strip_trailing_slashes s = s.
Proof.
  induction s as [|c s IH]; simpl; [reflexivity |].
  rewrite endsWith_slash_cons. intros Hends.
  destruct (String.eqb s "") eqn:Hs.
  - apply String.eqb_eq in Hs. subst s. simpl. now rewrite Hends.
  - rewrite (IH Hends), Hs, andb_false_r. reflexivity.
Qed.

Lemma strip_trailing_slashes_head (c : ascii) (s : string) :
  strip_trailing_slashes (String c s) <> "" ->
  startsWith (strip_trailing_slashes (String c s)) (String c "") = true.
Proof.
  simpl.
  destruct (Ascii.eqb c "/" && String.eqb (strip_trailing_slashes s) "");
    [congruence |].
  intros _. simpl. now rewrite Ascii.eqb_refl.
Qed.

Lemma endsWith_slash_prepend (s : string) :
  s <> "" -> endsWith ("/" +:+ s) "/" = endsWith s "/".
Proof.
  intros Hs. simpl. rewrite endsWith_slash_cons.
  apply String.eqb_neq in Hs. now rewrite Hs.
Qed.

(** *** Regular expressions *)

Lemma slice_all (s : string) : slice (String.length s) s = "".
Proof. induction s as [|c s IH]; [reflexivity | exact IH]. Qed.

(** [\/*$] matches where only slashes are left. *)
Lemma star_slashes_eol {R} (s : string) (cap : option string)
    (k : string -> option string -> option R) :
  exec_at false (Cat (Star (Ascii.eqb "/")) Eol) s cap k
  = if String.eqb (strip_trailing_slashes s) "" then k "" cap else None.
Proof.
  cbn [exec_at]. induction s as [|c s IH]; [reflexivity |].
  cbn [strip_trailing_slashes]. rewrite (Ascii.eqb_sym c "/").
  destruct (Ascii.eqb "/" c); [| reflexivity].
  rewrite IH. cbn [andb].
  destruct (String.eqb (strip_trailing_slashes s) ""); [now destruct (k "" cap) | reflexivity].
Qed.

(** The function [strip_trailing_slashes] is [replace(/\/+$/, "")] as the
    matcher computes it. *)
Lemma replace_trailing_slashes (s : string) :
  replace_first trailing_slashes_expression "" s = strip_trailing_slashes s.
Proof.
  induction s as [|c s IH]; [reflexivity |].
  cbn [replace_first].
  change (match_here trailing_slashes_expression (String c s))
    with (if Ascii.eqb "/" c
          then exec_at false (Cat (Star (Ascii.eqb "/")) Eol) s None
                 (fun s' cap =>
                    Some ((String.length (String c s) - String.length s')%nat, cap))
          else None).
  cbn [strip_trailing_slashes]. rewrite (Ascii.eqb_sym c "/").
  destruct (Ascii.eqb "/" c); cbn [andb]; [| now rewrite IH].
  rewrite (star_slashes_eol s None).
  destruct (String.eqb (strip_trailing_slashes s) ""); [| now rewrite IH].
  cbn [String.length]. rewrite Nat.sub_0_r.
  change (slice (String.length (String c s)) (String c s) = "").
  apply slice_all.
Qed.

(** A match goes on with what is left of the input: the continuation is
    called on a suffix. *)
Lemma exec_at_suffix {R} (icase : bool) (r : regex) :
  forall (s : string) (cap : option string)
         (k : string -> option string -> option R) (x : R),
    exec_at icase r s cap k = Some x ->
    exists s' cap',
      k s' cap' = Some x /\ (String.length s' <= String.length s)%nat.
Proof.
  induction r as [| c | p | p | p | r1 IH1 | r1 IH1 r2 IH2 | r1 IH1 r2 IH2 | r1 IH1 |];
    intros s cap k x Hx; cbn [exec_at] in Hx.
  - eauto.
  - destruct s as [|a s]; [discriminate |].
    destruct (chr_match icase c a); [| discriminate].
    exists s, cap. split; [exact Hx | simpl; lia].
  - destruct s as [|a s]; [discriminate |].
    destruct (p a); [| discriminate].
    exists s, cap. split; [exact Hx | simpl; lia].
  - induction s as [|a s IHs]; [eauto |].
    destruct (p a); [| eauto].
    match type of Hx with
    | match ?g with _ => _ end = _ => destruct g as [y|] eqn:Hgo
    end; [| eauto].
    injection Hx as ->. destruct (IHs eq_refl) as (s' & cap' & Hk & Hlen).
    exists s', cap'. split; [exact Hk | simpl; lia].
  - induction s as [|a s IHs].
    + destruct (k "" cap) eqn:Hk; [| discriminate]. injection Hx as ->. eauto.
    + destruct (k (String a s) cap) eqn:Hk; [injection Hx as ->; eauto |].
      destruct (p a); [| discriminate].
      destruct (IHs Hx) as (s' & cap' & Hk' & Hlen).
      exists s', cap'. split; [exact Hk' | simpl; lia].
  - destruct (exec_at icase r1 s cap k) eqn:H1; [| eauto].
    injection Hx as ->. eauto.
  - destruct (IH1 _ _ _ _ Hx) as (s1 & cap1 & H2 & Hlen1).
    destruct (IH2 _ _ _ _ H2) as (s2 & cap2 & Hk & Hlen2).
    exists s2, cap2. split; [exact Hk | lia].
  - destruct (exec_at icase r1 s cap k) eqn:H1; [| eauto].
    injection Hx as ->. eauto.
  - destruct (IH1 _ _ _ _ Hx) as (s1 & cap1 & Hk & Hlen). eauto.
  - destruct s; [eauto | discriminate].
Qed.

(** A tag expression begins with [<]: it never matches the empty string,
    so the loop of [getAllTagContents] advances with every match. *)
Lemma tag_match_nonempty (tag s : string) (len : nat) (cap : option string) :
  match_here (tag_expression tag) s = Some (len, cap) -> (1 <= len)%nat.
Proof.
  unfold match_here.
  change (pattern (tag_expression tag))
    with (Cat (Chr "<")
            (seq [Star (not_in ":>"); Opt (Chr ":"); lit tag; Star (not_in ">"); Chr ">";
                  Grp (StarLazy any_char);
                  Chr "<"; Chr "/"; Star (not_in ":>"); Opt (Chr ":"); lit tag; Chr ">"])).
  cbn [exec_at]. destruct s as [|a s]; [discriminate |].
  destruct (chr_match _ "<" a); [| discriminate].
  intros Hx. apply exec_at_suffix in Hx.
  destruct Hx as (s' & cap' & Hk & Hlen). injection Hk as <- _.
  simpl. lia.
Qed.

(** *** Path canonicalisation *)

Section PathProperties.
Context `{Platform}.
Variable this : WebDAVClient.

(** The last three steps of the [try] block of [normalizePath]. *)
Lemma finish_canonical (pathname : string) :
  let stripped := strip_trailing_slashes pathname in
  Spec.canonical
    (if String.eqb stripped "" then "/"
     else if negb (startsWith stripped "/") then "/" +:+ stripped
     else stripped).
Proof.
  intros stripped. unfold Spec.canonical.
  destruct (String.eqb stripped "") eqn:He; [split; [reflexivity | now left] |].
  apply String.eqb_neq in He.
  pose proof (strip_trailing_slashes_ends pathname) as Hends. fold stripped in Hends.
  destruct (startsWith stripped "/") eqn:Hs; simpl.
  - split; [exact Hs | now right].
  - split; [reflexivity | right].
    transitivity (endsWith stripped "/"); [apply (endsWith_slash_prepend _ He) | exact Hends].
Qed.

Lemma fallback_canonical (path : string) :
  Spec.canonical (Spec.string_fallback path).
Proof.
  unfold Spec.string_fallback, or_else, truthy.
  set (ensured := if startsWith path "/" then path else "/" +:+ path).
  assert (Hhead : exists rest, ensured = String "/" rest).
  { unfold ensured. destruct (startsWith path "/") eqn:Hs.
    - apply startsWith_inv in Hs. destruct Hs as [r ->]. now exists r.
    - now exists path. }
  destruct Hhead as [rest ->].
  destruct (String.eqb (strip_trailing_slashes (String "/" rest)) "") eqn:He; cbn [negb].
  - split; [reflexivity | now left].
  - apply String.eqb_neq in He. split.
    + now apply (strip_trailing_slashes_head "/" rest).
    + right. apply strip_trailing_slashes_ends.
Qed.

Lemma normalizePath_fallback (path : string) :
  resolveURL this path = None ->
  normalizePath this path = Spec.string_fallback path.
Proof.
  intros Hfail. unfold normalizePath, Spec.string_fallback, or_else, truthy.
  rewrite Hfail.
  now destruct (String.eqb _ "").
Qed.

Lemma normalizePath_canonical (path : string) :
  Spec.canonical (normalizePath this path).
Proof.
  destruct (resolveURL this path) as [u|] eqn:Hu.
  - unfold normalizePath. rewrite Hu. apply finish_canonical.
  - rewrite (normalizePath_fallback _ Hu). apply fallback_canonical.
Qed.

(** C9.  Path canonicalisation is total: [normalizePath] is a function
    that yields a canonical path on every input (a failure of the URL
    parser, [None], is caught), and when the URL does not resolve the
    result is the string-based fallback: leading slash ensured, trailing
    slashes stripped, the empty result replaced by the root. *)
Theorem normalizePath_total (path : string) :
  Spec.canonical (normalizePath this path)
  /\ (resolveURL this path = None ->
      normalizePath this path = Spec.string_fallback path).
Proof.
  split; [apply normalizePath_canonical | apply normalizePath_fallback].
Qed.

(** A canonical path that the URL parser leaves as it is, and that
    does not lie below the base path, is a fixed point. *)
Lemma normalizePath_fixed (c : string) :
  Spec.canonical c ->
  (forall u, resolveURL this c = Some u -> URL_pathname u = c) ->
  (basePath this = "/"
   \/ (c <> basePath this /\ startsWith c (basePath this +:+ "/") = false)) ->
  normalizePath this c = c.
Proof.
  intros [Hhead Htail] Hstable Hbase.
  assert (Hne : String.eqb c "" = false).
  { apply String.eqb_neq. intros ->. discriminate Hhead. }
  assert (Hfinish :
    (if String.eqb (strip_trailing_slashes c) "" then "/"
     else if negb (startsWith (strip_trailing_slashes c) "/")
          then "/" +:+ strip_trailing_slashes c
          else strip_trailing_slashes c) = c).
  { destruct Htail as [-> | Hends]; [reflexivity |].
    rewrite (strip_trailing_slashes_id _ Hends), Hne, Hhead. reflexivity. }
  unfold normalizePath. destruct (resolveURL this c) as [u|] eqn:Hu.
  - rewrite (Hstable u eq_refl).
    replace (negb (String.eqb (basePath this) "/")
             && (String.eqb c (basePath this)
                 || startsWith c (basePath this +:+ "/"))) with false.
    + exact Hfinish.
    + destruct Hbase as [-> | [Hneq Hnot]]; [reflexivity |].
      apply String.eqb_neq in Hneq. rewrite Hneq, Hnot. now rewrite andb_false_r.
  - rewrite Hhead.
    destruct (String.eqb (strip_trailing_slashes c) "") eqn:He.
    + destruct Htail as [-> | Hends]; [reflexivity |].
      rewrite (strip_trailing_slashes_id _ Hends) in He. congruence.
    + destruct Htail as [-> | Hends]; [discriminate He |].
      apply (strip_trailing_slashes_id _ Hends).
Qed.

(** The base path a constructed client holds is canonical as well. *)
Lemma constructor_basePath (options : WebDAVClientOptions) :
  constructor options = Ok this ->
  basePath this = "/"
  \/ (basePath this <> "" /\ endsWith (basePath this) "/" = false).
Proof.
  unfold constructor. destruct (negb (truthy (baseURL options))); [discriminate |].
  destruct (URL_new (baseURL options) None) as [b|]; [| discriminate].
  intros Hok. injection Hok as <-. cbn [basePath].
  unfold or_else, truthy.
  destruct (String.eqb (strip_trailing_slashes _) "") eqn:He; cbn [negb]; [now left |].
  right. split; [now apply String.eqb_neq | apply strip_trailing_slashes_ends].
Qed.

(** A resource whose pathname is [relative] below the base path has the
    canonical path of ["/" +:+ relative]. *)
Lemma normalizePath_below (path relative : string) (u : URL) :
  resolveURL this path = Some u ->
  URL_pathname u = Spec.below (basePath this) relative ->
  normalizePath this path =
  (let stripped := strip_trailing_slashes ("/" +:+ relative) in
   if String.eqb stripped "" then "/" else stripped).
Proof.
  intros Hu Hp. cbv zeta. unfold normalizePath. rewrite Hu, Hp. unfold Spec.below.
  change ("/" +:+ relative) with (String "/" relative).
  destruct (String.eqb (basePath this) "/") eqn:Hb; cbn [negb andb].
  - destruct (String.eqb (strip_trailing_slashes (String "/" relative)) "") eqn:He.
    + reflexivity.
    + apply String.eqb_neq in He.
      now rewrite (strip_trailing_slashes_head "/" relative He).
  - rewrite startsWith_append_l.
    change (startsWith (String "/" relative) "/") with true.
    rewrite orb_true_r, slice_append.
    destruct (String.eqb (strip_trailing_slashes (String "/" relative)) "") eqn:He.
    + reflexivity.
    + apply String.eqb_neq in He.
      now rewrite (strip_trailing_slashes_head "/" relative He).
Qed.

(** Only the base paths [""], ["/a"] and ["/a/b"] are followed by a slash
    at the head of ["/a/b/"]. *)
Lemma below_a_b (bp : string) :
  startsWith "/a/b/" (bp +:+ "/") = true ->
  bp = "" \/ bp = "/a" \/ bp = "/a/b".
Proof.
  intros Hs.
  do 5 (destruct bp as [|? bp]; simpl in Hs;
        [ repeat (apply andb_true_iff in Hs; destruct Hs as [?Hc Hs]);
          repeat match goal with
                 | Hc : Ascii.eqb _ _ = true |- _ => apply Ascii.eqb_eq in Hc; subst
                 end; try discriminate; auto
        | apply andb_true_iff in Hs; destruct Hs as [?Hc Hs] ]).
  destruct bp; discriminate Hs.
Qed.

(** C2 (amended).  Canonicalising a canonical path [c = normalizePath(P)]
    again returns [c] whenever [c], where it resolves to a URL, resolves to
    one whose pathname is [c], and the base path is the root or [c] neither
    is the base path nor begins with the base path and a slash.  For a client
    whose base path is neither ["/a"] nor ["/a/b"], the inputs ["a/b/"] and
    ["/a/b/"] and an absolute URL, resolving to the pathnames [a/b/] below
    the base path, [/a/b/], and [a/b/] below the base path, all have the
    canonical path ["/a/b"]. *)
Theorem normalizePath_idempotent_off_base :
  (forall path : string,
     let c := normalizePath this path in
     (forall u, resolveURL this c = Some u -> URL_pathname u = c) ->
     (basePath this = "/"
      \/ (c <> basePath this /\ startsWith c (basePath this +:+ "/") = false)) ->
     normalizePath this c = c)
  /\ (forall (options : WebDAVClientOptions) (absolute : string) (u1 u2 u3 : URL),
        constructor options = Ok this ->
        basePath this <> "/a" -> basePath this <> "/a/b" ->
        resolveURL this "a/b/" = Some u1 ->
        URL_pathname u1 = Spec.below (basePath this) "a/b/" ->
        resolveURL this "/a/b/" = Some u2 ->
        URL_pathname u2 = "/a/b/" ->
        resolveURL this absolute = Some u3 ->
        URL_pathname u3 = Spec.below (basePath this) "a/b/" ->
        normalizePath this "a/b/" = "/a/b"
        /\ normalizePath this "/a/b/" = "/a/b"
        /\ normalizePath this absolute = "/a/b").
Proof.
  split.
  - intros path c. apply normalizePath_fixed, normalizePath_canonical.
  - intros options absolute u1 u2 u3 Hthis Ha Hab H1 P1 H2 P2 H3 P3.
    split; [exact (normalizePath_below _ _ _ H1 P1) |].
    split; [| exact (normalizePath_below _ _ _ H3 P3)].
    unfold normalizePath. rewrite H2, P2.
    replace (negb (String.eqb (basePath this) "/")
             && (String.eqb "/a/b/" (basePath this)
                 || startsWith "/a/b/" (basePath this +:+ "/"))) with false;
      [reflexivity |].
    destruct (constructor_basePath _ Hthis) as [-> | [Hne Hends]]; [reflexivity |].
    symmetry. apply andb_false_iff. right. apply orb_false_iff. split.
    + apply String.eqb_neq. intros Heq. rewrite <- Heq in Hends. discriminate Hends.
    + destruct (startsWith "/a/b/" (basePath this +:+ "/")) eqn:Hs; [| reflexivity].
      destruct (below_a_b _ Hs) as [? | [? | ?]]; congruence.
Qed.

End PathProperties.

(** *** The multi-status parser *)

Lemma includes_slash_cons (c : ascii) (s : string) :
  includes (String c s) "/" = Ascii.eqb "/" c || includes s "/".
Proof. simpl. now rewrite andb_true_r. Qed.

(** No piece of a split holds a slash. *)
Lemma split_slash_pieces (s piece : string) :
  In piece (split_slash s) -> includes piece "/" = false.
Proof.
  revert piece. induction s as [|c s IH]; intros piece; simpl.
  - intros [<- | []]. reflexivity.
  - destruct (Ascii.eqb c "/") eqn:Hc.
    + intros [<- | Hin]; [reflexivity | now apply IH].
    + destruct (split_slash s) as [|first rest] eqn:Hsplit.
      * intros [<- | []]. rewrite includes_slash_cons, Ascii.eqb_sym, Hc. reflexivity.
      * intros [<- | Hin].
        -- rewrite includes_slash_cons, Ascii.eqb_sym, Hc. apply IH. now left.
        -- apply IH. now right.
Qed.

(** A string all of whose pieces are empty is made of slashes. *)
Lemma split_slash_all_empty (s : string) :
  (forall piece, In piece (split_slash s) -> piece = "") ->
  s = "" \/ endsWith s "/" = true.
Proof.
  induction s as [|c s IH]; [now left |]. intros Hall. right. simpl in Hall.
  rewrite endsWith_slash_cons.
  destruct (Ascii.eqb c "/") eqn:Hc.
  - destruct IH as [-> | Hends]; [intros piece Hin; apply Hall; now right | reflexivity |].
    now destruct (String.eqb s "").
  - destruct (split_slash s) as [|first rest]; discriminate (Hall _ (or_introl eq_refl)).
Qed.

Lemma filter_Boolean_In (pieces : list string) (x : string) :
  In x (filter_Boolean pieces) -> In x pieces /\ x <> "".
Proof.
  unfold filter_Boolean. rewrite filter_In. unfold truthy.
  intros [Hin Ht]. split; [exact Hin |].
  intros ->. discriminate Ht.
Qed.

Lemma filter_Boolean_nil (pieces : list string) :
  filter_Boolean pieces = [] -> forall x, In x pieces -> x = "".
Proof.
  induction pieces as [|p pieces IH]; simpl; [intros _ x [] |].
  unfold truthy at 1. destruct (String.eqb p "") eqn:Hp; simpl; [| discriminate].
  apply String.eqb_eq in Hp. intros Hnil x [<- | Hin]; [exact Hp | now apply IH].
Qed.

Lemma last_In {A} (l : list A) (d : A) : l <> [] -> In (List.last l d) l.
Proof.
  induction l as [|a l IH]; [congruence | intros _].
  destruct l as [|b l]; [now left | right]. apply IH. discriminate.
Qed.

(** The segments of a canonical path: none for the root, and otherwise a
    last one, which is not empty and holds no slash. *)
Lemma last_segment (path : string) :
  Spec.canonical path ->
  let segment := List.last (filter_Boolean (split_slash path)) "/" in
  (path = "/" -> segment = "/")
  /\ (path <> "/" -> segment <> "" /\ includes segment "/" = false).
Proof.
  intros [Hhead Htail] segment. split; [intros ->; reflexivity |].
  intros Hroot. destruct Htail as [-> | Hends]; [congruence |].
  assert (Hsome : filter_Boolean (split_slash path) <> []).
  { intros Hnil.
    destruct (split_slash_all_empty path (filter_Boolean_nil _ Hnil)) as [-> | Ht];
      [discriminate Hhead | congruence]. }
  destruct (filter_Boolean_In _ _ (last_In _ "/" Hsome)) as [Hin Hne].
  split; [exact Hne | exact (split_slash_pieces _ _ Hin)].
Qed.

Lemma trimStart_head (s : string) :
  match trimStart s with
  | String c _ => is_whitespace c = false
  | EmptyString => True
  end.
Proof.
  induction s as [|c s IH]; simpl; [exact I |].
  destruct (is_whitespace c) eqn:Hc; [exact IH | exact Hc].
Qed.

(** Trimmed text has no white space to skip. *)
Lemma trimStart_trim (s : string) : trimStart (trim s) = trim s.
Proof.
  unfold trim. pose proof (trimStart_head s) as Hh.
  destruct (trimStart s) as [|c t]; [reflexivity |]. simpl.
  rewrite Hh. simpl. now rewrite Hh.
Qed.

Lemma trimStart_getTagContent (xml tag : string) :
  trimStart (getTagContent xml tag) = getTagContent xml tag.
Proof.
  unfold getTagContent, findTag.
  destruct (match_group (tag_expression tag) xml); [apply trimStart_trim | reflexivity].
Qed.

(** Text without an integer at its head parses to 0. *)
Lemma safeParseInteger_no_integer (value : string) :
  Spec.has_leading_integer (trimStart value) = false ->
  safeParseInteger value = 0%Z.
Proof.
  unfold safeParseInteger, Number.parseInt10, Spec.has_leading_integer.
  destruct (trimStart value) as [|c [|d rest]]; [reflexivity | |].
  - intros Hc.
    destruct (Ascii.eqb c "-") eqn:Hm; [apply Ascii.eqb_eq in Hm; subst c; reflexivity |].
    destruct (Ascii.eqb c "+") eqn:Hp; [apply Ascii.eqb_eq in Hp; subst c; reflexivity |].
    assert (Hd : Number.is_digit c = false).
    { destruct c as [[] [] [] [] [] [] [] []]; try discriminate; exact Hc. }
    destruct c as [[] [] [] [] [] [] [] []]; try discriminate; simpl; try rewrite Hd;
      reflexivity.
  - intros Hc.
    destruct (Ascii.eqb c "-") eqn:Hm.
    { apply Ascii.eqb_eq in Hm; subst c. simpl. now rewrite Hc. }
    destruct (Ascii.eqb c "+") eqn:Hp.
    { apply Ascii.eqb_eq in Hp; subst c. simpl. now rewrite Hc. }
    assert (Hd : Number.is_digit c = false).
    { destruct c as [[] [] [] [] [] [] [] []]; try discriminate; exact Hc. }
    destruct c as [[] [] [] [] [] [] [] []]; try discriminate; simpl; try rewrite Hd;
      reflexivity.
Qed.

(** Text that does not begin with a minus sign parses to a number that is
    not negative. *)
Lemma safeParseInteger_nonneg (value : string) :
  startsWith (trimStart value) "-" = false ->
  (0 <= safeParseInteger value)%Z.
Proof.
  unfold safeParseInteger, Number.parseInt10.
  destruct (trimStart value) as [|c rest]; [intros _; simpl; lia |].
  intros Hs.
  assert (Hc : c <> "-"%char) by (intros ->; discriminate Hs).
  destruct c as [[] [] [] [] [] [] [] []]; try congruence; cbv beta iota zeta;
    match goal with
    | |- context [Number.digits_prefix ?a ?b ?c] =>
        destruct (Number.digits_prefix a b c) as [[|n] v]
    end; try lia;
    match goal with
    | |- context [N.leb ?a ?b] => destruct (N.leb a b)
    end; try lia; apply N2Z.is_nonneg.
Qed.

Section ParserProperties.
Context `{Platform}.
Variable this : WebDAVClient.

Lemma push_loop_omap {A B} (f : A -> option B) (l : list A) (acc : list B) :
  fold_left (fun out x => match f x with Some y => (out ++ [y])%list | None => out end) l acc
  = (acc ++ omap f l)%list.
Proof.
  revert acc. induction l as [|x l IH]; intros acc; simpl.
  - now rewrite app_nil_r.
  - rewrite IH. destruct (f x) as [y|]; [| reflexivity].
    now rewrite <- app_assoc.
Qed.

(** The loop over the responses keeps, in order, the records of the
    rounds that reach [push]. *)
Lemma parseMultiStatus_omap (xml : string) :
  parseMultiStatus this xml = omap (parse_response this) (getAllTagContents xml "response").
Proof. unfold parseMultiStatus. now rewrite push_loop_omap. Qed.

Lemma status_test (propstat : string) :
  String.eqb (getTagContent propstat "status") ""
  || includes (getTagContent propstat "status") " 200 "
  = Spec.status_empty_or_200 propstat.
Proof.
  unfold Spec.status_empty_or_200, getTagContent.
  now destruct (findTag propstat "status").
Qed.

(** The loop over the [propstat] blocks stops at the first successful one
    with a non-empty [prop]. *)
Lemma propstat_loop_find (propstats : list string) :
  propstat_loop propstats "" =
  match List.find (fun propstat => Spec.status_empty_or_200 propstat && Spec.has_prop propstat)
          propstats with
  | Some propstat => getTagContent propstat "prop"
  | None => ""
  end.
Proof.
  induction propstats as [|propstat rest IH]; simpl; [reflexivity |].
  rewrite status_test. unfold Spec.has_prop at 1.
  destruct (Spec.status_empty_or_200 propstat); simpl; [| exact IH].
  destruct (truthy (getTagContent propstat "prop")) eqn:Hp; [reflexivity |].
  unfold truthy in Hp. apply negb_false_iff, String.eqb_eq in Hp. rewrite Hp. exact IH.
Qed.

Lemma parse_response_record (response : string) :
  parse_response this response =
  Spec.record_of_response this Spec.status_empty_or_200 response.
Proof.
  unfold parse_response, Spec.record_of_response, truthy.
  destruct (String.eqb (getTagContent response "href") ""); simpl; [reflexivity |].
  rewrite propstat_loop_find.
  destruct (List.find _ _) as [propstat|] eqn:Hfind; [| reflexivity].
  apply find_some in Hfind. destruct Hfind as [_ Hq].
  apply andb_true_iff in Hq. destruct Hq as [_ Hp]. unfold Spec.has_prop, truthy in Hp.
  now rewrite Hp.
Qed.

(** C6 (amended).  For every multi-status document the parser emits one
    record per response element with a non-empty [href], taking within
    that response the first [propstat] block, in document order, whose
    [status] element is absent, or empty after trimming, or contains
    [" 200 "], and whose [prop] block is non-empty; a response without
    such a [propstat] contributes no record, and the records come in the
    order of the response elements. *)
Theorem parseMultiStatus_records (xml : string) :
  parseMultiStatus this xml = Spec.records this Spec.status_empty_or_200 xml.
Proof.
  rewrite parseMultiStatus_omap. unfold Spec.records.
  apply list_omap_ext, Forall2_same_length_lookup_2; [reflexivity |].
  intros i response response' Hr Hr'.
  assert (response = response') as <- by congruence.
  apply parse_response_record.
Qed.

(** Every record comes from a response with an [href] and a selected
    [prop]. *)
Lemma parseMultiStatus_inv (xml : string) (s : WebDAVStat) :
  In s (parseMultiStatus this xml) ->
  exists response href prop,
    In response (getAllTagContents xml "response")
    /\ href = getTagContent response "href" /\ href <> ""
    /\ prop = propstat_loop (getAllTagContents response "propstat") "" /\ prop <> ""
    /\ s = make_stat this href prop.
Proof.
  rewrite parseMultiStatus_omap, <- list_elem_of_In, list_elem_of_omap.
  intros (response & Hin & Hparse). apply list_elem_of_In in Hin.
  exists response, (getTagContent response "href"),
    (propstat_loop (getAllTagContents response "propstat") "").
  unfold parse_response, truthy in Hparse.
  destruct (String.eqb (getTagContent response "href") "") eqn:Hh; [discriminate |].
  destruct (String.eqb (propstat_loop _ "") "") eqn:Hp; [discriminate |].
  simpl in Hparse. injection Hparse as <-.
  apply String.eqb_neq in Hh, Hp. repeat split; auto.
Qed.


(** C3 (amended).  Every record the parser produces is built from a
    [prop] block, and its size is what [parseInt] reads at the head of the
    trimmed content of [getcontentlength]: it is 0 when the property is
    missing or empty and when the content does not begin with a decimal digit
    after at most one sign, and it is not negative unless the content begins
    with a minus sign. *)
Theorem parsed_stat_size (xml : string) (s : WebDAVStat) :
  In s (parseMultiStatus this xml) ->
  exists href prop,
    s = make_stat this href prop
    /\ let content := getTagContent prop "getcontentlength" in
       size s = safeParseInteger (or_else content "0")
       /\ (findTag prop "getcontentlength" = None -> size s = 0%Z)
       /\ (content = "" -> size s = 0%Z)
       /\ (Spec.has_leading_integer content = false -> size s = 0%Z)
       /\ (startsWith content "-" = false -> (0 <= size s)%Z).
Proof.
  intros Hin.
  destruct (parseMultiStatus_inv _ _ Hin) as (response & href & prop & _ & _ & _ & _ & _ & ->).
  exists href, prop. split; [reflexivity |]. cbv zeta. cbn [size make_stat].
  set (content := getTagContent prop "getcontentlength").
  assert (Hempty : content = "" -> safeParseInteger (or_else content "0") = 0%Z).
  { intros ->. reflexivity. }
  split; [reflexivity |]. split.
  { intros Hnone. apply Hempty. unfold content, getTagContent. now rewrite Hnone. }
  split; [exact Hempty |].
  unfold or_else, truthy.
  destruct (String.eqb content "") eqn:He; cbn [negb].
  - split; intros _; [reflexivity | compute; discriminate].
  - split; intros Hc.
    + apply safeParseInteger_no_integer. unfold content.
      now rewrite trimStart_getTagContent.
    + apply safeParseInteger_nonneg. unfold content.
      now rewrite trimStart_getTagContent.
Qed.

End ParserProperties.

(** *** Headers *)

Section HeaderProperties.
Context `{Platform}.
Variable this : WebDAVClient.

Lemma constructor_fields (options : WebDAVClientOptions) :
  constructor options = Ok this ->
  customHeaders this = default ∅ (headers options)
  /\ authHeader this =
     match username options, password options with
     | Some user, Some pass => Some ("Basic " +:+ toBase64 (user +:+ ":" +:+ pass))
     | _, _ => None
     end.
Proof.
  unfold constructor. destruct (negb (truthy (baseURL options))); [discriminate |].
  destruct (URL_new (baseURL options) None) as [b|]; [| discriminate].
  intros Hok. injection Hok as <-. split; reflexivity.
Qed.

(** Apart from [Authorization], the headers are the per-call headers laid
    over the client's. *)
Lemma buildHeaders_other (additional : option (gmap string string)) (name : string) :
  name <> "Authorization" ->
  buildHeaders this additional !! name
  = (default ∅ additional ∪ customHeaders this) !! name.
Proof.
  intros Hname. unfold buildHeaders.
  destruct (authHeader this) as [auth|]; [| reflexivity].
  destruct (truthy auth && bool_decide _); [| reflexivity].
  now rewrite lookup_insert_ne.
Qed.

(** A per-call header is sent as given. *)
Lemma buildHeaders_additional (additional : gmap string string) (name value : string) :
  additional !! name = Some value ->
  buildHeaders this (Some additional) !! name = Some value.
Proof.
  intros Hget. unfold buildHeaders. cbn [default].
  assert (Hmerged : (additional ∪ customHeaders this) !! name = Some value)
    by now apply lookup_union_Some_l.
  destruct (authHeader this) as [auth|]; [| exact Hmerged].
  destruct (truthy auth && bool_decide _) eqn:Hadd; [| exact Hmerged].
  apply andb_true_iff in Hadd. destruct Hadd as [_ Hnone].
  apply bool_decide_eq_true in Hnone.
  rewrite lookup_insert_ne; [exact Hmerged |]. intros <-.
  change (id additional) with additional in Hnone. congruence.
Qed.

(** C10.  For a client built from [options], with [merged] the per-call
    headers laid over the client-configured ones: the computed basic-auth
    header is added under the key ["Authorization"] exactly when both
    credentials were configured and [merged] has no key ["Authorization"];
    otherwise the headers are [merged].  A key of any other spelling, such as
    ["authorization"], is looked up on its own and does not stand in for it;
    and a per-call header overrides a client-configured one of the same
    key. *)
Theorem buildHeaders_authorization (options : WebDAVClientOptions)
    (additional : option (gmap string string)) :
  constructor options = Ok this ->
  let configured := default ∅ (headers options) in
  let merged := default ∅ additional ∪ configured in
  (forall user pass,
     username options = Some user -> password options = Some pass ->
     merged !! "Authorization" = None ->
     buildHeaders this additional
     = <["Authorization" := "Basic " +:+ toBase64 (user +:+ ":" +:+ pass)]> merged)
  /\ (username options = None \/ password options = None
      \/ is_Some (merged !! "Authorization") ->
      buildHeaders this additional = merged)
  /\ (forall user pass value,
        username options = Some user -> password options = Some pass ->
        configured !! "Authorization" = None ->
        let sent := buildHeaders this (Some {[ "authorization" := value ]}) in
        sent !! "Authorization" = Some ("Basic " +:+ toBase64 (user +:+ ":" +:+ pass))
        /\ sent !! "authorization" = Some value)
  /\ (forall name value,
        default ∅ additional !! name = Some value ->
        buildHeaders this additional !! name = Some value).
Proof.
  intros Hthis configured merged.
  destruct (constructor_fields _ Hthis) as [Hcustom Hauth].
  assert (Hadded : forall extra user pass,
    username options = Some user -> password options = Some pass ->
    (default ∅ extra ∪ configured) !! "Authorization" = None ->
    buildHeaders this extra
    = <["Authorization" := "Basic " +:+ toBase64 (user +:+ ":" +:+ pass)]>
        (default ∅ extra ∪ configured)).
  { intros extra user pass Hu Hp Hnone. unfold buildHeaders.
    rewrite Hauth, Hu, Hp, Hcustom. fold configured.
    rewrite bool_decide_eq_true_2 by exact Hnone. reflexivity. }
  split; [exact (Hadded additional) |]. split; [| split].
  - intros Hcase. unfold buildHeaders. rewrite Hauth, Hcustom. fold configured merged.
    destruct (username options) as [user|]; [| reflexivity].
    destruct (password options) as [pass|]; [| reflexivity].
    destruct Hcase as [? | [? | [v Hv]]]; try discriminate.
    rewrite bool_decide_eq_false_2 by congruence. now rewrite andb_false_r.
  - intros user pass value Hu Hp Hnone sent. unfold sent.
    rewrite (Hadded (Some {[ "authorization" := value ]}) user pass Hu Hp).
    + split; [apply lookup_insert_eq |].
      rewrite lookup_insert_ne by discriminate.
      apply lookup_union_Some_l, lookup_singleton_eq.
    + cbn [default]. apply lookup_union_None. split; [| exact Hnone].
      now apply lookup_singleton_ne.
  - intros name value Hget. destruct additional as [extra|].
    + now apply buildHeaders_additional.
    + cbn [default] in Hget. rewrite lookup_empty in Hget. discriminate.
Qed.

End HeaderProperties.

(** *** Numbers and the [Depth] header *)

Lemma strip_trailing_zeros_zeros (s : string) :
  Number.strip_trailing_zeros s
  +:+ Number.zeros (String.length s - String.length (Number.strip_trailing_zeros s))
  = s.
Proof.
  induction s as [|c s IH]; simpl; [reflexivity |].
  destruct (Ascii.eqb c "0" && String.eqb (Number.strip_trailing_zeros s) "") eqn:Hc.
  - apply andb_true_iff in Hc. destruct Hc as [Hc He].
    apply Ascii.eqb_eq in Hc. apply String.eqb_eq in He. subst c.
    rewrite He in IH. simpl in *. rewrite Nat.sub_0_r in IH. now rewrite IH.
  - simpl. now rewrite IH.
Qed.

Lemma strip_trailing_zeros_length (s : string) :
  (String.length (Number.strip_trailing_zeros s) <= String.length s)%nat.
Proof.
  induction s as [|c s IH]; simpl; [lia |].
  destruct (Ascii.eqb c "0" && String.eqb (Number.strip_trailing_zeros s) ""); simpl; lia.
Qed.

Lemma string_of_Z_sign (z : Z) :
  string_of_Z z = (if (z <? 0)%Z then "-" else "") +:+ string_of_Z (Z.abs z).
Proof. destruct z; reflexivity. Qed.

(** An integer of at most 21 digits is rendered as its decimal numeral. *)
Lemma toString_of_Z (z : Z) :
  (String.length (string_of_Z (Z.abs z)) <= 21)%nat ->
  Number.toString (Number.of_Z z) = string_of_Z z.
Proof.
  intros Hlen. unfold Number.of_Z.
  destruct (Z.eqb_spec z 0) as [-> | Hz]; [reflexivity |].
  rewrite (string_of_Z_sign z). unfold Number.toString.
  set (numeral := string_of_Z (Z.abs z)) in *.
  pose proof (strip_trailing_zeros_length numeral) as Hk.
  replace ((-5 <=? Z.of_nat (String.length numeral))%Z
           && (Z.of_nat (String.length numeral) <=? 21)%Z) with true
    by (symmetry; apply andb_true_iff; split; apply Z.leb_le; lia).
  replace (Z.of_nat (String.length (Number.strip_trailing_zeros numeral))
           <=? Z.of_nat (String.length numeral))%Z with true
    by (symmetry; apply Z.leb_le; lia).
  rewrite <- Nat2Z.inj_sub by exact Hk. rewrite Nat2Z.id.
  now rewrite strip_trailing_zeros_zeros.
Qed.

(** *** The operations *)

Section OperationProperties.
Context `{Platform}.
Variable this : WebDAVClient.
Variable server : Server.

Lemma request_run (method path : string) (body : option string)
    (headers : option (gmap string string)) (sent : list Request) :
  request this server method path body headers sent =
  match resolveRequestURL this path with
  | None => (Throw URL_TypeError, sent)
  | Some target =>
      let rq := Spec.request_for this method target body headers in
      (match server sent rq with
       | Responded response => Ok response
       | Rejected e => Throw e
       end, (sent ++ [rq])%list)
  end.
Proof.
  unfold request, fetch, throw, Spec.request_for.
  destruct (resolveRequestURL this path) as [target|]; [| reflexivity].
  cbv zeta. now destruct (server sent _).
Qed.

Lemma requests_of_none {A} (m : Async A) (sent : list Request) :
  snd (m sent) = sent -> requests_of m sent = [].
Proof. unfold requests_of. intros ->. apply drop_all. Qed.

Lemma requests_of_one {A} (m : Async A) (sent : list Request) (rq : Request) :
  snd (m sent) = (sent ++ [rq])%list -> requests_of m sent = [rq].
Proof. unfold requests_of. intros ->. apply drop_app_length. Qed.

(** An operation [op] made of one [request] and a continuation [k] that
    sends nothing, so that it amounts to a function [f] of the response: its
    result and its requests. *)
Lemma single_request {A} (op : Async A) (method path : string) (body : option string)
    (headers : option (gmap string string)) (k : Response -> Async A)
    (f : Response -> result A) (sent : list Request) :
  op = bind (request this server method path body headers) k ->
  (forall response sent', k response sent' = (f response, sent')) ->
  match resolveRequestURL this path with
  | None => op sent = (Throw URL_TypeError, sent) /\ requests_of op sent = []
  | Some target =>
      let rq := Spec.request_for this method target body headers in
      op sent = (match server sent rq with
                 | Responded response => f response
                 | Rejected e => Throw e
                 end, (sent ++ [rq])%list)
      /\ requests_of op sent = [rq]
  end.
Proof.
  intros -> Hk.
  set (m := bind (request this server method path body headers) k).
  assert (Hrun : m sent =
    match resolveRequestURL this path with
    | None => (Throw URL_TypeError, sent)
    | Some target =>
        (match server sent (Spec.request_for this method target body headers) with
         | Responded response => f response
         | Rejected e => Throw e
         end, (sent ++ [Spec.request_for this method target body headers])%list)
    end).
  { unfold m, bind. rewrite request_run.
    destruct (resolveRequestURL this path) as [target|]; [| reflexivity].
    cbv zeta.
    destruct (server sent (Spec.request_for this method target body headers));
      [apply Hk | reflexivity]. }
  destruct (resolveRequestURL this path) as [target|]; cbv zeta;
    (split; [exact Hrun |]).
  - apply requests_of_one. now rewrite Hrun.
  - apply requests_of_none. now rewrite Hrun.
Qed.

(** The continuation of an operation sends nothing: it is [throw] or [ret]
    in every branch. *)
Ltac pure_continuation :=
  intros ? ?; unfold throw, ret;
  repeat match goal with
         | |- context [if ?b then _ else _] => destruct b
         | |- context [match ?x with _ => _ end] => destruct x
         end; reflexivity.

(** The usual continuation: a failure for a response that is not [ok], a
    value of the response otherwise. *)
Lemma checked_request {A} (op : Async A) (method path : string) (body : option string)
    (headers : option (gmap string string)) (what : string) (value : Response -> A)
    (sent : list Request) :
  op = bind (request this server method path body headers)
         (fun response =>
            if negb (ok response) then throw (failure what response)
            else ret (value response)) ->
  match resolveRequestURL this path with
  | None => op sent = (Throw URL_TypeError, sent) /\ requests_of op sent = []
  | Some target =>
      let rq := Spec.request_for this method target body headers in
      op sent = (match server sent rq with
                 | Responded response =>
                     if negb (ok response) then Throw (failure what response)
                     else Ok (value response)
                 | Rejected e => Throw e
                 end, (sent ++ [rq])%list)
      /\ requests_of op sent = [rq]
  end.
Proof.
  intros Hop.
  apply (single_request op method path body headers _
           (fun response => if negb (ok response) then Throw (failure what response)
                            else Ok (value response)) sent Hop).
  pure_continuation.
Qed.

(** A request carries the per-call headers as given. *)
Lemma request_for_header (method : string) (target : URL) (body : option string)
    (headers : gmap string string) (name value : string) :
  headers !! name = Some value ->
  Spec.header name (Spec.request_for this method target body (Some headers)) = Some value.
Proof. intros Hget. now apply buildHeaders_additional. Qed.

Lemma depthValue_default (depth : option Depth) :
  depthValue (default (DepthNumber (Number.of_Z 1)) depth)
  = match depth with Some d => depthValue d | None => "1" end.
Proof. now destruct depth. Qed.


Lemma find_none_all {A} (f : A -> bool) (l : list A) :
  (forall x, In x l -> f x = false) -> List.find f l = None.
Proof.
  induction l as [|a l IH]; intros Hall; simpl; [reflexivity |].
  rewrite (Hall a (or_introl eq_refl)). apply IH. intros x Hx. apply Hall. now right.
Qed.

(** What [stat] does with a response. *)
Lemma stat_run (path : string) (sent : list Request) :
  match resolveRequestURL this path with
  | None =>
      stat this server path sent = (Throw URL_TypeError, sent)
      /\ requests_of (stat this server path) sent = []
  | Some target =>
      let rq := Spec.request_for this "PROPFIND" target (Some propfind_body)
                  (Some {[ "Content-Type" := xml_content_type; "Depth" := "0" ]}) in
      stat this server path sent =
      (match server sent rq with
       | Responded response =>
           if negb (ok response) then Throw (failure "Failed to stat resource" response)
           else
             let stats := parseMultiStatus this (response_body response) in
             match List.find (fun stat => String.eqb (filename stat)
                                            (normalizePath this path)) stats with
             | Some found => Ok found
             | None =>
                 match stats with
                 | first :: _ => Ok first
                 | [] => Throw (Error ("Resource not found: " +:+ path))
                 end
             end
       | Rejected e => Throw e
       end, (sent ++ [rq])%list)
      /\ requests_of (stat this server path) sent = [rq]
  end.
Proof.
  apply (single_request (stat this server path) "PROPFIND" path _ _ _
           (fun response =>
              if negb (ok response) then Throw (failure "Failed to stat resource" response)
              else
                let stats := parseMultiStatus this (response_body response) in
                match List.find (fun stat => String.eqb (filename stat)
                                               (normalizePath this path)) stats with
                | Some found => Ok found
                | None =>
                    match stats with
                    | first :: _ => Ok first
                    | [] => Throw (Error ("Resource not found: " +:+ path))
                    end
                end) sent eq_refl).
  pure_continuation.
Qed.

(** C1 (amended).  For a PROPFIND response that is [ok]: when no parsed
    entry has the canonical path of the queried path, [stat] returns the
    first parsed entry; it fails with [Resource not found] exactly when the
    body parses to no entry at all.  When some entry has the canonical path
    of the queried path, the first such entry is returned. *)
Theorem stat_without_match (path : string) (sent : list Request)
    (target : URL) (response : Response) :
  resolveRequestURL this path = Some target ->
  (forall rq, server sent rq = Responded response) ->
  ok response = true ->
  let stats := parseMultiStatus this (response_body response) in
  let matches := fun s => String.eqb (filename s) (normalizePath this path) in
  ((forall s, In s stats -> filename s <> normalizePath this path) ->
   fst (stat this server path sent)
   = match stats with
     | first :: _ => Ok first
     | [] => Throw (Error ("Resource not found: " +:+ path))
     end)
  /\ (forall found, List.find matches stats = Some found ->
        fst (stat this server path sent) = Ok found).
Proof.
  intros Htarget Hserver Hok stats matches.
  pose proof (stat_run path sent) as Hrun. rewrite Htarget in Hrun.
  cbv zeta in Hrun. destruct Hrun as [Hrun _].
  rewrite Hserver, Hok in Hrun. cbn [negb] in Hrun. fold stats in Hrun. fold matches in Hrun.
  rewrite Hrun. cbn [fst]. split.
  - intros Hnone. rewrite find_none_all; [reflexivity |].
    intros s Hs. unfold matches. apply String.eqb_neq. now apply Hnone.
  - intros found Hfound. now rewrite Hfound.
Qed.

(** What [moveFile] and [copyFile] do. *)
Lemma transfer_run (method what fromPath toPath : string) (overwrite : option bool)
    (sent : list Request) :
  let op := transfer this server method what fromPath toPath overwrite in
  match resolveRequestURL this toPath with
  | None => op sent = (Throw URL_TypeError, sent) /\ requests_of op sent = []
  | Some target =>
      match resolveRequestURL this fromPath with
      | None => op sent = (Throw URL_TypeError, sent) /\ requests_of op sent = []
      | Some source =>
          let rq := Spec.request_for this method source None
                      (Some {[ "Destination" := URL_href target;
                               "Overwrite" := if default false overwrite then "T" else "F" ]}) in
          op sent = (match server sent rq with
                     | Responded response =>
                         if negb (ok response) then Throw (failure what response)
                         else Ok tt
                     | Rejected e => Throw e
                     end, (sent ++ [rq])%list)
          /\ requests_of op sent = [rq]
      end
  end.
Proof.
  intros op. destruct (resolveRequestURL this toPath) as [target|] eqn:Htarget.
  - assert (Hop : op = bind (request this server method fromPath None
                               (Some {[ "Destination" := URL_href target;
                                        "Overwrite" := if default false overwrite
                                                       then "T" else "F" ]}))
                         (fun response =>
                            if negb (ok response) then throw (failure what response)
                            else ret tt)).
    { unfold op, transfer. now rewrite Htarget. }
    exact (checked_request op method fromPath _ _ what (fun _ => tt) sent Hop).
  - assert (Hop : op = throw URL_TypeError).
    { unfold op, transfer. now rewrite Htarget. }
    rewrite Hop. split; [reflexivity | now apply requests_of_none].
Qed.


Lemma bind_pure {A B} (m : Async A) (k : A -> Async B) (g : A -> result B)
    (sent : list Request) :
  (forall a sent', k a sent' = (g a, sent')) ->
  bind m k sent
  = (match fst (m sent) with Ok a => g a | Throw e => Throw e end, snd (m sent)).
Proof.
  intros Hk. unfold bind. destruct (m sent) as [[a|e] sent']; [apply Hk | reflexivity].
Qed.

Lemma status_404_not_ok (response : Response) :
  status response = 404%Z -> ok response = false.
Proof. unfold ok. now intros ->. Qed.

(** The message of a failed [stat] on a 404 is one that [exists]
    recognises. *)
Lemma stat_404_recognised (response : Response) :
  status response = 404%Z ->
  test stat_404_expression (message (failure "Failed to stat resource" response)) = true.
Proof.
  intros Hstatus. unfold failure. rewrite Hstatus. reflexivity.
Qed.

Ltac no_request Hreq :=
  match goal with
  | Hsent : requests_of _ _ <> [] |- _ => now rewrite Hreq in Hsent
  end.

(** C5 (amended).  When the transport answers with a status outside
    200..299, every operation other than [exists], [deleteFile] and
    [getQuota] that has sent its request fails with a message that names the
    operation and carries the numeric status and the status text; [getQuota]
    returns [null] instead.  On a 404, [exists] returns [false] and
    [deleteFile] returns normally, each with exactly one request sent. *)
Theorem failure_mapping (sent : list Request) (response : Response) :
  (forall rq, server sent rq = Responded response) ->
  (ok response = false ->
     (forall path depth,
        Spec.fails_with (getDirectoryContents this server path depth) sent
          (failure "Failed to get directory contents" response))
     /\ (forall path,
           Spec.fails_with (stat this server path) sent
             (failure "Failed to stat resource" response))
     /\ (forall path,
           Spec.fails_with (getFileContents this server path) sent
             (failure "Failed to get file contents" response))
     /\ (forall path encoding,
           Spec.fails_with (getFileContentsAsText this server path encoding) sent
             (failure "Failed to get file contents" response))
     /\ (forall path data options,
           Spec.fails_with (putFileContents this server path data options) sent
             (failure "Failed to write file" response))
     /\ (forall path,
           Spec.fails_with (createDirectory this server path) sent
             (failure "Failed to create directory" response))
     /\ (forall fromPath toPath overwrite,
           Spec.fails_with (moveFile this server fromPath toPath overwrite) sent
             (failure "Failed to move resource" response))
     /\ (forall fromPath toPath overwrite,
           Spec.fails_with (copyFile this server fromPath toPath overwrite) sent
             (failure "Failed to copy resource" response))
     /\ (forall path options,
           Spec.fails_with (search this server path options) sent
             (failure "Failed to search" response))
     /\ (forall path,
           requests_of (getQuota this server path) sent <> [] ->
           fst (getQuota this server path sent) = Ok None))
  /\ (status response = 404%Z ->
        (forall path target,
           resolveRequestURL this path = Some target ->
           fst (exists_ this server path sent) = Ok false
           /\ List.length (requests_of (exists_ this server path) sent) = 1%nat)
        /\ (forall path target,
              resolveRequestURL this path = Some target ->
              fst (deleteFile this server path sent) = Ok tt
              /\ List.length (requests_of (deleteFile this server path) sent) = 1%nat)).
Proof.
  intros Hserver. split.
  - intros Hok.
    assert (Hchecked : forall A (op : Async A) method path body headers what value,
      op = bind (request this server method path body headers)
             (fun response =>
                if negb (ok response) then throw (failure what response)
                else ret (value response)) ->
      Spec.fails_with op sent (failure what response)).
    { intros A op method path body headers what value Hop Hsent.
      pose proof (checked_request op method path body headers what value sent Hop) as Hrun.
      destruct (resolveRequestURL this path) as [target|];
        destruct Hrun as [Hrun Hreq]; [| no_request Hreq].
      rewrite Hrun, Hserver, Hok. reflexivity. }
    assert (Htransfer : forall method what fromPath toPath overwrite,
      Spec.fails_with (transfer this server method what fromPath toPath overwrite) sent
        (failure what response)).
    { intros method what fromPath toPath overwrite Hsent.
      pose proof (transfer_run method what fromPath toPath overwrite sent) as Hrun.
      cbv zeta in Hrun.
      destruct (resolveRequestURL this toPath) as [target|];
        [| destruct Hrun as [_ Hreq]; no_request Hreq].
      destruct (resolveRequestURL this fromPath) as [source|];
        destruct Hrun as [Hrun Hreq]; [| no_request Hreq].
      rewrite Hrun, Hserver, Hok. reflexivity. }
    assert (Hget : forall path,
      Spec.fails_with (getFileContents this server path) sent
        (failure "Failed to get file contents" response)).
    { intros path. exact (Hchecked _ _ "GET" path None None _ response_body eq_refl). }
    repeat split.
    + intros path depth. exact (Hchecked _ _ "PROPFIND" path _ _ _ _ eq_refl).
    + intros path Hsent. pose proof (stat_run path sent) as Hrun.
      destruct (resolveRequestURL this path) as [target|];
        destruct Hrun as [Hrun Hreq]; [| no_request Hreq].
      rewrite Hrun, Hserver, Hok. reflexivity.
    + exact Hget.
    + intros path encoding Hsent.
      assert (Hrun : getFileContentsAsText this server path encoding sent
        = (match fst (getFileContents this server path sent) with
           | Ok buffer => TextDecoder_decode (default "utf-8" encoding) buffer
           | Throw e => Throw e
           end, snd (getFileContents this server path sent))).
      { unfold getFileContentsAsText. apply bind_pure. pure_continuation. }
      assert (Hsame : requests_of (getFileContentsAsText this server path encoding) sent
                      = requests_of (getFileContents this server path) sent).
      { unfold requests_of. now rewrite Hrun. }
      rewrite Hsame in Hsent. rewrite Hrun. cbn [fst]. now rewrite (Hget path Hsent).
    + intros path data options. exact (Hchecked _ _ "PUT" path data options _ (fun _ => tt) eq_refl).
    + intros path. exact (Hchecked _ _ "MKCOL" path None None _ (fun _ => tt) eq_refl).
    + intros fromPath toPath overwrite. apply Htransfer.
    + intros fromPath toPath overwrite. apply Htransfer.
    + intros path options. unfold search.
      destruct (date_clause "gt" (modifiedAfter options)) as [clauses3|e];
        [| intros Hsent; now rewrite requests_of_none in Hsent].
      destruct (date_clause "lt" (modifiedBefore options)) as [clauses4|e];
        [| intros Hsent; now rewrite requests_of_none in Hsent].
      exact (Hchecked _ _ "SEARCH" path _ _ _
               (fun response => parseMultiStatus this (response_body response)) eq_refl).
    + intros path Hsent.
      pose proof (single_request (getQuota this server path) "PROPFIND" (default "/" path) _ _ _
                    (fun response =>
                       if negb (ok response) then Ok None
                       else Ok (quota_loop (getAllTagContents (response_body response) "propstat")))
                    sent eq_refl) as Hrun.
      destruct (resolveRequestURL this (default "/" path)) as [target|];
        (destruct Hrun as [Hrun Hreq]; [pure_continuation |]); [| no_request Hreq].
      rewrite Hrun, Hserver, Hok. reflexivity.
  - intros Hstatus. pose proof (status_404_not_ok _ Hstatus) as Hok. split.
    + intros path target Htarget.
      pose proof (stat_run path sent) as Hrun. rewrite Htarget in Hrun.
      cbv zeta in Hrun. destruct Hrun as [Hrun _].
      rewrite Hserver, Hok in Hrun. cbn [negb] in Hrun.
      assert (Hexists : exists rq,
        exists_ this server path sent = (Ok false, (sent ++ [rq])%list)).
      { eexists. unfold exists_, try_catch, bind. rewrite Hrun.
        cbn [is_Error failure Error andb].
        rewrite (stat_404_recognised _ Hstatus).
        destruct (test not_found_expression _); reflexivity. }
      destruct Hexists as [rq Hexists]. split; [now rewrite Hexists |].
      rewrite (requests_of_one _ _ rq); [reflexivity | now rewrite Hexists].
    + intros path target Htarget.
      pose proof (single_request (deleteFile this server path) "DELETE" path _ _ _
                    (fun response =>
                       if (status response =? 404)%Z then Ok tt
                       else if negb (ok response)
                            then Throw (failure "Failed to delete resource" response)
                            else Ok tt) sent eq_refl) as Hrun.
      rewrite Htarget in Hrun. destruct Hrun as [Hrun Hreq]; [pure_continuation |].
      rewrite Hrun, Hreq, Hserver, Hstatus. split; reflexivity.
Qed.

End OperationProperties.

(** ** Examples on the model platform *)

Section ModelExamples.

Import Examples.

#[local] Existing Instance Whatwg.platform.

(** [createClient] on the example options. *)
Lemma client_constructed : constructor options = Ok client.
Proof. reflexivity. Qed.

Lemma client_a_constructed : constructor options_a = Ok client_a.
Proof. reflexivity. Qed.

(** The constructor's credentials, as in the test of the repository. *)
Example toBase64_user_pass : toBase64 "user:pass" = "dXNlcjpwYXNz".
Proof. vm_compute. reflexivity. Qed.

(** Without [btoa] the loop over the UTF-8 bytes gives the same. *)
Example base64_loop_user_pass : base64_loop (utf8_encode "user:pass") = "dXNlcjpwYXNz".
Proof. vm_compute. reflexivity. Qed.

(** The listing of the repository's first test: the folder itself is
    filtered out, and the request is a PROPFIND at depth 1 with the basic
    credentials. *)
Example listing_of_folder :
  let doc := multistatus [response_xml "/dav/folder/" "HTTP/1.1 200 OK" collection_props;
                          response_xml "/dav/folder/document.txt" "HTTP/1.1 200 OK"
                            (file_props "1234");
                          response_xml "/dav/folder/photos/" "HTTP/1.1 200 OK"
                            collection_props] in
  let '(outcome, sent) :=
    getDirectoryContents client (always (multi_status doc)) "/folder/" None [] in
  (match outcome with
   | Ok entries =>
       List.map (fun s => (filename s, basename s, size s, type s)) entries
       = [("/folder/document.txt", "document.txt", 1234%Z, file);
          ("/folder/photos", "photos", 0%Z, directory)]
   | Throw _ => False
   end)
  /\ List.map (fun rq => (url rq, method rq, Spec.header "Depth" rq,
                         Spec.header "Authorization" rq)) sent
     = [("https://example.com/dav/folder/", "PROPFIND", Some "1",
         Some "Basic dXNlcjpwYXNz")].
Proof. vm_compute. split; reflexivity. Qed.

(** The other tests of the repository: [exists] on a 404 and on a 500,
    [deleteFile] on a 404, and a move with the overwrite flag. *)
Example exists_on_missing :
  fst (exists_ client (always not_found) "missing.txt" []) = Ok false.
Proof. vm_compute. reflexivity. Qed.

Example exists_on_server_error :
  fst (exists_ client (always server_error) "broken.txt" [])
  = Throw (Error "Failed to stat resource: 500 Server Error").
Proof. vm_compute. reflexivity. Qed.

Example delete_on_missing :
  let '(outcome, sent) := deleteFile client (always not_found) "missing.txt" [] in
  outcome = Ok tt /\ List.map (fun rq => (method rq, url rq)) sent
                     = [("DELETE", "https://example.com/dav/missing.txt")].
Proof. vm_compute. split; reflexivity. Qed.

Example move_with_overwrite :
  let '(outcome, sent) :=
    moveFile client (always created) "old.txt" "archive/new.txt" (Some true) [] in
  outcome = Ok tt
  /\ List.map (fun rq => (method rq, url rq, Spec.header "Destination" rq,
                          Spec.header "Overwrite" rq)) sent
     = [("MOVE", "https://example.com/dav/old.txt",
         Some "https://example.com/dav/archive/new.txt", Some "T")].
Proof. vm_compute. split; reflexivity. Qed.

(** C1, counterexample.  The body parses to one entry, [/b.txt]; the
    queried path canonicalises to [/a.txt], which no entry has; [stat]
    returns the entry [/b.txt] and does not fail. *)
Lemma stat_returns_other_entry :
  normalizePath client "a.txt" = "/a.txt"
  /\ parseMultiStatus client doc_b = [stat_b]
  /\ stat client (always (multi_status doc_b)) "a.txt" []
     = (Ok stat_b,
        [Spec.request_for client "PROPFIND" (url_of ["dav"; "a.txt"])
           (Some propfind_body)
           (Some {[ "Content-Type" := xml_content_type; "Depth" := "0" ]})]).
Proof. vm_compute. repeat split; reflexivity. Qed.

(** C1, the amended statement at the same input. *)
Lemma stat_without_match_witness :
  fst (stat client (always (multi_status doc_b)) "a.txt" []) = Ok stat_b.
Proof.
  assert (Hstats : parseMultiStatus client doc_b = [stat_b]) by (vm_compute; reflexivity).
  pose proof (stat_without_match client (always (multi_status doc_b)) "a.txt" []
                (url_of ["dav"; "a.txt"]) (multi_status doc_b)
                eq_refl (fun _ => eq_refl) eq_refl) as Hstat.
  cbv zeta in Hstat. cbn [response_body multi_status] in Hstat.
  rewrite Hstats in Hstat. destruct Hstat as [Hnone _].
  apply Hnone. intros s [<- | []]. vm_compute. discriminate.
Defined.

(** C2, counterexample.  With the base [https://example.com/dav] the
    input [dav/x] canonicalises to [/dav/x], and [/dav/x] to [/x]: the
    canonical path lies below the base path and loses it again.  With the base
    [https://example.com/a] the inputs [a/b/] and [/a/b/] canonicalise to
    [/a/b] and [/b]. *)
Lemma normalizePath_not_idempotent :
  normalizePath client "dav/x" = "/dav/x"
  /\ normalizePath client (normalizePath client "dav/x") = "/x"
  /\ constructor options_a = Ok client_a
  /\ normalizePath client_a "a/b/" = "/a/b"
  /\ normalizePath client_a "/a/b/" = "/b".
Proof.
  split; [vm_compute; reflexivity |]. split; [vm_compute; reflexivity |].
  split; [exact client_a_constructed |]. split; vm_compute; reflexivity.
Qed.

(** C2, the amended statement for the base [https://example.com/dav]. *)
Lemma normalizePath_idempotent_witness :
  normalizePath client (normalizePath client "a/b/") = normalizePath client "a/b/"
  /\ normalizePath client "a/b/" = "/a/b"
  /\ normalizePath client "/a/b/" = "/a/b"
  /\ normalizePath client "https://example.com/dav/a/b/" = "/a/b".
Proof.
  destruct (normalizePath_idempotent_off_base client) as [Hidem Hsame]. split.
  - apply Hidem.
    + intros u Hu. vm_compute in Hu. injection Hu as <-. vm_compute. reflexivity.
    + right. split; [vm_compute; discriminate | vm_compute; reflexivity].
  - refine (Hsame options "https://example.com/dav/a/b/" _ _ _
              client_constructed _ _ eq_refl _ eq_refl _ eq_refl _);
      try (vm_compute; discriminate); vm_compute; reflexivity.
Defined.

(** C3, counterexample.  A [getcontentlength] of [-5] gives the size -5,
    which is negative, and one of [12abc], which is no numeric string, gives
    the size 12, which is not 0. *)
Lemma size_negative_or_prefix :
  List.map (fun s => (filename s, size s)) (parseMultiStatus client doc_sizes)
  = [("/b.txt", (-5)%Z); ("/c.txt", 12%Z)].
Proof. vm_compute. reflexivity. Qed.

(** C3, the amended statement at the entry of [doc_b]. *)
Lemma parsed_stat_size_witness :
  In stat_b (parseMultiStatus client doc_b)
  /\ exists href prop,
       stat_b = make_stat client href prop
       /\ size stat_b = safeParseInteger (or_else (getTagContent prop "getcontentlength") "0").
Proof.
  assert (Hin : In stat_b (parseMultiStatus client doc_b)) by (vm_compute; now left).
  split; [exact Hin |].
  destruct (parsed_stat_size client doc_b stat_b Hin) as (href & prop & Heq & Hsize & _).
  exists href, prop. split; [exact Heq | exact Hsize].
Defined.



(** C5, counterexample.  On a 500 response [getQuota] returns [null]; it
    does not fail. *)
Lemma getQuota_null_on_failure :
  ok server_error = false
  /\ getQuota client (always server_error) None []
     = (Ok None,
        [Spec.request_for client "PROPFIND" base_url (Some quota_body)
           (Some {[ "Content-Type" := xml_content_type; "Depth" := "0" ]})]).
Proof. vm_compute. split; reflexivity. Qed.

(** C5, the amended statement on a 500 and on a 404. *)
Lemma failure_mapping_witness :
  fst (createDirectory client (always server_error) "archive" [])
  = Throw (Error "Failed to create directory: 500 Server Error")
  /\ fst (getQuota client (always server_error) None []) = Ok None
  /\ fst (exists_ client (always not_found) "missing.txt" []) = Ok false
  /\ fst (deleteFile client (always not_found) "missing.txt" []) = Ok tt
  /\ List.length (requests_of (deleteFile client (always not_found) "missing.txt") []) = 1%nat.
Proof.
  destruct (failure_mapping client (always server_error) [] server_error
              (fun _ => eq_refl)) as [Hfail _].
  destruct (Hfail eq_refl) as (_ & _ & _ & _ & _ & Hmkcol & _ & _ & _ & Hquota).
  destruct (failure_mapping client (always not_found) [] not_found
              (fun _ => eq_refl)) as [_ Hmissing].
  destruct (Hmissing eq_refl) as [Hexists Hdelete].
  split; [apply Hmkcol; vm_compute; discriminate |].
  split; [apply Hquota; vm_compute; discriminate |].
  split; [exact (proj1 (Hexists "missing.txt" _ eq_refl)) |].
  exact (Hdelete "missing.txt" _ eq_refl).
Defined.

(** C6, counterexample.  The only [propstat] of the response has a
    [status] element that is present and empty: it neither is absent nor
    contains [" 200 "], and the parser emits a record for the response all
    the same. *)
Lemma empty_status_selected :
  parseMultiStatus client doc_empty_status = [stat_b]
  /\ Spec.records client Spec.status_absent_or_200 doc_empty_status = []
  /\ List.map (fun propstat => findTag propstat "status")
       (getAllTagContents (response_xml "/dav/b.txt" "" (file_props "7")) "propstat")
     = [Some ""].
Proof. vm_compute. repeat split; reflexivity. Qed.




(** C9 at an input the URL parser rejects: [//] has an empty host. *)
Lemma normalizePath_total_witness :
  resolveURL client "//" = None
  /\ normalizePath client "//" = "/"
  /\ Spec.canonical (normalizePath client "//").
Proof.
  destruct (normalizePath_total client "//") as [Hcanonical Hfallback].
  split; [reflexivity |]. split; [| exact Hcanonical].
  rewrite Hfallback; reflexivity.
Defined.

(** C10 for the example client and a caller's lower-case header. *)
Lemma buildHeaders_authorization_witness :
  buildHeaders client (Some {[ "authorization" := "Bearer t" ]}) !! "Authorization"
  = Some "Basic dXNlcjpwYXNz"
  /\ buildHeaders client (Some {[ "Authorization" := "Bearer t" ]}) !! "Authorization"
     = Some "Bearer t".
Proof.
  split.
  - destruct (buildHeaders_authorization client options
                (Some {[ "authorization" := "Bearer t" ]}) client_constructed)
      as (_ & _ & Hcase & _).
    exact (proj1 (Hcase "user" "pass" "Bearer t" eq_refl eq_refl eq_refl)).
  - destruct (buildHeaders_authorization client options
                (Some {[ "Authorization" := "Bearer t" ]}) client_constructed)
      as (_ & _ & _ & Hoverride).
    apply Hoverride. reflexivity.
Defined.

End ModelExamples.

(** ** Properties of the other functions *)

(** *** One round trip, and what a rejected request becomes *)

Section RoundTripProperties.
Context `{Platform}.
Variable this : WebDAVClient.
Variable server : Server.

Ltac quiet_continuation :=
  intros ? ?; unfold throw, ret;
  repeat match goal with
         | |- context [if ?b then _ else _] => destruct b
         | |- context [match ?x with _ => _ end] => destruct x
         end; reflexivity.

Lemma snd_bind_quiet {A B} (m : Async A) (k : A -> Async B) (sent : list Request) :
  Laws.quiet k -> snd (bind m k sent) = snd (m sent).
Proof.
  intros Hk. unfold bind. destruct (m sent) as [[a|e] sent']; [apply Hk | reflexivity].
Qed.

Lemma round_trip_request (method path : string) (body : option string)
    (headers : option (gmap string string)) (sent : list Request) :
  Laws.round_trip (request this server method path body headers) sent.
Proof.
  unfold Laws.round_trip. rewrite request_run.
  destruct (resolveRequestURL this path) as [target|]; [right | left]; cbn; eauto.
Qed.

Lemma round_trip_bind {A B} (m : Async A) (k : A -> Async B) (sent : list Request) :
  Laws.quiet k -> Laws.round_trip m sent -> Laws.round_trip (bind m k) sent.
Proof.
  intros Hk [[Hsame [e He]] | [rq Hrq]]; unfold Laws.round_trip.
  - left. rewrite (snd_bind_quiet _ _ _ Hk). split; [exact Hsame |].
    exists e. unfold bind. destruct (m sent) as [[a|e'] sent']; [discriminate He |].
    cbn [fst] in *. now injection He as ->.
  - right. exists rq. now rewrite (snd_bind_quiet _ _ _ Hk).
Qed.

Lemma round_trip_throw {A} (e : Thrown) (sent : list Request) :
  Laws.round_trip (@throw A e) sent.
Proof. left. split; [reflexivity | now exists e]. Qed.

Ltac round_trip_step :=
  first [ apply round_trip_request
        | apply round_trip_throw
        | apply round_trip_bind; [quiet_continuation |] ].

(** X1.  No operation retries or pipelines: each of them either fails
    before anything is sent, or sends exactly one request, appended to the
    requests sent before.  [exists], which may turn a failure into [false],
    sends one request at most. *)
Theorem single_round_trip (sent : list Request) :
  Laws.every_operation this server (fun A op => Laws.round_trip op sent)
  /\ (forall path, exists requests,
        snd (exists_ this server path sent) = (sent ++ requests)%list
        /\ (List.length requests <= 1)%nat).
Proof.
  split.
  - unfold Laws.every_operation. repeat split; intros.
    + unfold getDirectoryContents. repeat round_trip_step.
    + unfold stat. repeat round_trip_step.
    + unfold getFileContents. repeat round_trip_step.
    + unfold getFileContentsAsText, getFileContents. repeat round_trip_step.
    + unfold putFileContents. repeat round_trip_step.
    + unfold createDirectory. repeat round_trip_step.
    + unfold deleteFile. repeat round_trip_step.
    + unfold moveFile, transfer.
      destruct (resolveRequestURL this toPath); repeat round_trip_step.
    + unfold copyFile, transfer.
      destruct (resolveRequestURL this toPath); repeat round_trip_step.
    + unfold getQuota. repeat round_trip_step.
    + unfold search.
      destruct (date_clause "gt" (modifiedAfter options)); [| round_trip_step].
      destruct (date_clause "lt" (modifiedBefore options)); repeat round_trip_step.
  - intros path.
    assert (Hstat : Laws.round_trip (stat this server path) sent).
    { unfold stat. repeat round_trip_step. }
    assert (Hsnd : snd (exists_ this server path sent) = snd (stat this server path sent)).
    { unfold exists_, try_catch, bind.
      destruct (stat this server path sent) as [[found|e] sent']; [reflexivity |].
      cbn [snd]. unfold ret, throw.
      repeat match goal with
             | |- context [if ?b then _ else _] => destruct b
             end; reflexivity. }
    rewrite Hsnd. destruct Hstat as [[Hsame _] | [rq Hrq]].
    + exists []. rewrite Hsame, app_nil_r. split; [reflexivity | simpl; lia].
    + exists [rq]. split; [exact Hrq | simpl; lia].
Qed.

Lemma requests_of_bind_quiet {A B} (m : Async A) (k : A -> Async B) (sent : list Request) :
  Laws.quiet k -> requests_of (bind m k) sent = requests_of m sent.
Proof. intros Hk. unfold requests_of. now rewrite (snd_bind_quiet _ _ _ Hk). Qed.

Lemma fails_with_bind {A B} (m : Async A) (k : A -> Async B) (sent : list Request)
    (e : Thrown) :
  Laws.quiet k -> Spec.fails_with m sent e -> Spec.fails_with (bind m k) sent e.
Proof.
  intros Hk Hm Hsent. rewrite (requests_of_bind_quiet _ _ _ Hk) in Hsent.
  specialize (Hm Hsent). unfold bind.
  destruct (m sent) as [[a|e'] sent']; [discriminate Hm |].
  cbn [fst] in *. now injection Hm as ->.
Qed.

Lemma fails_with_throw {A} (e' e : Thrown) (sent : list Request) :
  Spec.fails_with (@throw A e') sent e.
Proof. intros Hsent. exfalso. apply Hsent. unfold requests_of. apply drop_all. Qed.

Lemma fails_with_request (method path : string) (body : option string)
    (headers : option (gmap string string)) (sent : list Request) (e : Thrown) :
  (forall rq, server sent rq = Rejected e) ->
  Spec.fails_with (request this server method path body headers) sent e.
Proof.
  intros Hserver Hsent. unfold requests_of in Hsent. rewrite request_run in *.
  destruct (resolveRequestURL this path) as [target|].
  - cbv zeta. now rewrite Hserver.
  - exfalso. apply Hsent. apply drop_all.
Qed.

(** X2.  A request the transport rejects fails the operation with the
    transport's own error, unchanged, for every operation (none retries and
    none hides it; [getQuota] does not answer [null]).  [exists] rethrows it
    too, unless the error is an [Error] whose message one of its two
    patterns recognises. *)
Theorem transport_failure_surfaces (sent : list Request) (e : Thrown) :
  (forall rq, server sent rq = Rejected e) ->
  Laws.every_operation this server (fun A op => Spec.fails_with op sent e)
  /\ (forall path,
        requests_of (exists_ this server path) sent <> [] ->
        is_Error e = false
        \/ (test not_found_expression (message e) = false
            /\ test stat_404_expression (message e) = false) ->
        fst (exists_ this server path sent) = Throw e).
Proof.
  intros Hserver.
  assert (Hrequest := fun method path body headers =>
            fails_with_request method path body headers sent e Hserver).
  assert (Hstat : forall path, Spec.fails_with (stat this server path) sent e).
  { intros path. unfold stat. apply fails_with_bind; [quiet_continuation | apply Hrequest]. }
  split.
  - unfold Laws.every_operation. repeat split; intros.
    + unfold getDirectoryContents.
      apply fails_with_bind; [quiet_continuation | apply Hrequest].
    + apply Hstat.
    + unfold getFileContents.
      apply fails_with_bind; [quiet_continuation | apply Hrequest].
    + unfold getFileContentsAsText, getFileContents.
      apply fails_with_bind; [quiet_continuation |].
      apply fails_with_bind; [quiet_continuation | apply Hrequest].
    + unfold putFileContents.
      apply fails_with_bind; [quiet_continuation | apply Hrequest].
    + unfold createDirectory.
      apply fails_with_bind; [quiet_continuation | apply Hrequest].
    + unfold deleteFile.
      apply fails_with_bind; [quiet_continuation | apply Hrequest].
    + unfold moveFile, transfer.
      destruct (resolveRequestURL this toPath); [| apply fails_with_throw].
      apply fails_with_bind; [quiet_continuation | apply Hrequest].
    + unfold copyFile, transfer.
      destruct (resolveRequestURL this toPath); [| apply fails_with_throw].
      apply fails_with_bind; [quiet_continuation | apply Hrequest].
    + unfold getQuota.
      apply fails_with_bind; [quiet_continuation | apply Hrequest].
    + unfold search.
      destruct (date_clause "gt" (modifiedAfter options)); [| apply fails_with_throw].
      destruct (date_clause "lt" (modifiedBefore options)); [| apply fails_with_throw].
      apply fails_with_bind; [quiet_continuation | apply Hrequest].
  - intros path Hsent Hunknown.
    assert (Hsame : requests_of (exists_ this server path) sent
                    = requests_of (stat this server path) sent).
    { unfold requests_of, exists_, try_catch, bind.
      destruct (stat this server path sent) as [[found|e'] sent']; [reflexivity |].
      cbn [snd]. unfold ret, throw.
      repeat match goal with
             | |- context [if ?b then _ else _] => destruct b
             end; reflexivity. }
    rewrite Hsame in Hsent. specialize (Hstat path Hsent).
    unfold exists_, try_catch, bind.
    destruct (stat this server path sent) as [[found|e'] sent']; [discriminate Hstat |].
    cbn [fst] in Hstat. injection Hstat as ->.
    destruct Hunknown as [Hno | [Hnf H404]].
    + rewrite Hno. reflexivity.
    + rewrite Hnf, H404. now rewrite !andb_false_r.
Qed.

End RoundTripProperties.

(** *** What the operations return *)

Lemma omap_length_le {A B} (f : A -> option B) (l : list A) :
  (List.length (omap f l) <= List.length l)%nat.
Proof.
  induction l as [|a l IH]; [reflexivity |]. csimpl.
  destruct (f a); simpl; lia.
Qed.

Section OutcomeProperties.
Context `{Platform}.
Variable this : WebDAVClient.
Variable server : Server.

Ltac pure_k :=
  intros ? ?; unfold throw, ret;
  repeat match goal with
         | |- context [if ?b then _ else _] => destruct b
         | |- context [match ?x with _ => _ end] => destruct x
         end; reflexivity.

(** An operation of one request whose continuation amounts to [f]: once
    it has sent its request, its result is [f] of the response. *)
Lemma ends_with_single {A} (op : Async A) (method path : string) (body : option string)
    (headers : option (gmap string string)) (k : Response -> Async A)
    (f : Response -> result A) (sent : list Request) (response : Response) :
  op = bind (request this server method path body headers) k ->
  (forall response sent', k response sent' = (f response, sent')) ->
  (forall rq, server sent rq = Responded response) ->
  Laws.ends_with op sent (f response).
Proof.
  intros Hop Hk Hserver Hsent.
  pose proof (single_request this server op method path body headers k f sent Hop Hk) as Hrun.
  destruct (resolveRequestURL this path) as [target|]; destruct Hrun as [Hrun Hreq].
  - rewrite Hrun, Hserver. reflexivity.
  - now rewrite Hreq in Hsent.
Qed.

Lemma transfer_ends (method what fromPath toPath : string) (overwrite : option bool)
    (sent : list Request) (response : Response) :
  (forall rq, server sent rq = Responded response) ->
  Laws.ends_with (transfer this server method what fromPath toPath overwrite) sent
    (if negb (ok response) then Throw (failure what response) else Ok tt).
Proof.
  intros Hserver Hsent.
  pose proof (transfer_run this server method what fromPath toPath overwrite sent) as Hrun.
  cbv zeta in Hrun.
  destruct (resolveRequestURL this toPath) as [target|];
    [| destruct Hrun as [_ Hreq]; now rewrite Hreq in Hsent].
  destruct (resolveRequestURL this fromPath) as [source|];
    destruct Hrun as [Hrun Hreq]; [| now rewrite Hreq in Hsent].
  rewrite Hrun, Hserver. reflexivity.
Qed.

(** X3.  On a response with a status in 200..299, an operation that has
    sent its request returns: the body unchanged ([getFileContents]), the
    body decoded with the given encoding or UTF-8 ([getFileContentsAsText]),
    nothing ([putFileContents], [createDirectory], [deleteFile], [moveFile],
    [copyFile]), and every parsed entry, the search root included
    ([search], which unlike a listing filters nothing out). *)
Theorem success_mapping (sent : list Request) (response : Response) :
  (forall rq, server sent rq = Responded response) ->
  ok response = true ->
  (forall path,
     Laws.ends_with (getFileContents this server path) sent (Ok (response_body response)))
  /\ (forall path encoding,
        Laws.ends_with (getFileContentsAsText this server path encoding) sent
          (TextDecoder_decode (default "utf-8" encoding) (response_body response)))
  /\ (forall path data options,
        Laws.ends_with (putFileContents this server path data options) sent (Ok tt))
  /\ (forall path, Laws.ends_with (createDirectory this server path) sent (Ok tt))
  /\ (forall path, Laws.ends_with (deleteFile this server path) sent (Ok tt))
  /\ (forall fromPath toPath overwrite,
        Laws.ends_with (moveFile this server fromPath toPath overwrite) sent (Ok tt))
  /\ (forall fromPath toPath overwrite,
        Laws.ends_with (copyFile this server fromPath toPath overwrite) sent (Ok tt))
  /\ (forall path options,
        Laws.ends_with (search this server path options) sent
          (Ok (parseMultiStatus this (response_body response)))).
Proof.
  intros Hserver Hok.
  assert (Hchecked : forall A (op : Async A) method path body headers what value,
    op = bind (request this server method path body headers)
           (fun response =>
              if negb (ok response) then throw (failure what response)
              else ret (value response)) ->
    Laws.ends_with op sent (Ok (value response))).
  { intros A op method path body headers what value Hop Hsent.
    rewrite (ends_with_single op method path body headers _
               (fun r => if negb (ok r) then Throw (failure what r) else Ok (value r))
               sent response Hop); [now rewrite Hok | pure_k | exact Hserver | exact Hsent]. }
  assert (Hget : forall path,
    Laws.ends_with (getFileContents this server path) sent (Ok (response_body response))).
  { intros path. exact (Hchecked _ _ "GET" path None None _ response_body eq_refl). }
  assert (Htransfer : forall method what fromPath toPath overwrite,
    Laws.ends_with (transfer this server method what fromPath toPath overwrite) sent (Ok tt)).
  { intros method what fromPath toPath overwrite Hsent.
    rewrite (transfer_ends method what fromPath toPath overwrite sent response Hserver Hsent).
    now rewrite Hok. }
  repeat split.
  - exact Hget.
  - intros path encoding Hsent.
    assert (Hrun : getFileContentsAsText this server path encoding sent
      = (match fst (getFileContents this server path sent) with
         | Ok buffer => TextDecoder_decode (default "utf-8" encoding) buffer
         | Throw e => Throw e
         end, snd (getFileContents this server path sent))).
    { unfold getFileContentsAsText. apply bind_pure. pure_k. }
    assert (Hsame : requests_of (getFileContentsAsText this server path encoding) sent
                    = requests_of (getFileContents this server path) sent).
    { unfold requests_of. now rewrite Hrun. }
    rewrite Hsame in Hsent. rewrite Hrun. cbn [fst]. now rewrite (Hget path Hsent).
  - intros path data options.
    exact (Hchecked _ _ "PUT" path data options _ (fun _ => tt) eq_refl).
  - intros path. exact (Hchecked _ _ "MKCOL" path None None _ (fun _ => tt) eq_refl).
  - intros path Hsent.
    rewrite (ends_with_single (deleteFile this server path) "DELETE" path None None _
               (fun r => if (status r =? 404)%Z then Ok tt
                         else if negb (ok r)
                              then Throw (failure "Failed to delete resource" r)
                              else Ok tt)
               sent response eq_refl); [| pure_k | exact Hserver | exact Hsent].
    rewrite Hok. now destruct (status response =? 404)%Z.
  - intros fromPath toPath overwrite. apply Htransfer.
  - intros fromPath toPath overwrite. apply Htransfer.
  - intros path options. unfold search.
    destruct (date_clause "gt" (modifiedAfter options)) as [clauses3|e];
      [| intros Hsent; exfalso; apply Hsent; apply drop_all].
    destruct (date_clause "lt" (modifiedBefore options)) as [clauses4|e];
      [| intros Hsent; exfalso; apply Hsent; apply drop_all].
    exact (Hchecked _ _ "SEARCH" path _ _ _
             (fun response => parseMultiStatus this (response_body response)) eq_refl).
Qed.

(** X4.  [deleteFile], once its request is sent, returns normally exactly
    when the status is 404 or in 200..299, and otherwise fails with the
    status and status text in the message. *)
Theorem deleteFile_outcome (path : string) (sent : list Request) (response : Response) :
  (forall rq, server sent rq = Responded response) ->
  requests_of (deleteFile this server path) sent <> [] ->
  fst (deleteFile this server path sent)
  = if (status response =? 404)%Z || ok response then Ok tt
    else Throw (failure "Failed to delete resource" response).
Proof.
  intros Hserver Hsent.
  rewrite (ends_with_single (deleteFile this server path) "DELETE" path None None _
             (fun r => if (status r =? 404)%Z then Ok tt
                       else if negb (ok r)
                            then Throw (failure "Failed to delete resource" r)
                            else Ok tt)
             sent response eq_refl); [| pure_k | exact Hserver | exact Hsent].
  destruct (status response =? 404)%Z; [reflexivity |].
  now destruct (ok response).
Qed.

(** X5.  A listing, on a response with a status in 200..299, returns the
    parsed entries in their order without those whose canonical path is the
    canonical path of the listed directory: an entry is listed exactly when
    it was parsed and its path is not the queried one. *)
Theorem listing_excludes_target (path : string) (depth : option Depth)
    (sent : list Request) (response : Response) :
  (forall rq, server sent rq = Responded response) ->
  ok response = true ->
  requests_of (getDirectoryContents this server path depth) sent <> [] ->
  exists entries,
    fst (getDirectoryContents this server path depth sent) = Ok entries
    /\ entries
       = List.filter (fun s => negb (String.eqb (filename s) (normalizePath this path)))
           (parseMultiStatus this (response_body response))
    /\ (forall s, In s entries <->
          In s (parseMultiStatus this (response_body response))
          /\ filename s <> normalizePath this path)
    /\ (List.length entries
        <= List.length (getAllTagContents (response_body response) "response"))%nat.
Proof.
  intros Hserver Hok Hsent.
  eexists. split; [| split; [reflexivity | split]].
  - rewrite (ends_with_single (getDirectoryContents this server path depth)
               "PROPFIND" path _ _ _
               (fun r =>
                  if negb (ok r) then Throw (failure "Failed to get directory contents" r)
                  else Ok (List.filter
                             (fun s => negb (String.eqb (filename s)
                                               (normalizePath this path)))
                             (parseMultiStatus this (response_body r))))
               sent response eq_refl); [| pure_k | exact Hserver | exact Hsent].
    now rewrite Hok.
  - intros s. rewrite filter_In. rewrite negb_true_iff, String.eqb_neq. reflexivity.
  - etransitivity; [apply filter_length_le |].
    rewrite parseMultiStatus_omap. apply omap_length_le.
Qed.

End OutcomeProperties.

(** *** [exists], the requests, the quota *)

Lemma test_cons (re : RegExp) (c : ascii) (s : string) :
  test re s = true -> test re (String c s) = true.
Proof.
  unfold test. cbn [Regex.search]. destruct (Regex.search re s); [| discriminate].
  intros _. now destruct (match_here re (String c s)).
Qed.

(** A text that matches still matches with any text before it. *)
Lemma test_append_l (re : RegExp) (p s : string) :
  test re s = true -> test re (p +:+ s) = true.
Proof.
  intros Hs. induction p as [|c p IH]; [exact Hs |].
  simpl. now apply test_cons.
Qed.

(** The message [stat] throws for an empty listing is one that [exists]
    recognises, whatever the path. *)
Lemma not_found_message_recognised (path : string) :
  test not_found_expression ("Resource not found: " +:+ path) = true.
Proof. cbn [String.append]. vm_compute. reflexivity. Qed.

Section ExistsAndRequests.
Context `{Platform}.
Variable this : WebDAVClient.
Variable server : Server.

Ltac quiet_k :=
  intros ? ?; unfold throw, ret;
  repeat match goal with
         | |- context [if ?b then _ else _] => destruct b
         | |- context [match ?x with _ => _ end] => destruct x
         end; reflexivity.

(** X6.  [exists], for a path that resolves and a response of the server:
    on a status in 200..299 it is [true] when the body parses to at least one
    entry and [false] when it parses to none; on any other status it is
    [false] when the message of the failed [stat] matches one of the two
    patterns, which it does for a 404 and also for any status whose status text
    contains "resource not found" in any letter case, and otherwise it fails
    with the failure of [stat]. *)
Theorem exists_outcome (path : string) (sent : list Request) (target : URL)
    (response : Response) :
  resolveRequestURL this path = Some target ->
  (forall rq, server sent rq = Responded response) ->
  let failed := failure "Failed to stat resource" response in
  fst (exists_ this server path sent)
  = (if ok response then
       Ok (match parseMultiStatus this (response_body response) with
           | [] => false
           | _ :: _ => true
           end)
     else if test not_found_expression (message failed)
             || test stat_404_expression (message failed)
     then Ok false
     else Throw failed)
  /\ (ok response = false ->
      status response = 404%Z \/ test not_found_expression (statusText response) = true ->
      fst (exists_ this server path sent) = Ok false).
Proof.
  intros Htarget Hserver failed. subst failed.
  pose proof (stat_run this server path sent) as Hrun. rewrite Htarget in Hrun.
  cbv zeta in Hrun. destruct Hrun as [Hrun _]. rewrite Hserver in Hrun.
  assert (Hmain : fst (exists_ this server path sent)
    = (if ok response then
         Ok (match parseMultiStatus this (response_body response) with
             | [] => false
             | _ :: _ => true
             end)
       else if test not_found_expression
                 (message (failure "Failed to stat resource" response))
               || test stat_404_expression
                    (message (failure "Failed to stat resource" response))
       then Ok false
       else Throw (failure "Failed to stat resource" response))).
  { unfold exists_, try_catch, bind. rewrite Hrun.
    destruct (ok response); cbn [negb].
    - destruct (List.find _ (parseMultiStatus this (response_body response)))
        as [found|] eqn:Hfind.
      + apply find_some in Hfind. destruct Hfind as [Hin _].
        destruct (parseMultiStatus this (response_body response)); [destruct Hin |].
        reflexivity.
      + destruct (parseMultiStatus this (response_body response)); [| reflexivity].
        cbn [is_Error Error message andb].
        now rewrite not_found_message_recognised.
    - cbn [is_Error failure Error andb].
      destruct (test not_found_expression _); [reflexivity |].
      destruct (test stat_404_expression _); reflexivity. }
  split; [exact Hmain |].
  intros Hok Hcase. rewrite Hmain, Hok.
  destruct Hcase as [H404 | Htext].
  - rewrite (stat_404_recognised _ H404). now rewrite orb_true_r.
  - replace (test not_found_expression
               (message (failure "Failed to stat resource" response)))
      with true; [reflexivity |].
    symmetry. unfold failure, Error. cbn [message].
    now do 4 apply test_append_l.
Qed.

Lemma requests_of_request (method path : string) (body : option string)
    (headers : option (gmap string string)) (sent : list Request) :
  requests_of (request this server method path body headers) sent
  = match resolveRequestURL this path with
    | Some target => [Spec.request_for this method target body headers]
    | None => []
    end.
Proof.
  unfold requests_of. rewrite request_run.
  destruct (resolveRequestURL this path); [apply drop_app_length | apply drop_all].
Qed.

Lemma sends_request (method path : string) (body : option string)
    (headers : option (gmap string string)) (sent : list Request) :
  Laws.sends this (request this server method path body headers) sent
    method path body headers.
Proof.
  intros rq Hin. rewrite requests_of_request in Hin.
  destruct (resolveRequestURL this path) as [target|]; [| destruct Hin].
  destruct Hin as [<- | []]. now exists target.
Qed.

Lemma sends_bind {A B} (m : Async A) (k : A -> Async B) (sent : list Request)
    (method path : string) (body : option string)
    (headers : option (gmap string string)) :
  Laws.quiet k ->
  Laws.sends this m sent method path body headers ->
  Laws.sends this (bind m k) sent method path body headers.
Proof.
  intros Hk Hm rq Hin. rewrite (requests_of_bind_quiet _ _ _ Hk) in Hin. now apply Hm.
Qed.

Lemma sends_nothing {A} (e : Thrown) (sent : list Request)
    (method path : string) (body : option string)
    (headers : option (gmap string string)) :
  Laws.sends this (@throw A e) sent method path body headers.
Proof. intros rq Hin. unfold requests_of, throw in Hin. cbn in Hin.
  rewrite drop_all in Hin. destruct Hin. Qed.

Ltac sends_step :=
  first [ apply sends_request
        | apply sends_nothing
        | apply sends_bind; [quiet_k |] ].

(** X7.  What each operation puts on the wire: the method, the URL the
    path resolves to, the body and the per-call headers (over which
    [buildHeaders] lays the client's headers and the credentials).  Listing,
    [stat] and [getQuota] send a PROPFIND with their XML body and content
    type; GET, MKCOL, DELETE, MOVE and COPY carry no body; PUT carries the
    caller's data and headers as given; SEARCH carries a search request for
    some scope and clauses, with the XML content type. *)
Theorem request_shapes (sent : list Request) :
  (forall path depth,
     Laws.sends this (getDirectoryContents this server path depth) sent
       "PROPFIND" path (Some propfind_body)
       (Some {[ "Content-Type" := xml_content_type;
                "Depth" := depthValue (default (DepthNumber (Number.of_Z 1)) depth) ]}))
  /\ (forall path,
        Laws.sends this (stat this server path) sent "PROPFIND" path (Some propfind_body)
          (Some {[ "Content-Type" := xml_content_type; "Depth" := "0" ]}))
  /\ (forall path,
        Laws.sends this (getQuota this server path) sent "PROPFIND" (default "/" path)
          (Some quota_body)
          (Some {[ "Content-Type" := xml_content_type; "Depth" := "0" ]}))
  /\ (forall path,
        Laws.sends this (getFileContents this server path) sent "GET" path None None)
  /\ (forall path encoding,
        Laws.sends this (getFileContentsAsText this server path encoding) sent
          "GET" path None None)
  /\ (forall path data options,
        Laws.sends this (putFileContents this server path data options) sent
          "PUT" path data options)
  /\ (forall path,
        Laws.sends this (createDirectory this server path) sent "MKCOL" path None None)
  /\ (forall path,
        Laws.sends this (deleteFile this server path) sent "DELETE" path None None)
  /\ (forall fromPath toPath overwrite rq,
        In rq (requests_of (moveFile this server fromPath toPath overwrite) sent) ->
        WebDAV.method rq = "MOVE" /\ request_body rq = None
        /\ exists source, resolveRequestURL this fromPath = Some source
                          /\ url rq = URL_href source)
  /\ (forall fromPath toPath overwrite rq,
        In rq (requests_of (copyFile this server fromPath toPath overwrite) sent) ->
        WebDAV.method rq = "COPY" /\ request_body rq = None
        /\ exists source, resolveRequestURL this fromPath = Some source
                          /\ url rq = URL_href source)
  /\ (forall path options rq,
        In rq (requests_of (search this server path options) sent) ->
        exists target clauses,
          resolveRequestURL this path = Some target
          /\ rq = Spec.request_for this "SEARCH" target
                    (Some (search_body
                             (if String.eqb (normalizePath this path) "/" then "/"
                              else normalizePath this path +:+ "/")
                             clauses))
                    (Some {[ "Content-Type" := xml_content_type ]})).
Proof.
  assert (Htransfer : forall method what fromPath toPath overwrite rq,
    In rq (requests_of (transfer this server method what fromPath toPath overwrite) sent) ->
    WebDAV.method rq = method /\ request_body rq = None
    /\ exists source, resolveRequestURL this fromPath = Some source
                      /\ url rq = URL_href source).
  { intros method what fromPath toPath overwrite rq Hin.
    pose proof (transfer_run this server method what fromPath toPath overwrite sent) as Hrun.
    cbv zeta in Hrun.
    destruct (resolveRequestURL this toPath) as [target|];
      [| destruct Hrun as [_ Hreq]; rewrite Hreq in Hin; destruct Hin].
    destruct (resolveRequestURL this fromPath) as [source|];
      [| destruct Hrun as [_ Hreq]; rewrite Hreq in Hin; destruct Hin].
    destruct Hrun as [_ Hreq]. rewrite Hreq in Hin. destruct Hin as [<- | []].
    split; [reflexivity |]. split; [reflexivity |]. now exists source. }
  repeat split.
  - intros. unfold getDirectoryContents. repeat sends_step.
  - intros. unfold stat. repeat sends_step.
  - intros. unfold getQuota. repeat sends_step.
  - intros. unfold getFileContents. repeat sends_step.
  - intros. unfold getFileContentsAsText, getFileContents. repeat sends_step.
  - intros. unfold putFileContents. repeat sends_step.
  - intros. unfold createDirectory. repeat sends_step.
  - intros. unfold deleteFile. repeat sends_step.
  - eapply Htransfer; eassumption.
  - eapply Htransfer; eassumption.
  - eapply Htransfer; eassumption.
  - eapply Htransfer; eassumption.
  - eapply Htransfer; eassumption.
  - eapply Htransfer; eassumption.
  - intros path options rq Hin. unfold search in Hin.
    destruct (date_clause "gt" (modifiedAfter options)) as [clauses3|e];
      [| unfold requests_of, throw in Hin; cbn in Hin; rewrite drop_all in Hin;
         destruct Hin].
    destruct (date_clause "lt" (modifiedBefore options)) as [clauses4|e];
      [| unfold requests_of, throw in Hin; cbn in Hin; rewrite drop_all in Hin;
         destruct Hin].
    cbv zeta in Hin.
    rewrite requests_of_bind_quiet in Hin by quiet_k.
    rewrite requests_of_request in Hin.
    destruct (resolveRequestURL this path) as [target|]; [| destruct Hin].
    destruct Hin as [<- | []]. exists target. eexists. split; [reflexivity |].
    destruct (String.eqb (normalizePath this path) "/") eqn:Hroot; [| reflexivity].
    apply String.eqb_eq in Hroot. rewrite Hroot. reflexivity.
Qed.

Lemma quota_loop_find (propstats : list string) :
  quota_loop propstats
  = match List.find Laws.quota_complete propstats with
    | Some propstat => Some (Laws.quota_of propstat)
    | None => None
    end.
Proof.
  induction propstats as [|propstat rest IH]; [reflexivity |].
  cbn [quota_loop List.find]. unfold Laws.quota_complete at 1.
  rewrite <- status_test.
  destruct (String.eqb (getTagContent propstat "status") "");
    destruct (includes (getTagContent propstat "status") " 200 ");
    cbn [negb andb orb]; try exact IH;
    (destruct (truthy (getTagContent propstat "prop")); cbn [negb andb]; [| exact IH];
     destruct (truthy (getTagContent (getTagContent propstat "prop")
                         "quota-available-bytes")); cbn [negb andb orb]; [| exact IH];
     destruct (truthy (getTagContent (getTagContent propstat "prop")
                         "quota-used-bytes")); cbn [negb andb orb]; [reflexivity | exact IH]).
Qed.

(** X8.  [getQuota], on a response with a status in 200..299, answers
    from the first [propstat] block, in document order, that is successful,
    has a non-empty [prop] and holds both quota properties with non-empty
    content; it passes over a block that lacks one of them, and answers [null]
    when there is no such block, in particular when every block lacks one of
    the two properties. *)
Theorem getQuota_first_complete (path : option string) (sent : list Request)
    (response : Response) :
  (forall rq, server sent rq = Responded response) ->
  ok response = true ->
  requests_of (getQuota this server path) sent <> [] ->
  let propstats := getAllTagContents (response_body response) "propstat" in
  fst (getQuota this server path sent)
  = Ok (match List.find Laws.quota_complete propstats with
        | Some propstat => Some (Laws.quota_of propstat)
        | None => None
        end)
  /\ ((forall propstat, In propstat propstats ->
         getTagContent (getTagContent propstat "prop") "quota-available-bytes" = ""
         \/ getTagContent (getTagContent propstat "prop") "quota-used-bytes" = "") ->
      fst (getQuota this server path sent) = Ok None).
Proof.
  intros Hserver Hok Hsent propstats.
  assert (Hmain : fst (getQuota this server path sent)
                  = Ok (quota_loop propstats)).
  { pose proof (single_request this server (getQuota this server path) "PROPFIND"
                  (default "/" path) _ _ _
                  (fun response =>
                     if negb (ok response) then Ok None
                     else Ok (quota_loop (getAllTagContents (response_body response)
                                            "propstat")))
                  sent eq_refl) as Hrun.
    destruct (resolveRequestURL this (default "/" path)) as [target|];
      (destruct Hrun as [Hrun Hreq]; [quiet_k |]); [| now rewrite Hreq in Hsent].
    rewrite Hrun, Hserver, Hok. reflexivity. }
  rewrite Hmain, quota_loop_find. split; [reflexivity |].
  intros Hlack. rewrite find_none_all; [reflexivity |].
  intros propstat Hin. unfold Laws.quota_complete, truthy.
  destruct (Hlack propstat Hin) as [-> | ->]; cbn; now rewrite ?andb_false_r.
Qed.

End ExistsAndRequests.

(** *** Failing before anything is sent *)

Section EarlyFailures.
Context `{Platform}.
Variable this : WebDAVClient.
Variable server : Server.

Lemma request_unresolved (method path : string) (body : option string)
    (headers : option (gmap string string)) (sent : list Request) :
  resolveRequestURL this path = None ->
  request this server method path body headers sent = (Throw URL_TypeError, sent).
Proof. intros Hnone. unfold request. now rewrite Hnone. Qed.

Lemma bind_unresolved {A} (method path : string) (body : option string)
    (headers : option (gmap string string)) (k : Response -> Async A)
    (sent : list Request) :
  resolveRequestURL this path = None ->
  bind (request this server method path body headers) k sent
  = (Throw URL_TypeError, sent).
Proof. intros Hnone. unfold bind. now rewrite (request_unresolved _ _ _ _ _ Hnone). Qed.


End EarlyFailures.

(** *** [escapeXml] and [toBase64] *)

Lemma append_associative (a b c : string) : a +:+ (b +:+ c) = (a +:+ b) +:+ c.
Proof. induction a as [|x a IH]; [reflexivity |]. simpl. now rewrite IH. Qed.

Lemma append_empty_r (s : string) : s +:+ "" = s.
Proof. induction s as [|c s IH]; [reflexivity |]. simpl. now rewrite IH. Qed.

Lemma concat_map_append (f : ascii -> string) (a b : string) :
  Laws.concat_map f (a +:+ b) = Laws.concat_map f a +:+ Laws.concat_map f b.
Proof.
  induction a as [|c a IH]; [reflexivity |].
  cbn [Laws.concat_map String.append]. rewrite IH. apply append_associative.
Qed.

Lemma concat_map_ext (f g : ascii -> string) (s : string) :
  (forall c, f c = g c) -> Laws.concat_map f s = Laws.concat_map g s.
Proof.
  intros Hfg. induction s as [|c s IH]; [reflexivity |].
  cbn [Laws.concat_map]. now rewrite Hfg, IH.
Qed.

Lemma concat_map_compose (f g : ascii -> string) (s : string) :
  Laws.concat_map f (Laws.concat_map g s)
  = Laws.concat_map (fun c => Laws.concat_map f (g c)) s.
Proof.
  induction s as [|c s IH]; [reflexivity |].
  cbn [Laws.concat_map]. now rewrite concat_map_append, IH.
Qed.

(** One pass of [replace] with a global one-character expression. *)
Lemma replace_char_all_concat_map (c : ascii) (by_ s : string) :
  replace_char_all c by_ s
  = Laws.concat_map (fun a => if Ascii.eqb a c then by_ else String a "") s.
Proof.
  induction s as [|a s IH]; [reflexivity |].
  cbn [replace_char_all Laws.concat_map]. rewrite IH.
  now destruct (Ascii.eqb a c).
Qed.

Lemma has_char_append (c : ascii) (a b : string) :
  Laws.has_char c (a +:+ b) = Laws.has_char c a || Laws.has_char c b.
Proof.
  induction a as [|x a IH]; [reflexivity |].
  cbn [Laws.has_char String.append]. rewrite IH. apply orb_assoc.
Qed.

Lemma has_char_concat_map (c : ascii) (f : ascii -> string) (s : string) :
  (forall a, Laws.has_char c (f a) = false) ->
  Laws.has_char c (Laws.concat_map f s) = false.
Proof.
  intros Hf. induction s as [|a s IH]; [reflexivity |].
  cbn [Laws.concat_map]. now rewrite has_char_append, Hf, IH.
Qed.

Lemma escapeXml_concat_map (value : string) :
  escapeXml value = Laws.concat_map Laws.escape_char value.
Proof.
  unfold escapeXml. rewrite !replace_char_all_concat_map.
  rewrite !concat_map_compose. apply concat_map_ext.
  intros c. destruct c as [[] [] [] [] [] [] [] []]; reflexivity.
Qed.

(** X10.  [escapeXml] works character by character: the five passes of
    [replace] amount to replacing each character by its entity, so an
    ampersand written by an earlier pass is never escaped again; escaping
    distributes over concatenation; and the result holds none of the
    characters [<], [>], double quote and apostrophe. *)
Theorem escapeXml_characterwise (value other : string) :
  escapeXml value = Laws.concat_map Laws.escape_char value
  /\ escapeXml (value +:+ other) = escapeXml value +:+ escapeXml other
  /\ Laws.has_char "<" (escapeXml value) = false
  /\ Laws.has_char ">" (escapeXml value) = false
  /\ Laws.has_char "034" (escapeXml value) = false
  /\ Laws.has_char "'" (escapeXml value) = false.
Proof.
  split; [apply escapeXml_concat_map |].
  split; [rewrite !escapeXml_concat_map; apply concat_map_append |].
  rewrite escapeXml_concat_map.
  repeat split; apply has_char_concat_map;
    intros a; destruct a as [[] [] [] [] [] [] [] []]; reflexivity.
Qed.

Lemma alphabet_at_char (index : Z) :
  (0 <= index < 64)%Z ->
  exists c, alphabet_at index = String c "" /\ Laws.is_base64_char c = true.
Proof.
  intros Hindex.
  assert (Hcases : forall n, (n < 64)%nat ->
    exists c, String.substring n 1 BASE64_ALPHABET = String c ""
              /\ Laws.is_base64_char c = true).
  { intros n Hn.
    do 64 (destruct n as [|n]; [eexists; split; reflexivity |]). lia. }
  unfold alphabet_at. apply Hcases. lia.
Qed.

Lemma land_63_range (x : Z) : (0 <= Z.land x 63 < 64)%Z.
Proof.
  split.
  - apply Z.land_nonneg. right. lia.
  - change 63%Z with (Z.ones 6). rewrite Z.land_ones by lia.
    apply Z.mod_pos_bound. reflexivity.
Qed.

Lemma base64_quad_shape (byte0 byte1 byte2 remaining : Z) :
  String.length (base64_quad byte0 byte1 byte2 remaining) = 4%nat
  /\ Laws.all_chars Laws.is_base64_char (base64_quad byte0 byte1 byte2 remaining) = true.
Proof.
  unfold base64_quad. cbv zeta.
  set (combined := Z.lor (Z.lor (Z.shiftl byte0 16) (Z.shiftl byte1 8)) byte2).
  assert (Hemit : forall offset,
    exists c,
      (if (4 - (if (3 <=? remaining)%Z then 0 else 3 - remaining) <=? offset)%Z
       then "="
       else alphabet_at (Z.land (Z.shiftr combined (18 - offset * 6)) 63))
      = String c "" /\ Laws.is_base64_char c = true).
  { intros offset. destruct (_ <=? offset)%Z.
    - now exists "="%char.
    - apply alphabet_at_char, land_63_range. }
  destruct (Hemit 0%Z) as (c0 & -> & H0). destruct (Hemit 1%Z) as (c1 & -> & H1).
  destruct (Hemit 2%Z) as (c2 & -> & H2). destruct (Hemit 3%Z) as (c3 & -> & H3).
  cbn [String.append String.length Laws.all_chars].
  now rewrite H0, H1, H2, H3.
Qed.

Lemma all_chars_append (p : ascii -> bool) (a b : string) :
  Laws.all_chars p (a +:+ b) = Laws.all_chars p a && Laws.all_chars p b.
Proof.
  induction a as [|c a IH]; [reflexivity |].
  cbn [Laws.all_chars String.append]. rewrite IH. apply andb_assoc.
Qed.

Lemma length_append (a b : string) :
  String.length (a +:+ b) = (String.length a + String.length b)%nat.
Proof. induction a as [|c a IH]; [reflexivity |]. simpl. now rewrite IH. Qed.

Lemma base64_loop_three (bytes : list Z) :
  forall n, (List.length bytes <= n)%nat ->
  String.length (base64_loop bytes) = (4 * ((List.length bytes + 2) / 3))%nat
  /\ Laws.all_chars Laws.is_base64_char (base64_loop bytes) = true.
Proof.
  intros n. revert bytes. induction n as [|n IH]; intros bytes Hn.
  - destruct bytes; [now split | simpl in Hn; lia].
  - destruct bytes as [|byte0 [|byte1 [|byte2 rest]]].
    + now split.
    + apply base64_quad_shape.
    + apply base64_quad_shape.
    + cbn [base64_loop].
      destruct (base64_quad_shape byte0 byte1 byte2 3) as [Hlen Hchars].
      destruct (IH rest) as [IHlen IHchars]; [simpl in Hn; lia |].
      rewrite length_append, all_chars_append, Hlen, IHlen, Hchars, IHchars.
      split; [| reflexivity].
      cbn [List.length].
      replace (S (S (S (List.length rest))) + 2)%nat
        with (1 * 3 + (List.length rest + 2))%nat by lia.
      rewrite Nat.div_add_l by lia. lia.
Qed.

(** X11.  The encoder that [toBase64] falls back on writes four
    characters for every three bytes, the last group filled up: the length of
    its result is [4 * ceil(n / 3)] for [n] bytes, and every character is one
    of the alphabet or the padding character, whatever the values of the
    bytes.  Without a platform [btoa], [toBase64] is this encoder on the UTF-8
    bytes of the value. *)
Theorem base64_loop_shape (bytes : list Z) :
  String.length (base64_loop bytes) = (4 * ((List.length bytes + 2) / 3))%nat
  /\ Laws.all_chars Laws.is_base64_char (base64_loop bytes) = true
  /\ (forall (platform : Platform) (value : string),
        @btoa platform = None ->
        @toBase64 platform value = base64_loop (utf8_encode value)).
Proof.
  destruct (base64_loop_three bytes (List.length bytes) (le_n _)) as [Hlen Hchars].
  split; [exact Hlen |]. split; [exact Hchars |].
  intros platform value Hnone. unfold toBase64. now rewrite Hnone.
Qed.

(** *** Elements of an XML text *)

Lemma exec_all_head (re : RegExp) (s : string) :
  match_here re "" = None ->
  head (exec_all re s 0) = match_group re s.
Proof.
  intros Hempty. unfold match_group.
  induction s as [|c s IH].
  - cbn [exec_all Regex.search]. now rewrite Hempty.
  - cbn [exec_all Regex.search].
    destruct (match_here re (String c s)) as [[len cap]|]; [reflexivity |].
    exact IH.
Qed.

Lemma tag_match_empty (tag : string) : match_here (tag_expression tag) "" = None.
Proof.
  destruct (match_here (tag_expression tag) "") as [[len cap]|] eqn:Hm; [| reflexivity].
  pose proof (tag_match_nonempty tag "" len cap Hm) as Hlen.
  unfold match_here in Hm. apply exec_at_suffix in Hm.
  destruct Hm as (s' & cap' & Hk & Hs'). injection Hk as <- _.
  simpl in Hlen. lia.
Qed.

(** X12.  [getTagContent] and [getAllTagContents] agree: the content
    of a tag is the first of all its contents, the empty string when there is
    none, and the tag is found exactly when the list is not empty. *)
Theorem getTagContent_first (xml tag : string) :
  getTagContent xml tag = default "" (head (getAllTagContents xml tag))
  /\ (findTag xml tag = None <-> getAllTagContents xml tag = []).
Proof.
  unfold getTagContent, findTag, getAllTagContents.
  rewrite <- (exec_all_head _ xml (tag_match_empty tag)).
  destruct (exec_all (tag_expression tag) xml 0) as [|first rest].
  - split; [reflexivity | now split].
  - split; [reflexivity | split; discriminate].
Qed.

(** *** Decimal numerals *)

Lemma digits_prefix_numeral (d : Decimal.uint) (rest : string) :
  Laws.no_leading_digit rest = true ->
  forall count acc,
    Number.digits_prefix (NilEmpty.string_of_uint d +:+ rest) count acc
    = ((Decimal.nb_digits d + count)%nat, Laws.decimal_value d acc).
Proof.
  intros Hrest.
  induction d as [|d IH|d IH|d IH|d IH|d IH|d IH|d IH|d IH|d IH|d IH];
    intros count acc;
    try (cbn [NilEmpty.string_of_uint String.append Number.digits_prefix
              Laws.decimal_value Decimal.nb_digits];
         change (Number.is_digit _) with true; cbv iota; rewrite IH;
         apply f_equal2; [lia | reflexivity]).
  cbn [NilEmpty.string_of_uint String.append Laws.decimal_value Decimal.nb_digits].
  destruct rest as [|c rest]; [reflexivity |].
  cbn [Number.digits_prefix]. cbn [Laws.no_leading_digit] in Hrest.
  now destruct (Number.is_digit c).
Qed.

Lemma decimal_value_pos (d : Decimal.uint) (p : positive) :
  Laws.decimal_value d (N.pos p) = N.pos (Pos.of_uint_acc d p).
Proof.
  revert p.
  induction d as [|d IH|d IH|d IH|d IH|d IH|d IH|d IH|d IH|d IH|d IH]; intros p;
    [reflexivity | ..];
    cbn [Laws.decimal_value Pos.of_uint_acc]; rewrite <- IH; f_equal; lia.
Qed.

Lemma decimal_value_of_uint (d : Decimal.uint) :
  Laws.decimal_value d 0 = Pos.of_uint d.
Proof.
  induction d as [|d IH|d IH|d IH|d IH|d IH|d IH|d IH|d IH|d IH|d IH];
    [reflexivity | exact IH | ..];
    cbn [Laws.decimal_value Pos.of_uint]; apply decimal_value_pos.
Qed.

Lemma to_uint_not_nil (p : positive) : Pos.to_uint p <> Decimal.Nil.
Proof.
  intros Hnil. pose proof (DecimalPos.Unsigned.of_to p) as Hp.
  rewrite Hnil in Hp. discriminate Hp.
Qed.

(** The digits of a positive number, followed by something that is not a
    digit, are read back as the number. *)
Lemma digits_prefix_positive (p : positive) (rest : string) :
  Laws.no_leading_digit rest = true ->
  exists n,
    Number.digits_prefix (NilZero.string_of_uint (Pos.to_uint p) +:+ rest) 0 0
    = (S n, N.pos p)
    /\ match NilZero.string_of_uint (Pos.to_uint p) +:+ rest with
       | String c _ => Number.is_digit c = true
       | EmptyString => False
       end.
Proof.
  intros Hrest. pose proof (to_uint_not_nil p) as Hnil.
  pose proof (DecimalPos.Unsigned.of_to p) as Hp.
  assert (Hsame : NilZero.string_of_uint (Pos.to_uint p)
                  = NilEmpty.string_of_uint (Pos.to_uint p)).
  { now destruct (Pos.to_uint p). }
  rewrite Hsame, (digits_prefix_numeral _ _ Hrest), decimal_value_of_uint, Hp.
  destruct (Pos.to_uint p); [congruence | ..];
    (eexists; split; [reflexivity | reflexivity]).
Qed.

Lemma round_to_double_exact (v : N) :
  (v < 2 ^ 53)%N -> Number.round_to_double v = v.
Proof.
  intros Hv. unfold Number.round_to_double.
  destruct (N.leb_spec (N.size v) 53) as [_ | Hsize]; [reflexivity |].
  exfalso. pose proof (N.size_le v) as Hle.
  assert (Hpow : (2 ^ 54 <= 2 ^ N.size v)%N) by (apply N.pow_le_mono_r; lia).
  rewrite N.succ_double_spec in Hle.
  change (2 ^ 54)%N with (2 * 2 ^ 53)%N in Hpow. lia.
Qed.

Lemma trimStart_space (space s : string) :
  Laws.all_chars is_whitespace space = true ->
  trimStart (space +:+ s) = trimStart s.
Proof.
  induction space as [|c space IH]; [reflexivity |].
  cbn [Laws.all_chars String.append trimStart].
  destruct (is_whitespace c); [exact IH | discriminate].
Qed.

Lemma parseInt10_digits (s : string) (n : nat) (v : N) :
  match s with
  | String c _ => Number.is_digit c = true
  | EmptyString => False
  end ->
  Number.digits_prefix s 0 0 = (S n, v) ->
  (v < 2 ^ 53)%N ->
  Number.parseInt10 s = Number.PInt (Z.of_N v)
  /\ Number.parseInt10 (String "-" s) = Number.PInt (- Z.of_N v).
Proof.
  intros Hhead Hdigits Hv.
  assert (Hfinite : (N.shiftl 1 1024 <=? v)%N = false).
  { apply N.leb_gt. rewrite N.shiftl_1_l.
    apply N.lt_le_trans with (2 ^ 53)%N; [exact Hv |].
    apply N.pow_le_mono_r; lia. }
  split.
  - unfold Number.parseInt10.
    destruct s as [|c s]; [destruct Hhead |].
    assert (Hspace : is_whitespace c = false).
    { destruct c as [[] [] [] [] [] [] [] []]; try discriminate Hhead; reflexivity. }
    cbn [trimStart]. rewrite Hspace.
    assert (Hsign : (match String c s with
                     | String "-" s' => (true, s')
                     | String "+" s' => (false, s')
                     | _ => (false, String c s)
                     end) = (false, String c s)).
    { destruct c as [[] [] [] [] [] [] [] []]; try discriminate Hhead; reflexivity. }
    rewrite Hsign, Hdigits, (round_to_double_exact _ Hv), Hfinite. reflexivity.
  - unfold Number.parseInt10. cbn [trimStart].
    change (is_whitespace "-") with false. cbv iota.
    rewrite Hdigits, (round_to_double_exact _ Hv), Hfinite. reflexivity.
Qed.

(** X13.  [safeParseInteger] reads a decimal numeral back: for an
    integer [z] of magnitude below 2^53, the numeral of [z], after any white
    space and before any text that does not start with a digit, is parsed as
    [z] itself. *)
Theorem safeParseInteger_numeral (z : Z) (space rest : string) :
  (Z.abs z < 2 ^ 53)%Z ->
  Laws.all_chars is_whitespace space = true ->
  Laws.no_leading_digit rest = true ->
  safeParseInteger (space +:+ string_of_Z z +:+ rest) = z.
Proof.
  intros Hz Hspace Hrest. unfold safeParseInteger.
  assert (Htrim : forall s, Number.parseInt10 (space +:+ s) = Number.parseInt10 s).
  { intros s. unfold Number.parseInt10. now rewrite (trimStart_space _ _ Hspace). }
  rewrite Htrim. destruct z as [|p|p].
  - change (string_of_Z 0) with "0". cbn [String.append].
    unfold Number.parseInt10. cbn [trimStart]. change (is_whitespace "0") with false.
    cbv iota. cbn [Number.digits_prefix]. change (Number.is_digit "0") with true.
    cbv iota. destruct rest as [|c rest]; [reflexivity |].
    cbn [Number.digits_prefix]. cbn [Laws.no_leading_digit] in Hrest.
    destruct (Number.is_digit c); [discriminate | reflexivity].
  - destruct (digits_prefix_positive p rest Hrest) as (n & Hdigits & Hhead).
    change (string_of_Z (Z.pos p)) with (NilZero.string_of_uint (Pos.to_uint p)).
    assert (Hv : (N.pos p < 2 ^ 53)%N) by (cbn in Hz; lia).
    destruct (parseInt10_digits _ n _ Hhead Hdigits Hv) as [-> _].
    reflexivity.
  - destruct (digits_prefix_positive p rest Hrest) as (n & Hdigits & Hhead).
    change (string_of_Z (Z.neg p))
      with (String "-" (NilZero.string_of_uint (Pos.to_uint p))).
    assert (Hv : (N.pos p < 2 ^ 53)%N) by (cbn in Hz; lia).
    cbn [String.append].
    destruct (parseInt10_digits _ n _ Hhead Hdigits Hv) as [_ ->].
    reflexivity.
Qed.

(** *** What the tag expressions match *)

Lemma star_complete {R} (icase : bool) (p : ascii -> bool) (u s : string)
    (cap : option string) (k : string -> option string -> option R) :
  Laws.all_chars p u = true ->
  k s cap <> None ->
  exec_at icase (Star p) (u +:+ s) cap k <> None.
Proof.
  intros Hu Hk. cbn [exec_at].
  induction u as [|a u IH].
  - cbn [String.append]. destruct s as [|b s]; [exact Hk |].
    destruct (p b); [| exact Hk].
    match goal with
    | |- match ?g with _ => _ end <> None => destruct g; [discriminate | exact Hk]
    end.
  - cbn [Laws.all_chars] in Hu. apply andb_true_iff in Hu. destruct Hu as [Ha Hu].
    cbn [String.append]. rewrite Ha.
    match goal with
    | |- match ?g with _ => _ end <> None =>
        destruct g eqn:Hgo; [discriminate | exfalso; now apply (IH Hu)]
    end.
Qed.

Lemma chr_match_refl (icase : bool) (c : ascii) : chr_match icase c c = true.
Proof. unfold chr_match. destruct icase; apply Ascii.eqb_refl. Qed.

Lemma lit_exact {R} (icase : bool) (w s : string) (cap : option string)
    (k : string -> option string -> option R) :
  exec_at icase (lit w) (w +:+ s) cap k = k s cap.
Proof.
  induction w as [|c w IH]; [reflexivity |].
  destruct w as [|d w].
  - cbn [lit exec_at String.append]. now rewrite chr_match_refl.
  - change (lit (String c (String d w))) with (Cat (Chr c) (lit (String d w))).
    change (String c (String d w) +:+ s) with (String c (String d w +:+ s)).
    cbn [exec_at]. rewrite chr_match_refl. exact IH.
Qed.

Lemma opt_complete {R} (icase : bool) (r : regex) (s : string)
    (cap : option string) (k : string -> option string -> option R) :
  k s cap <> None \/ exec_at icase r s cap k <> None ->
  exec_at icase (Opt r) s cap k <> None.
Proof.
  intros Hk. cbn [exec_at].
  destruct (exec_at icase r s cap k); [discriminate |]. now destruct Hk.
Qed.

Lemma opt_colon_complete {R} (icase : bool) (colon s : string)
    (cap : option string) (k : string -> option string -> option R) :
  colon = "" \/ colon = ":" ->
  k s cap <> None ->
  exec_at icase (Opt (Chr ":")) (colon +:+ s) cap k <> None.
Proof.
  intros [-> | ->] Hk; apply opt_complete.
  - now left.
  - right. cbn [exec_at String.append]. now rewrite chr_match_refl.
Qed.

Lemma exec_at_Cat {R} (icase : bool) (r1 r2 : regex) (s : string)
    (cap : option string) (k : string -> option string -> option R) :
  exec_at icase (Cat r1 r2) s cap k
  = exec_at icase r1 s cap (fun s' cap' => exec_at icase r2 s' cap' k).
Proof. reflexivity. Qed.

Lemma exec_at_Chr_head {R} (icase : bool) (c a : ascii) (s : string)
    (cap : option string) (k : string -> option string -> option R) :
  chr_match icase c a = true ->
  exec_at icase (Chr c) (String a s) cap k = k s cap.
Proof. intros Hc. cbn [exec_at]. now rewrite Hc. Qed.

Lemma alt_complete {R} (icase : bool) (r1 r2 : regex) (s : string)
    (cap : option string) (k : string -> option string -> option R) :
  exec_at icase r1 s cap k <> None \/ exec_at icase r2 s cap k <> None ->
  exec_at icase (Alt r1 r2) s cap k <> None.
Proof.
  intros Hk. cbn [exec_at].
  destruct (exec_at icase r1 s cap k); [discriminate |]. now destruct Hk.
Qed.

Lemma append_not_empty (a b : string) : b <> "" -> truthy (a +:+ b) = true.
Proof.
  intros Hb. unfold truthy. apply negb_true_iff, String.eqb_neq.
  destruct a; [exact Hb | discriminate].
Qed.

(** X14.  [hasTag] is true of any text that holds an opening tag of the
    name: a [<], a prefix without colon, an optional colon, the name, anything
    up to the next [>], which may be the end of a self-closing tag.  Whether a
    closing tag follows does not matter, and neither does what comes between
    the name and the [>]: an element whose name only begins with the tag's
    name is recognised as well.  Of the empty text [hasTag] is false. *)
Theorem hasTag_opening_tag (tag before prefix colon attrs after : string) :
  Laws.all_chars (not_in ":>") prefix = true ->
  colon = "" \/ colon = ":" ->
  Laws.all_chars (not_in ">") attrs = true ->
  hasTag (before +:+ "<" +:+ prefix +:+ colon +:+ tag +:+ attrs +:+ ">" +:+ after) tag
  = true
  /\ hasTag "" tag = false.
Proof.
  intros Hprefix Hcolon Hattrs. split; [| reflexivity].
  unfold hasTag. rewrite append_not_empty by discriminate. cbn [negb].
  apply test_append_l. unfold test.
  change ("<" +:+ prefix +:+ colon +:+ tag +:+ attrs +:+ ">" +:+ after)
    with (String "<" (prefix +:+ colon +:+ tag +:+ attrs +:+ ">" +:+ after)).
  cbn [Regex.search].
  destruct (match_here (hasTag_expression tag)
              (String "<" (prefix +:+ colon +:+ tag +:+ attrs +:+ ">" +:+ after)))
    eqn:Hm; [reflexivity | exfalso].
  revert Hm. unfold match_here.
  change (pattern (hasTag_expression tag))
    with (Cat (Chr "<")
           (Cat (Star (not_in ":>"))
             (Cat (Opt (Chr ":"))
               (Cat (lit tag)
                 (Cat (Star (not_in ">"))
                   (Alt (Cat (Opt (Chr "/")) (Chr ">"))
                        (seq [Chr ">"; StarLazy any_char;
                              Chr "<"; Chr "/"; Star (not_in ":>"); Opt (Chr ":");
                              lit tag; Chr ">"]))))))).
  cbn [ignoreCase hasTag_expression].
  rewrite exec_at_Cat, exec_at_Chr_head by reflexivity.
  rewrite exec_at_Cat. apply star_complete; [exact Hprefix |].
  rewrite exec_at_Cat. apply opt_colon_complete; [exact Hcolon |].
  rewrite exec_at_Cat, lit_exact.
  rewrite exec_at_Cat. apply star_complete; [exact Hattrs |].
  apply alt_complete. left.
  rewrite exec_at_Cat. apply opt_complete. left.
  change (">" +:+ after) with (String ">" after).
  rewrite exec_at_Chr_head by reflexivity. discriminate.
Qed.

(** A successful match has consumed a prefix of the input; the prefix is
    free of a character the expression avoids, and an expression without a
    group leaves the captured text as it was. *)
Lemma exec_at_consumed {R} (icase : bool) (c : ascii) (r : regex) :
  forall (s : string) (cap : option string)
         (k : string -> option string -> option R) (x : R),
    exec_at icase r s cap k = Some x ->
    exists u s' cap',
      s = u +:+ s' /\ k s' cap' = Some x
      /\ (Laws.avoids icase c r = true -> Laws.has_char c u = false)
      /\ (Laws.no_group r = true -> cap' = cap).
Proof.
  induction r as [| c' | p | p | p | r1 IH1 | r1 IH1 r2 IH2 | r1 IH1 r2 IH2 | r1 IH1 |];
    intros s cap k x Hx; cbn [exec_at] in Hx.
  - exists "", s, cap. repeat split; assumption.
  - destruct s as [|a s]; [discriminate |].
    destruct (chr_match icase c' a) eqn:Hc; [| discriminate].
    exists (String a ""), s, cap. repeat split; [assumption |].
    cbn [Laws.avoids Laws.has_char]. intros Havoid.
    destruct (Ascii.eqb_spec a c) as [-> | _]; [| reflexivity].
    now rewrite Hc in Havoid.
  - destruct s as [|a s]; [discriminate |].
    destruct (p a) eqn:Hp; [| discriminate].
    exists (String a ""), s, cap. repeat split; [assumption |].
    cbn [Laws.avoids Laws.has_char]. intros Havoid.
    destruct (Ascii.eqb_spec a c) as [-> | _]; [| reflexivity].
    now rewrite Hp in Havoid.
  - induction s as [|a s IHs].
    + exists "", "", cap. repeat split; assumption.
    + destruct (p a) eqn:Hp;
        [| exists "", (String a s), cap; repeat split; assumption].
      match type of Hx with
      | match ?g with _ => _ end = _ => destruct g as [y|] eqn:Hgo
      end; [| exists "", (String a s), cap; repeat split; assumption].
      injection Hx as ->.
      destruct (IHs eq_refl) as (u & s' & cap' & Hs & Hk & Havoids & Hcap).
      exists (String a u), s', cap'. repeat split; [now rewrite Hs | exact Hk | | exact Hcap].
      cbn [Laws.avoids Laws.has_char]. intros Havoid.
      rewrite (Havoids Havoid).
      destruct (Ascii.eqb_spec a c) as [-> | _]; [| reflexivity].
      now rewrite Hp in Havoid.
  - induction s as [|a s IHs].
    + destruct (k "" cap) eqn:Hk; [| discriminate]. injection Hx as ->.
      exists "", "", cap. repeat split; assumption.
    + destruct (k (String a s) cap) eqn:Hk.
      { injection Hx as ->. exists "", (String a s), cap. repeat split; assumption. }
      destruct (p a) eqn:Hp; [| discriminate].
      destruct (IHs Hx) as (u & s' & cap' & Hs & Hk' & Havoids & Hcap).
      exists (String a u), s', cap'. repeat split; [now rewrite Hs | exact Hk' | | exact Hcap].
      cbn [Laws.avoids Laws.has_char]. intros Havoid.
      rewrite (Havoids Havoid).
      destruct (Ascii.eqb_spec a c) as [-> | _]; [| reflexivity].
      now rewrite Hp in Havoid.
  - destruct (exec_at icase r1 s cap k) eqn:H1.
    + injection Hx as ->. apply (IH1 _ _ _ _ H1).
    + exists "", s, cap. repeat split; assumption.
  - destruct (IH1 _ _ _ _ Hx) as (u1 & s1 & cap1 & Hs1 & H2 & Havoid1 & Hcap1).
    destruct (IH2 _ _ _ _ H2) as (u2 & s2 & cap2 & Hs2 & Hk & Havoid2 & Hcap2).
    exists (u1 +:+ u2), s2, cap2.
    split; [rewrite Hs1, Hs2; apply append_associative |].
    split; [exact Hk |]. cbn [Laws.avoids Laws.no_group]. split.
    + intros Havoid. apply andb_true_iff in Havoid. destruct Havoid as [Ha1 Ha2].
      now rewrite has_char_append, (Havoid1 Ha1), (Havoid2 Ha2).
    + intros Hgroup. apply andb_true_iff in Hgroup. destruct Hgroup as [Hg1 Hg2].
      now rewrite (Hcap2 Hg2), (Hcap1 Hg1).
  - cbn [Laws.avoids Laws.no_group].
    destruct (exec_at icase r1 s cap k) eqn:H1.
    + injection Hx as ->.
      destruct (IH1 _ _ _ _ H1) as (u & s' & cap' & Hs & Hk & Havoids & Hcap).
      exists u, s', cap'. repeat split; try assumption.
      * intros Havoid. apply andb_true_iff in Havoid. now apply Havoids.
      * intros Hgroup. apply andb_true_iff in Hgroup. now apply Hcap.
    + destruct (IH2 _ _ _ _ Hx) as (u & s' & cap' & Hs & Hk & Havoids & Hcap).
      exists u, s', cap'. repeat split; try assumption.
      * intros Havoid. apply andb_true_iff in Havoid. now apply Havoids.
      * intros Hgroup. apply andb_true_iff in Hgroup. now apply Hcap.
  - destruct (IH1 _ _ _ _ Hx) as (u & s' & cap' & Hs & Hk & Havoids & _).
    exists u, s', (Some (String.substring 0 (String.length s - String.length s') s)).
    repeat split; try assumption. discriminate.
  - destruct s; [| discriminate]. exists "", "", cap. repeat split; assumption.
Qed.

(** Whether a match is found does not depend on the captured text, nor on
    the continuation beyond whether it succeeds. *)
Lemma exec_at_mono {R R'} (icase : bool) (r : regex) :
  forall (s : string) (cap cap' : option string)
         (k : string -> option string -> option R)
         (k' : string -> option string -> option R'),
    (forall s1 c1 c2, k s1 c1 <> None -> k' s1 c2 <> None) ->
    exec_at icase r s cap k <> None ->
    exec_at icase r s cap' k' <> None.
Proof.
  induction r as [| c' | p | p | p | r1 IH1 | r1 IH1 r2 IH2 | r1 IH1 r2 IH2 | r1 IH1 |];
    intros s cap cap' k k' Hk Hx; cbn [exec_at] in *.
  - now apply (Hk s cap).
  - destruct s as [|a s]; [now destruct Hx |].
    destruct (chr_match icase c' a); [now apply (Hk s cap) | now destruct Hx].
  - destruct s as [|a s]; [now destruct Hx |].
    destruct (p a); [now apply (Hk s cap) | now destruct Hx].
  - induction s as [|a s IHs]; [now apply (Hk "" cap) |].
    destruct (p a); [| now apply (Hk (String a s) cap)].
    match type of Hx with
    | match ?g with _ => _ end <> _ => destruct g as [y|] eqn:Hgo
    end.
    + match goal with
      | |- match ?g with _ => _ end <> _ => destruct g as [y'|] eqn:Hgo'
      end; [discriminate |].
      exfalso. now apply IHs.
    + match goal with
      | |- match ?g with _ => _ end <> _ => destruct g as [y'|] eqn:Hgo'
      end; [discriminate |].
      now apply (Hk (String a s) cap).
  - induction s as [|a s IHs].
    + destruct (k "" cap) eqn:Hk0; [| now destruct Hx].
      destruct (k' "" cap') eqn:Hk0'; [discriminate |].
      exfalso. apply (Hk "" cap cap'); [now rewrite Hk0 | exact Hk0'].
    + destruct (k' (String a s) cap') eqn:Hk0'; [discriminate |].
      destruct (k (String a s) cap) eqn:Hk0.
      { exfalso. apply (Hk (String a s) cap cap'); [now rewrite Hk0 | exact Hk0']. }
      destruct (p a); [now apply IHs | now destruct Hx].
  - destruct (exec_at icase r1 s cap' k') eqn:H1'; [discriminate |].
    destruct (exec_at icase r1 s cap k) eqn:H1.
    + exfalso. apply (IH1 s cap cap' k k' Hk); [now rewrite H1 | exact H1'].
    + now apply (Hk s cap).
  - revert Hx. apply IH1. intros s1 c1 c2. now apply IH2.
  - destruct (exec_at icase r1 s cap' k') eqn:H1'; [discriminate |].
    destruct (exec_at icase r1 s cap k) eqn:H1.
    + exfalso. apply (IH1 s cap cap' k k' Hk); [now rewrite H1 | exact H1'].
    + now apply (IH2 s cap cap' k k').
  - revert Hx. apply IH1. intros s1 c1 c2. apply Hk.
  - destruct s; [now apply (Hk "" cap) | now destruct Hx].
Qed.

Lemma exec_at_Grp {R} (icase : bool) (r : regex) (s : string)
    (cap : option string) (k : string -> option string -> option R) :
  exec_at icase (Grp r) s cap k
  = exec_at icase r s cap
      (fun s' _ =>
         k s' (Some (String.substring 0 (String.length s - String.length s') s))).
Proof. reflexivity. Qed.

Lemma exec_at_StarLazy {R} (icase : bool) (p : ascii -> bool) (s : string)
    (cap : option string) (k : string -> option string -> option R) :
  exec_at icase (StarLazy p) s cap k
  = match k s cap with
    | Some x => Some x
    | None =>
        match s with
        | String a s' => if p a then exec_at icase (StarLazy p) s' cap k else None
        | EmptyString => None
        end
    end.
Proof. destruct s; reflexivity. Qed.

(** The lazy star passes over a text inside which the continuation never
    succeeds. *)
Lemma lazy_skip {R} (icase : bool) (content rest : string)
    (cap : option string) (k : string -> option string -> option R) :
  (forall c1 c2, content = c1 +:+ c2 -> c2 <> "" -> k (c2 +:+ rest) cap = None) ->
  exec_at icase (StarLazy any_char) (content +:+ rest) cap k
  = exec_at icase (StarLazy any_char) rest cap k.
Proof.
  induction content as [|a content IH]; intros Hfail; [reflexivity |].
  rewrite exec_at_StarLazy.
  rewrite (Hfail "" (String a content) eq_refl) by discriminate.
  cbn [String.append any_char]. apply IH.
  intros c1 c2 Hsplit Hc2. apply (Hfail (String a c1) c2); [| exact Hc2].
  cbn [String.append]. now rewrite Hsplit.
Qed.

Lemma lazy_complete {R} (icase : bool) (content rest : string)
    (cap : option string) (k : string -> option string -> option R) :
  k rest cap <> None ->
  exec_at icase (StarLazy any_char) (content +:+ rest) cap k <> None.
Proof.
  intros Hk. induction content as [|a content IH]; rewrite exec_at_StarLazy.
  - cbn [String.append]. destruct (k rest cap); [discriminate | now destruct Hk].
  - destruct (k (String a content +:+ rest) cap); [discriminate |].
    cbn [String.append any_char]. exact IH.
Qed.

Lemma first_char_unique (c : ascii) (u1 u2 s1 s2 : string) :
  u1 +:+ String c s1 = u2 +:+ String c s2 ->
  Laws.has_char c u1 = false ->
  Laws.has_char c u2 = false ->
  s1 = s2.
Proof.
  revert u2. induction u1 as [|a u1 IH]; intros u2 Heq H1 H2.
  - destruct u2 as [|b u2]; cbn [String.append] in Heq.
    + now injection Heq.
    + injection Heq as <- _. cbn [Laws.has_char] in H2.
      now rewrite Ascii.eqb_refl in H2.
  - destruct u2 as [|b u2]; cbn [String.append] in Heq.
    + injection Heq as -> _. cbn [Laws.has_char] in H1.
      now rewrite Ascii.eqb_refl in H1.
    + injection Heq as _ Heq. cbn [Laws.has_char] in H1, H2.
      apply orb_false_iff in H1, H2. apply (IH u2 Heq); tauto.
Qed.

Lemma all_chars_has_char (p : ascii -> bool) (c : ascii) (u : string) :
  Laws.all_chars p u = true -> p c = false -> Laws.has_char c u = false.
Proof.
  intros Hu Hc. induction u as [|a u IH]; [reflexivity |].
  cbn [Laws.all_chars Laws.has_char] in *.
  apply andb_true_iff in Hu. destruct Hu as [Ha Hu]. rewrite (IH Hu).
  destruct (Ascii.eqb_spec a c) as [-> | _]; [congruence | reflexivity].
Qed.

Lemma chr_match_gt (a : ascii) : chr_match true ">" a = true -> a = ">"%char.
Proof. destruct a as [[] [] [] [] [] [] [] []]; try discriminate; reflexivity. Qed.

Lemma chr_match_to_gt (a : ascii) : chr_match true a ">" = true -> a = ">"%char.
Proof. destruct a as [[] [] [] [] [] [] [] []]; try discriminate; reflexivity. Qed.

Lemma chr_match_lt (a : ascii) : chr_match true "<" a = true -> a = "<"%char.
Proof. destruct a as [[] [] [] [] [] [] [] []]; try discriminate; reflexivity. Qed.

Lemma avoids_lit (w : string) :
  Laws.has_char ">" w = false -> Laws.avoids true ">" (lit w) = true.
Proof.
  induction w as [|c w IH]; [reflexivity |].
  cbn [Laws.has_char]. intros Hw. apply orb_false_iff in Hw. destruct Hw as [Hc Hw].
  assert (Havoid : negb (chr_match true c ">") = true).
  { apply negb_true_iff. destruct (chr_match true c ">") eqn:Hm; [| reflexivity].
    apply chr_match_to_gt in Hm. subst c. discriminate Hc. }
  destruct w as [|d w]; [exact Havoid |].
  change (lit (String c (String d w))) with (Cat (Chr c) (lit (String d w))).
  cbn [Laws.avoids]. now rewrite Havoid, (IH Hw).
Qed.

Lemma no_group_lit (w : string) : Laws.no_group (lit w) = true.
Proof.
  induction w as [|c w IH]; [reflexivity |].
  destruct w as [|d w]; [reflexivity |].
  change (lit (String c (String d w))) with (Cat (Chr c) (lit (String d w))).
  cbn [Laws.no_group]. exact IH.
Qed.

(** An expression that avoids [>], followed by [>]: on a text whose first
    [>] stands after [u0], the match goes up to that [>]. *)
Lemma upto_gt_sound {R} (body : regex) (u0 rest0 : string) (cap : option string)
    (k : string -> option string -> option R) (x : R) :
  Laws.avoids true ">" body = true ->
  Laws.has_char ">" u0 = false ->
  exec_at true body (u0 +:+ String ">" rest0) cap
    (fun s' cap' => exec_at true (Chr ">") s' cap' k) = Some x ->
  exists cap', k rest0 cap' = Some x /\ (Laws.no_group body = true -> cap' = cap).
Proof.
  intros Havoid Hu0 Hx.
  destruct (exec_at_consumed true ">" body _ _ _ _ Hx)
    as (u & s' & cap' & Hs & Hk & Hu & Hcap).
  cbn [exec_at] in Hk. destruct s' as [|a s']; [discriminate |].
  destruct (chr_match true ">" a) eqn:Ha; [| discriminate].
  apply chr_match_gt in Ha. subst a.
  pose proof (first_char_unique ">" _ _ _ _ Hs Hu0 (Hu Havoid)) as ->.
  now exists cap'.
Qed.

Lemma substring_prefix (a b : string) :
  String.substring 0 (String.length (a +:+ b) - String.length b) (a +:+ b) = a.
Proof.
  rewrite length_append.
  replace (String.length a + String.length b - String.length b)%nat
    with (String.length a) by lia.
  induction a as [|c a IH]; [now destruct b |].
  cbn [String.append String.length String.substring]. now rewrite IH.
Qed.

(** The tag expression in four parts: the opening tag up to its [>], the
    [>], the group, the closing tag. *)
Lemma tag_expression_parts {R} (tag s : string) (cap : option string)
    (k : string -> option string -> option R) :
  exec_at true (pattern (tag_expression tag)) s cap k
  = exec_at true
      (Cat (Chr "<")
         (Cat (Star (not_in ":>"))
            (Cat (Opt (Chr ":")) (Cat (lit tag) (Star (not_in ">"))))))
      s cap
      (fun s5 cap5 =>
         exec_at true (Chr ">") s5 cap5
           (fun s6 cap6 =>
              exec_at true (Grp (StarLazy any_char)) s6 cap6
                (fun s7 cap7 =>
                   exec_at true (pattern (Laws.closing_expression tag)) s7 cap7 k))).
Proof. reflexivity. Qed.

Lemma closing_expression_parts {R} (tag s : string) (cap : option string)
    (k : string -> option string -> option R) :
  exec_at true (pattern (Laws.closing_expression tag)) s cap k
  = exec_at true
      (Cat (Chr "<")
         (Cat (Chr "/")
            (Cat (Star (not_in ":>")) (Cat (Opt (Chr ":")) (lit tag)))))
      s cap
      (fun s' cap' => exec_at true (Chr ">") s' cap' k).
Proof. reflexivity. Qed.

Section Element.
Variables tag prefix colon : string.
Hypothesis Hprefix : Laws.all_chars (not_in ":>") prefix = true.
Hypothesis Hcolon : colon = "" \/ colon = ":".
Hypothesis Htag : Laws.has_char ">" tag = false.

Lemma name_free_of_gt : Laws.has_char ">" (prefix +:+ colon +:+ tag) = false.
Proof.
  rewrite !has_char_append, Htag.
  rewrite (all_chars_has_char _ ">" _ Hprefix eq_refl).
  now destruct Hcolon as [-> | ->].
Qed.

Lemma closing_complete {R} (after : string) (cap : option string)
    (k : string -> option string -> option R) :
  k after cap <> None ->
  exec_at true (pattern (Laws.closing_expression tag))
    ("</" +:+ prefix +:+ colon +:+ tag +:+ ">" +:+ after) cap k <> None.
Proof.
  intros Hk. rewrite closing_expression_parts.
  change ("</" +:+ prefix +:+ colon +:+ tag +:+ ">" +:+ after)
    with (String "<" (String "/" (prefix +:+ colon +:+ tag +:+ ">" +:+ after))).
  rewrite exec_at_Cat, exec_at_Chr_head by reflexivity.
  rewrite exec_at_Cat, exec_at_Chr_head by reflexivity.
  rewrite exec_at_Cat. apply star_complete; [exact Hprefix |].
  rewrite exec_at_Cat. apply opt_colon_complete; [exact Hcolon |].
  rewrite lit_exact.
  change (">" +:+ after) with (String ">" after).
  now rewrite exec_at_Chr_head by reflexivity.
Qed.

Lemma closing_sound {R} (after : string) (cap : option string)
    (k : string -> option string -> option R) (x : R) :
  exec_at true (pattern (Laws.closing_expression tag))
    ("</" +:+ prefix +:+ colon +:+ tag +:+ ">" +:+ after) cap k = Some x ->
  k after cap = Some x.
Proof.
  rewrite closing_expression_parts.
  replace ("</" +:+ prefix +:+ colon +:+ tag +:+ ">" +:+ after)
    with (("</" +:+ prefix +:+ colon +:+ tag) +:+ String ">" after)
    by (cbn [String.append]; now rewrite <- !append_associative).
  intros Hx. apply upto_gt_sound in Hx.
  - destruct Hx as (cap' & Hk & Hcap). rewrite <- Hcap; [exact Hk |].
    cbn [Laws.no_group]. now rewrite no_group_lit.
  - cbn [Laws.avoids]. now rewrite (avoids_lit _ Htag).
  - change ("</" +:+ prefix +:+ colon +:+ tag)
      with (String "<" (String "/" (prefix +:+ colon +:+ tag))).
    cbn [Laws.has_char]. exact name_free_of_gt.
Qed.

End Element.

Lemma free_of_closing_suffix (tag rest : string) (c1 : string) :
  forall content c2,
    Laws.free_of_closing tag content rest = true ->
    content = c1 +:+ c2 -> c2 <> "" ->
    test_anchored (Laws.closing_expression tag) (c2 +:+ rest) = false.
Proof.
  induction c1 as [|a c1 IH]; intros content c2 Hfree Hsplit Hc2.
  - cbn [String.append] in Hsplit. subst content.
    destruct c2 as [|c c2]; [now destruct Hc2 |].
    cbn [Laws.free_of_closing] in Hfree. apply andb_true_iff in Hfree.
    now apply negb_true_iff.
  - cbn [String.append] in Hsplit. subst content.
    cbn [Laws.free_of_closing] in Hfree. apply andb_true_iff in Hfree.
    destruct Hfree as [_ Hfree]. now apply (IH (c1 +:+ c2) c2).
Qed.

Lemma closing_needs_lt (tag : string) (a : ascii) (s : string) :
  Ascii.eqb a "<" = false ->
  test_anchored (Laws.closing_expression tag) (String a s) = false.
Proof.
  intros Ha. unfold test_anchored, match_here. rewrite closing_expression_parts.
  rewrite exec_at_Cat. cbn [exec_at Laws.closing_expression ignoreCase].
  destruct (chr_match true "<" a) eqn:Hm; [| reflexivity].
  apply chr_match_lt in Hm. subst a. discriminate Ha.
Qed.

(** A text without [<] holds no closing tag. *)
Lemma text_free_of_closing (tag content rest : string) :
  Laws.has_char "<" content = false ->
  Laws.free_of_closing tag content rest = true.
Proof.
  induction content as [|a content IH]; [reflexivity |].
  cbn [Laws.has_char Laws.free_of_closing]. intros Hc.
  apply orb_false_iff in Hc. destruct Hc as [Ha Hc].
  cbn [String.append]. now rewrite (closing_needs_lt _ _ _ Ha), (IH Hc).
Qed.

Lemma tag_needs_lt (tag : string) (a : ascii) (s : string) :
  Ascii.eqb a "<" = false ->
  match_here (tag_expression tag) (String a s) = None.
Proof.
  intros Ha. unfold match_here. rewrite tag_expression_parts.
  rewrite exec_at_Cat. cbn [exec_at tag_expression ignoreCase].
  destruct (chr_match true "<" a) eqn:Hm; [| reflexivity].
  apply chr_match_lt in Hm. subst a. discriminate Ha.
Qed.

Lemma exec_all_skip (re : RegExp) (u s : string) :
  exec_all re (u +:+ s) (String.length u) = exec_all re s 0.
Proof.
  induction u as [|a u IH]; [reflexivity |].
  cbn [String.append String.length exec_all]. exact IH.
Qed.

Section ElementContent.
Variables tag prefix colon attrs content prefix' colon' after : string.
Hypothesis Hprefix : Laws.all_chars (not_in ":>") prefix = true.
Hypothesis Hcolon : colon = "" \/ colon = ":".
Hypothesis Htag : Laws.has_char ">" tag = false.
Hypothesis Hattrs : Laws.all_chars (not_in ">") attrs = true.
Hypothesis Hprefix' : Laws.all_chars (not_in ":>") prefix' = true.
Hypothesis Hcolon' : colon' = "" \/ colon' = ":".
Hypothesis Hcontent :
  Laws.free_of_closing tag content
    ("</" +:+ prefix' +:+ colon' +:+ tag +:+ ">" +:+ after) = true.

(** The tag expression on an element: the match is the element, and the
    group is its content. *)
Lemma match_here_element :
  match_here (tag_expression tag)
    (String "<" (prefix +:+ colon +:+ tag +:+ attrs +:+ ">" +:+ content
                 +:+ "</" +:+ prefix' +:+ colon' +:+ tag +:+ ">" +:+ after))
  = Some ((String.length
             (String "<" (prefix +:+ colon +:+ tag +:+ attrs +:+ ">" +:+ content
                          +:+ "</" +:+ prefix' +:+ colon' +:+ tag +:+ ">" +:+ after))
           - String.length after)%nat,
          Some content).
Proof.
  unfold match_here.
  set (whole := String "<" (prefix +:+ colon +:+ tag +:+ attrs +:+ ">" +:+ content
                            +:+ "</" +:+ prefix' +:+ colon' +:+ tag +:+ ">" +:+ after)).
  set (rest := "</" +:+ prefix' +:+ colon' +:+ tag +:+ ">" +:+ after) in *.
  set (k0 := fun (s' : string) (cap : option string) =>
               Some ((String.length whole - String.length s')%nat, cap)).
  cbn [ignoreCase tag_expression].
  assert (Hcomplete : exec_at true (pattern (tag_expression tag)) whole None k0 <> None).
  { rewrite tag_expression_parts. unfold whole.
    rewrite exec_at_Cat, exec_at_Chr_head by reflexivity.
    rewrite exec_at_Cat. apply star_complete; [exact Hprefix |].
    rewrite exec_at_Cat. apply opt_colon_complete; [exact Hcolon |].
    rewrite exec_at_Cat, lit_exact.
    apply star_complete; [exact Hattrs |].
    change (">" +:+ content +:+ rest) with (String ">" (content +:+ rest)).
    rewrite exec_at_Chr_head by reflexivity.
    rewrite exec_at_Grp. apply lazy_complete.
    apply closing_complete; [exact Hprefix' | exact Hcolon' | discriminate]. }
  change (pattern {| pattern := pattern (tag_expression tag); ignoreCase := true |})
    with (pattern (tag_expression tag)).
  destruct (exec_at true (pattern (tag_expression tag)) whole None k0) as [x|] eqn:Hx;
    [| now destruct Hcomplete].
  rewrite tag_expression_parts in Hx.
  replace whole
    with (("<" +:+ prefix +:+ colon +:+ tag +:+ attrs) +:+ String ">" (content +:+ rest))
    in Hx by (unfold whole; cbn [String.append]; now rewrite <- !append_associative).
  apply upto_gt_sound in Hx.
  - destruct Hx as (cap' & Hk & _).
    rewrite exec_at_Grp in Hk. rewrite lazy_skip in Hk.
    + rewrite exec_at_StarLazy in Hk.
      match type of Hk with
      | match ?e with _ => _ end = _ => destruct e as [y|] eqn:Hclose
      end.
      * injection Hk as <-.
        apply (closing_sound tag prefix' colon' Hprefix' Hcolon' Htag) in Hclose.
        unfold k0 in Hclose. rewrite substring_prefix in Hclose.
        now injection Hclose as <-.
      * exfalso. revert Hclose.
        apply closing_complete; [exact Hprefix' | exact Hcolon' | discriminate].
    + intros c1 c2 Hsplit Hc2.
      pose proof (free_of_closing_suffix tag rest c1 content c2 Hcontent Hsplit Hc2)
        as Hnone.
      unfold test_anchored, match_here in Hnone.
      match goal with
      | |- ?e = None => destruct e eqn:Hsome; [exfalso | reflexivity]
      end.
      assert (Hmatch : exec_at true (pattern (Laws.closing_expression tag))
                         (c2 +:+ rest) None
                         (fun s' cap =>
                            Some ((String.length (c2 +:+ rest) - String.length s')%nat,
                                  cap)) <> None).
      { eapply exec_at_mono; [| rewrite Hsome; discriminate]. discriminate. }
      cbn [Laws.closing_expression ignoreCase] in Hnone.
      destruct (exec_at true (pattern (Laws.closing_expression tag)) (c2 +:+ rest) None _);
        [discriminate Hnone | now destruct Hmatch].
  - cbn [Laws.avoids]. rewrite (avoids_lit _ Htag). reflexivity.
  - change ("<" +:+ prefix +:+ colon +:+ tag +:+ attrs)
      with (String "<" (prefix +:+ colon +:+ tag +:+ attrs)).
    cbn [Laws.has_char]. rewrite !has_char_append, Htag.
    rewrite (all_chars_has_char _ ">" _ Hprefix eq_refl).
    rewrite (all_chars_has_char _ ">" _ Hattrs eq_refl).
    now destruct Hcolon as [-> | ->].
Qed.

End ElementContent.

Lemma opening_expression_parts {R} (tag s : string) (cap : option string)
    (k : string -> option string -> option R) :
  exec_at true (pattern (Laws.opening_expression tag)) s cap k
  = exec_at true
      (Cat (Chr "<")
         (Cat (Star (not_in ":>"))
            (Cat (Opt (Chr ":")) (Cat (lit tag) (Star (not_in ">"))))))
      s cap
      (fun s' cap' => exec_at true (Chr ">") s' cap' k).
Proof. reflexivity. Qed.

(** Where no opening tag matches, the tag expression does not match. *)
Lemma tag_needs_opening (tag s : string) :
  test_anchored (Laws.opening_expression tag) s = false ->
  match_here (tag_expression tag) s = None.
Proof.
  unfold test_anchored, match_here. intros Hopen.
  destruct (exec_at (ignoreCase (tag_expression tag)) (pattern (tag_expression tag)) s None _)
    eqn:Hm; [exfalso | reflexivity].
  assert (Hsome : exec_at true (pattern (Laws.opening_expression tag)) s None
                    (fun s' cap => Some ((String.length s - String.length s')%nat, cap))
                  <> None).
  { rewrite opening_expression_parts.
    cbn [ignoreCase tag_expression] in Hm. rewrite tag_expression_parts in Hm.
    eapply exec_at_mono; [| rewrite Hm; discriminate].
    intros s1 c1 c2. cbn [exec_at].
    destruct s1 as [|a s1]; [intros Hnone; now destruct Hnone |].
    destruct (chr_match true ">" a); [discriminate | intros Hnone; now destruct Hnone]. }
  cbn [ignoreCase Laws.opening_expression] in Hopen.
  change (pattern {| pattern := pattern (Laws.opening_expression tag); ignoreCase := true |})
    with (pattern (Laws.opening_expression tag)) in Hopen.
  destruct (exec_at true (pattern (Laws.opening_expression tag)) s None _);
    [discriminate Hopen | now destruct Hsome].
Qed.

(** A text without [<] holds no opening tag. *)
Lemma text_free_of_opening (tag text rest : string) :
  Laws.has_char "<" text = false ->
  Laws.free_of_opening tag text rest = true.
Proof.
  induction text as [|a text IH]; [reflexivity |].
  cbn [Laws.has_char Laws.free_of_opening]. intros Hc.
  apply orb_false_iff in Hc. destruct Hc as [Ha Hc]. rewrite (IH Hc), andb_true_r.
  apply negb_true_iff. cbn [String.append]. unfold test_anchored, match_here.
  cbn [ignoreCase Laws.opening_expression].
  change (pattern {| pattern := pattern (Laws.opening_expression tag); ignoreCase := true |})
    with (pattern (Laws.opening_expression tag)).
  rewrite opening_expression_parts, exec_at_Cat. cbn [exec_at].
  destruct (chr_match true "<" a) eqn:Hm; [| reflexivity].
  apply chr_match_lt in Hm. subst a. discriminate Ha.
Qed.

Lemma search_before (tag before s : string) :
  Laws.free_of_opening tag before s = true ->
  Regex.search (tag_expression tag) (before +:+ s) = Regex.search (tag_expression tag) s.
Proof.
  induction before as [|a before IH]; [reflexivity |].
  cbn [Laws.free_of_opening]. intros Hb. apply andb_true_iff in Hb.
  destruct Hb as [Ha Hb]. apply negb_true_iff in Ha.
  cbn [String.append Regex.search] in *. now rewrite (tag_needs_opening _ _ Ha), (IH Hb).
Qed.

Lemma exec_all_before (tag before s : string) :
  Laws.free_of_opening tag before s = true ->
  exec_all (tag_expression tag) (before +:+ s) 0 = exec_all (tag_expression tag) s 0.
Proof.
  induction before as [|a before IH]; [reflexivity |].
  cbn [Laws.free_of_opening]. intros Hb. apply andb_true_iff in Hb.
  destruct Hb as [Ha Hb]. apply negb_true_iff in Ha.
  cbn [String.append exec_all] in *. now rewrite (tag_needs_opening _ _ Ha), (IH Hb).
Qed.

(** X15.  The content of an element is what stands between its tags.
    Take a text in which the first opening tag of the name begins an element:
    before it there is no opening tag of the name (in particular when there is
    no [<] at all), the opening tag has an optional prefix and anything but [>]
    after the name, and a content and a closing tag follow.  If no closing tag
    of the name begins inside the content, which is so in particular when the
    content holds no [<], then [getTagContent] is the trimmed content, and
    [getAllTagContents] is the trimmed content followed by what it finds in the
    text after the element, which is nothing when no opening tag of the name
    begins there. *)
Theorem getTagContent_element
    (tag before prefix colon attrs content prefix' colon' after : string) :
  let element := "<" +:+ prefix +:+ colon +:+ tag +:+ attrs +:+ ">" +:+ content
                 +:+ "</" +:+ prefix' +:+ colon' +:+ tag +:+ ">" +:+ after in
  Laws.has_char "<" before = false
  \/ Laws.free_of_opening tag before element = true ->
  Laws.all_chars (not_in ":>") prefix = true ->
  colon = "" \/ colon = ":" ->
  Laws.has_char ">" tag = false ->
  Laws.all_chars (not_in ">") attrs = true ->
  Laws.all_chars (not_in ":>") prefix' = true ->
  colon' = "" \/ colon' = ":" ->
  Laws.has_char "<" content = false
  \/ Laws.free_of_closing tag content
       ("</" +:+ prefix' +:+ colon' +:+ tag +:+ ">" +:+ after) = true ->
  getTagContent (before +:+ element) tag = trim content
  /\ getAllTagContents (before +:+ element) tag
     = trim content :: getAllTagContents after tag
  /\ (Laws.free_of_opening tag after "" = true -> getAllTagContents after tag = []).
Proof.
  intros element Hbefore Hprefix Hcolon Htag Hattrs Hprefix' Hcolon' Hcontent.
  assert (Hnone : Laws.free_of_opening tag after "" = true ->
                  getAllTagContents after tag = []).
  { intros Hafter. unfold getAllTagContents.
    rewrite <- (append_empty_r after), (exec_all_before _ _ _ Hafter). reflexivity. }
  assert (Hfree : Laws.free_of_closing tag content
                    ("</" +:+ prefix' +:+ colon' +:+ tag +:+ ">" +:+ after) = true).
  { destruct Hcontent as [Htext | Hfree]; [now apply text_free_of_closing | exact Hfree]. }
  assert (Hopen : Laws.free_of_opening tag before element = true).
  { destruct Hbefore as [Htext | Hopen]; [now apply text_free_of_opening | exact Hopen]. }
  pose proof (match_here_element tag prefix colon attrs content prefix' colon' after
                Hprefix Hcolon Htag Hattrs Hprefix' Hcolon' Hfree) as Hmatch.
  subst element.
  change ("<" +:+ prefix +:+ colon +:+ tag +:+ attrs +:+ ">" +:+ content
          +:+ "</" +:+ prefix' +:+ colon' +:+ tag +:+ ">" +:+ after)
    with (String "<" (prefix +:+ colon +:+ tag +:+ attrs +:+ ">" +:+ content
                      +:+ "</" +:+ prefix' +:+ colon' +:+ tag +:+ ">" +:+ after)) in *.
  split.
  - unfold getTagContent, findTag, match_group.
    rewrite (search_before _ _ _ Hopen). cbn [Regex.search]. now rewrite Hmatch.
  - unfold getAllTagContents. rewrite (exec_all_before _ _ _ Hopen).
    cbn [exec_all]. rewrite Hmatch. cbn [default fmap list_fmap]. f_equal.
    replace (prefix +:+ colon +:+ tag +:+ attrs +:+ ">" +:+ content
             +:+ "</" +:+ prefix' +:+ colon' +:+ tag +:+ ">" +:+ after)
      with ((prefix +:+ colon +:+ tag +:+ attrs +:+ ">" +:+ content
             +:+ "</" +:+ prefix' +:+ colon' +:+ tag +:+ ">") +:+ after)
      by (rewrite <- !append_associative; reflexivity).
    cbn [String.length]. rewrite length_append.
    replace (Nat.pred (S (String.length
                            (prefix +:+ colon +:+ tag +:+ attrs +:+ ">" +:+ content
                             +:+ "</" +:+ prefix' +:+ colon' +:+ tag +:+ ">")
                          + String.length after) - String.length after))
      with (String.length (prefix +:+ colon +:+ tag +:+ attrs +:+ ">" +:+ content
                           +:+ "</" +:+ prefix' +:+ colon' +:+ tag +:+ ">")) by lia.
    split; [now rewrite exec_all_skip | exact Hnone].
Qed.

(** *** The constructor and the resolution of paths *)

Section ConstructionProperties.
Context `{Platform}.


Variable this : WebDAVClient.
Variable server : Server.

Lemma scheme_needs_letter (path : string) :
  test_anchored scheme_expression (String "/" path) = false.
Proof. reflexivity. Qed.

(** X17.  One leading slash of a path makes no difference to the
    request: for a path without scheme and without leading slash, the path
    with a slash before it resolves to the same URL, against the base URL and
    not against its origin, so [request] and the operations that only send a
    request behave the same on both.  For [normalizePath] the two differ: the
    path with a slash is resolved against the origin. *)
Theorem leading_slash_ignored (path : string) :
  test_anchored scheme_expression path = false ->
  startsWith path "/" = false ->
  resolveRequestURL this ("/" +:+ path) = resolveRequestURL this path
  /\ resolveRequestURL this path = URL_new path (Some (URL_href (base this)))
  /\ resolveURL this path = resolveRequestURL this path
  /\ resolveURL this ("/" +:+ path)
     = URL_new ("/" +:+ path) (Some (URL_origin (base this)))
  /\ (forall method body headers,
        request this server method ("/" +:+ path) body headers
        = request this server method path body headers)
  /\ getFileContents this server ("/" +:+ path) = getFileContents this server path
  /\ (forall data options,
        putFileContents this server ("/" +:+ path) data options
        = putFileContents this server path data options)
  /\ createDirectory this server ("/" +:+ path) = createDirectory this server path
  /\ deleteFile this server ("/" +:+ path) = deleteFile this server path.
Proof.
  intros Hscheme Hslash.
  assert (Hresolve : resolveRequestURL this ("/" +:+ path) = resolveRequestURL this path).
  { unfold resolveRequestURL. change ("/" +:+ path) with (String "/" path).
    rewrite scheme_needs_letter, Hscheme, Hslash. reflexivity. }
  assert (Hrequest : forall method body headers,
            request this server method ("/" +:+ path) body headers
            = request this server method path body headers).
  { intros. unfold request. now rewrite Hresolve. }
  split; [exact Hresolve |].
  split; [unfold resolveRequestURL; now rewrite Hscheme, Hslash |].
  split; [unfold resolveURL, resolveRequestURL; now rewrite Hscheme, Hslash |].
  split; [unfold resolveURL; change ("/" +:+ path) with (String "/" path);
          now rewrite scheme_needs_letter |].
  split; [exact Hrequest |].
  unfold getFileContents, putFileContents, createDirectory, deleteFile.
  repeat split; intros; now rewrite Hrequest.
Qed.

End ConstructionProperties.

(** *** The fields of a parsed entry *)

Lemma trimEnd_idempotent (s : string) : trimEnd (trimEnd s) = trimEnd s.
Proof.
  induction s as [|c s IH]; [reflexivity |].
  cbn [trimEnd].
  destruct (is_whitespace c && String.eqb (trimEnd s) "") eqn:Hc; [reflexivity |].
  cbn [trimEnd]. now rewrite IH, Hc.
Qed.

Lemma trim_idempotent (s : string) : trim (trim s) = trim s.
Proof.
  unfold trim at 1. rewrite trimStart_trim. unfold trim. apply trimEnd_idempotent.
Qed.

Lemma trim_getTagContent (xml tag : string) :
  trim (getTagContent xml tag) = getTagContent xml tag.
Proof.
  unfold getTagContent, findTag.
  destruct (match_group (tag_expression tag) xml); [apply trim_idempotent | reflexivity].
Qed.

Lemma trim_getAllTagContents (xml tag content : string) :
  In content (getAllTagContents xml tag) -> trim content = content.
Proof.
  unfold getAllTagContents. rewrite <- list_elem_of_In, list_elem_of_fmap.
  intros (raw & -> & _). apply trim_idempotent.
Qed.

Section FieldProperties.
Context `{Platform}.
Variable this : WebDAVClient.


End FieldProperties.

(** *** The base64 encoder loses nothing *)

Lemma lor_shiftl_add (a b n : Z) :
  (0 <= n)%Z -> (0 <= b < 2 ^ n)%Z ->
  Z.lor (Z.shiftl a n) b = (a * 2 ^ n + b)%Z.
Proof.
  intros Hn Hb.
  assert (Hland : Z.land (Z.shiftl a n) b = 0%Z).
  { apply Z.bits_inj'. intros i Hi. rewrite Z.land_spec, Z.bits_0.
    destruct (Z.lt_ge_cases i n) as [Hlow | Hhigh].
    - now rewrite Z.shiftl_spec_low.
    - destruct (Z.eq_dec b 0%Z) as [-> | Hb0]; [now rewrite Z.bits_0, andb_false_r |].
      rewrite (Z.bits_above_log2 b i), andb_false_r; [reflexivity | lia |].
      apply Z.lt_le_trans with n; [| exact Hhigh].
      apply Z.log2_lt_pow2; lia. }
  rewrite <- Z.lxor_lor by exact Hland.
  rewrite <- Z.add_nocarry_lxor by exact Hland.
  now rewrite Z.shiftl_mul_pow2.
Qed.

Lemma is_byte_range (b : Z) : Laws.is_byte b = true -> (0 <= b < 256)%Z.
Proof. unfold Laws.is_byte. intros Hb. apply andb_true_iff in Hb. lia. Qed.

(** The four groups of six bits of three bytes. *)
Lemma sextets (b0 b1 b2 : Z) :
  (0 <= b0 < 256)%Z -> (0 <= b1 < 256)%Z -> (0 <= b2 < 256)%Z ->
  let combined := Z.lor (Z.lor (Z.shiftl b0 16) (Z.shiftl b1 8)) b2 in
  Z.land (Z.shiftr combined 18) 63 = (b0 / 4)%Z
  /\ Z.land (Z.shiftr combined 12) 63 = (b0 mod 4 * 16 + b1 / 16)%Z
  /\ Z.land (Z.shiftr combined 6) 63 = (b1 mod 16 * 4 + b2 / 64)%Z
  /\ Z.land (Z.shiftr combined 0) 63 = (b2 mod 64)%Z.
Proof.
  intros H0 H1 H2 combined.
  assert (Hc : combined = (b0 * 65536 + b1 * 256 + b2)%Z).
  { unfold combined.
    replace (Z.shiftl b0 16) with (Z.shiftl (Z.shiftl b0 8) 8)
      by (rewrite Z.shiftl_shiftl by lia; reflexivity).
    rewrite <- Z.shiftl_lor.
    rewrite (lor_shiftl_add b0 b1 8) by (change (2 ^ 8)%Z with 256%Z; lia).
    rewrite (lor_shiftl_add _ b2 8) by (change (2 ^ 8)%Z with 256%Z; lia).
    change (2 ^ 8)%Z with 256%Z. lia. }
  change 63%Z with (Z.ones 6). rewrite !Z.land_ones, !Z.shiftr_div_pow2 by lia.
  rewrite Hc.
  change (2 ^ 18)%Z with 262144%Z. change (2 ^ 12)%Z with 4096%Z.
  change (2 ^ 6)%Z with 64%Z. change (2 ^ 0)%Z with 1%Z.
  repeat split; Z.div_mod_to_equations; lia.
Qed.

Lemma alphabet_at_sextet (index : Z) :
  (0 <= index < 64)%Z ->
  alphabet_at index = String (Laws.sextet_char index) ""
  /\ Laws.index_in (Laws.sextet_char index) BASE64_ALPHABET = index
  /\ Laws.sextet_char index <> "="%char.
Proof.
  intros Hindex.
  assert (Hcases : forall n, (n < 64)%nat ->
    alphabet_at (Z.of_nat n) = String (Laws.sextet_char (Z.of_nat n)) ""
    /\ Laws.index_in (Laws.sextet_char (Z.of_nat n)) BASE64_ALPHABET = Z.of_nat n
    /\ Laws.sextet_char (Z.of_nat n) <> "="%char).
  { intros n Hn.
    do 64 (destruct n as [|n]; [vm_compute; repeat split; discriminate |]). lia. }
  rewrite <- (Z2Nat.id index) by lia. apply Hcases. lia.
Qed.

Lemma sextet_char_inj (i j : Z) :
  (0 <= i < 64)%Z -> (0 <= j < 64)%Z ->
  Laws.sextet_char i = Laws.sextet_char j -> i = j.
Proof.
  intros Hi Hj Heq.
  destruct (alphabet_at_sextet i Hi) as (_ & <- & _).
  destruct (alphabet_at_sextet j Hj) as (_ & <- & _).
  now rewrite Heq.
Qed.

(** The four characters of a round of the loop, by the number of bytes
    left. *)
Lemma base64_quad_chars (b0 b1 b2 : Z) :
  (0 <= b0 < 256)%Z -> (0 <= b1 < 256)%Z -> (0 <= b2 < 256)%Z ->
  base64_quad b0 b1 b2 3
  = String (Laws.sextet_char (b0 / 4))
      (String (Laws.sextet_char (b0 mod 4 * 16 + b1 / 16))
         (String (Laws.sextet_char (b1 mod 16 * 4 + b2 / 64))
            (String (Laws.sextet_char (b2 mod 64)) "")))
  /\ base64_quad b0 b1 b2 2
     = String (Laws.sextet_char (b0 / 4))
         (String (Laws.sextet_char (b0 mod 4 * 16 + b1 / 16))
            (String (Laws.sextet_char (b1 mod 16 * 4 + b2 / 64)) "="))
  /\ base64_quad b0 b1 b2 1
     = String (Laws.sextet_char (b0 / 4))
         (String (Laws.sextet_char (b0 mod 4 * 16 + b1 / 16)) "==").
Proof.
  intros H0 H1 H2.
  destruct (sextets b0 b1 b2 H0 H1 H2) as (Hs0 & Hs1 & Hs2 & Hs3).
  cbv zeta in Hs0, Hs1, Hs2, Hs3.
  assert (Ha0 := proj1 (alphabet_at_sextet (b0 / 4)
                          ltac:(Z.div_mod_to_equations; lia))).
  assert (Ha1 := proj1 (alphabet_at_sextet (b0 mod 4 * 16 + b1 / 16)
                          ltac:(Z.div_mod_to_equations; lia))).
  assert (Ha2 := proj1 (alphabet_at_sextet (b1 mod 16 * 4 + b2 / 64)
                          ltac:(Z.div_mod_to_equations; lia))).
  assert (Ha3 := proj1 (alphabet_at_sextet (b2 mod 64)
                          ltac:(Z.div_mod_to_equations; lia))).
  unfold base64_quad.
  change (18 - 0 * 6)%Z with 18%Z. change (18 - 1 * 6)%Z with 12%Z.
  change (18 - 2 * 6)%Z with 6%Z. change (18 - 3 * 6)%Z with 0%Z.
  rewrite Hs0, Hs1, Hs2, Hs3, Ha0, Ha1, Ha2, Ha3.
  repeat split; reflexivity.
Qed.

Section Base64Injective.

Ltac byte_ranges :=
  repeat match goal with
         | H : Laws.is_byte _ = true |- _ => apply is_byte_range in H
         end.

Ltac sextet_equal H :=
  apply sextet_char_inj in H; [| Z.div_mod_to_equations; lia | Z.div_mod_to_equations; lia].

Lemma quad_three_inj (a0 a1 a2 b0 b1 b2 : Z) (ra rb : string) :
  (0 <= a0 < 256)%Z -> (0 <= a1 < 256)%Z -> (0 <= a2 < 256)%Z ->
  (0 <= b0 < 256)%Z -> (0 <= b1 < 256)%Z -> (0 <= b2 < 256)%Z ->
  base64_quad a0 a1 a2 3 +:+ ra = base64_quad b0 b1 b2 3 +:+ rb ->
  a0 = b0 /\ a1 = b1 /\ a2 = b2 /\ ra = rb.
Proof.
  intros Ha0 Ha1 Ha2 Hb0 Hb1 Hb2.
  rewrite (proj1 (base64_quad_chars a0 a1 a2 Ha0 Ha1 Ha2)).
  rewrite (proj1 (base64_quad_chars b0 b1 b2 Hb0 Hb1 Hb2)).
  cbn [String.append]. intros Heq. injection Heq as E0 E1 E2 E3 Er.
  sextet_equal E0. sextet_equal E1. sextet_equal E2. sextet_equal E3.
  repeat split; [Z.div_mod_to_equations; lia .. | exact Er].
Qed.

Lemma quad_two_inj (a0 a1 b0 b1 : Z) :
  (0 <= a0 < 256)%Z -> (0 <= a1 < 256)%Z ->
  (0 <= b0 < 256)%Z -> (0 <= b1 < 256)%Z ->
  base64_quad a0 a1 0 2 = base64_quad b0 b1 0 2 ->
  a0 = b0 /\ a1 = b1.
Proof.
  intros Ha0 Ha1 Hb0 Hb1.
  rewrite (proj1 (proj2 (base64_quad_chars a0 a1 0 Ha0 Ha1 ltac:(lia)))).
  rewrite (proj1 (proj2 (base64_quad_chars b0 b1 0 Hb0 Hb1 ltac:(lia)))).
  intros Heq. injection Heq as E0 E1 E2.
  sextet_equal E0. sextet_equal E1. sextet_equal E2.
  split; Z.div_mod_to_equations; lia.
Qed.

Lemma quad_one_inj (a0 b0 : Z) :
  (0 <= a0 < 256)%Z -> (0 <= b0 < 256)%Z ->
  base64_quad a0 0 0 1 = base64_quad b0 0 0 1 ->
  a0 = b0.
Proof.
  intros Ha0 Hb0.
  rewrite (proj2 (proj2 (base64_quad_chars a0 0 0 Ha0 ltac:(lia) ltac:(lia)))).
  rewrite (proj2 (proj2 (base64_quad_chars b0 0 0 Hb0 ltac:(lia) ltac:(lia)))).
  intros Heq. injection Heq as E0 E1.
  sextet_equal E0. sextet_equal E1. Z.div_mod_to_equations; lia.
Qed.

(** A round with padding differs from a round without, and the two
    paddings differ. *)
Lemma quad_padding_differs (a0 a1 a2 b0 b1 b2 : Z) (rb : string) :
  (0 <= a0 < 256)%Z -> (0 <= a1 < 256)%Z -> (0 <= a2 < 256)%Z ->
  (0 <= b0 < 256)%Z -> (0 <= b1 < 256)%Z -> (0 <= b2 < 256)%Z ->
  base64_quad a0 a1 a2 1 <> base64_quad b0 b1 b2 2
  /\ base64_quad a0 a1 a2 1 <> base64_quad b0 b1 b2 3 +:+ rb
  /\ base64_quad a0 a1 a2 2 <> base64_quad b0 b1 b2 3 +:+ rb.
Proof.
  intros Ha0 Ha1 Ha2 Hb0 Hb1 Hb2.
  destruct (base64_quad_chars a0 a1 a2 Ha0 Ha1 Ha2) as (_ & -> & ->).
  destruct (base64_quad_chars b0 b1 b2 Hb0 Hb1 Hb2) as (-> & -> & _).
  assert (H2 := proj2 (proj2 (alphabet_at_sextet (b1 mod 16 * 4 + b2 / 64)
                                ltac:(Z.div_mod_to_equations; lia)))).
  assert (H3 := proj2 (proj2 (alphabet_at_sextet (b2 mod 64)
                                ltac:(Z.div_mod_to_equations; lia)))).
  cbn [String.append].
  repeat split; intros Heq; injection Heq; congruence.
Qed.

Lemma base64_loop_inj_bounded (n : nat) :
  forall bytes1 bytes2,
    (List.length bytes1 <= n)%nat ->
    forallb Laws.is_byte bytes1 = true ->
    forallb Laws.is_byte bytes2 = true ->
    base64_loop bytes1 = base64_loop bytes2 ->
    bytes1 = bytes2.
Proof.
  assert (Hquad_ne : forall b0 b1 b2 rem rest,
            (0 <= b0 < 256)%Z -> (0 <= b1 < 256)%Z -> (0 <= b2 < 256)%Z ->
            (rem = 1 \/ rem = 2 \/ rem = 3)%Z ->
            "" <> base64_quad b0 b1 b2 rem +:+ rest).
  { intros b0 b1 b2 rem rest H0 H1 H2 Hrem.
    destruct (base64_quad_chars b0 b1 b2 H0 H1 H2) as (E3 & E2 & E1).
    destruct Hrem as [-> | [-> | ->]]; rewrite ?E1, ?E2, ?E3; discriminate. }
  induction n as [|n IH]; intros bytes1 bytes2 Hn Hb1 Hb2 Heq.
  - destruct bytes1; [| simpl in Hn; lia].
    destruct bytes2 as [|b0 [|b1 [|b2 rest]]]; [reflexivity | exfalso ..];
      cbn [forallb] in Hb2; repeat (apply andb_true_iff in Hb2; destruct Hb2 as [? Hb2]);
      byte_ranges; cbn [base64_loop] in Heq.
    + apply (Hquad_ne b0 0 0 1 "")%Z; try lia. now rewrite append_empty_r.
    + apply (Hquad_ne b0 b1 0 2 "")%Z; try lia. now rewrite append_empty_r.
    + apply (Hquad_ne b0 b1 b2 3 (base64_loop rest))%Z; try lia. exact Heq.
  - destruct bytes1 as [|a0 [|a1 [|a2 rest1]]];
      destruct bytes2 as [|b0 [|b1 [|b2 rest2]]];
      cbn [forallb] in Hb1, Hb2;
      repeat (apply andb_true_iff in Hb1; destruct Hb1 as [? Hb1]);
      repeat (apply andb_true_iff in Hb2; destruct Hb2 as [? Hb2]);
      byte_ranges; cbn [base64_loop] in Heq.
    + reflexivity.
    + exfalso. apply (Hquad_ne b0 0 0 1 "")%Z; try lia. now rewrite append_empty_r.
    + exfalso. apply (Hquad_ne b0 b1 0 2 "")%Z; try lia. now rewrite append_empty_r.
    + exfalso. apply (Hquad_ne b0 b1 b2 3 (base64_loop rest2))%Z; try lia. exact Heq.
    + exfalso. apply (Hquad_ne a0 0 0 1 "")%Z; try lia. now rewrite append_empty_r.
    + f_equal. apply quad_one_inj; assumption.
    + exfalso. revert Heq.
      apply (quad_padding_differs a0 0 0 b0 b1 0 ""); lia.
    + exfalso. revert Heq.
      apply (quad_padding_differs a0 0 0 b0 b1 b2 (base64_loop rest2)); lia.
    + exfalso. apply (Hquad_ne a0 a1 0 2 "")%Z; try lia. now rewrite append_empty_r.
    + exfalso. symmetry in Heq. revert Heq.
      apply (quad_padding_differs b0 0 0 a0 a1 0 ""); lia.
    + destruct (quad_two_inj a0 a1 b0 b1) as [-> ->]; try assumption. reflexivity.
    + exfalso. revert Heq.
      apply (quad_padding_differs a0 a1 0 b0 b1 b2 (base64_loop rest2)); lia.
    + exfalso. apply (Hquad_ne a0 a1 a2 3 (base64_loop rest1))%Z; try lia.
      now symmetry.
    + exfalso. symmetry in Heq. revert Heq.
      apply (quad_padding_differs b0 0 0 a0 a1 a2 (base64_loop rest1)); lia.
    + exfalso. symmetry in Heq. revert Heq.
      apply (quad_padding_differs b0 b1 0 a0 a1 a2 (base64_loop rest1)); lia.
    + destruct (quad_three_inj a0 a1 a2 b0 b1 b2 _ _
                  ltac:(assumption) ltac:(assumption) ltac:(assumption)
                  ltac:(assumption) ltac:(assumption) ltac:(assumption) Heq)
        as (-> & -> & -> & Hrest).
      f_equal. f_equal. f_equal.
      apply IH; [simpl in Hn; lia | assumption | assumption | exact Hrest].
Qed.

End Base64Injective.

(** The UTF-8 bytes of a character: one byte below 128 that is its code
    unit, or a lead byte from 192 on and a continuation byte, from which the
    character is read back. *)
Lemma utf8_character (c : ascii) :
  let u := Laws.code_unit c in
  let lead := Z.lor 192 (Z.shiftr u 6) in
  let continuation := Z.lor 128 (Z.land u 63) in
  Laws.is_byte u = true /\ Laws.is_byte lead = true /\ Laws.is_byte continuation = true
  /\ (192 <=? lead)%Z = true
  /\ ascii_of_nat (Z.to_nat u) = c
  /\ ((u <? 128)%Z = false ->
      ascii_of_nat (Z.to_nat ((lead - 192) * 64 + (continuation - 128))) = c).
Proof.
  destruct c as [[] [] [] [] [] [] [] []]; vm_compute; repeat split;
    intros Hu; discriminate Hu.
Qed.

Lemma utf8_encode_bytes (value : string) :
  forallb Laws.is_byte (utf8_encode value) = true.
Proof.
  induction value as [|c value IH]; [reflexivity |].
  cbn [utf8_encode]. destruct (utf8_character c) as (Hu & Hlead & Hcont & _).
  cbv zeta in Hu, Hlead, Hcont. fold (Laws.code_unit c).
  destruct (Laws.code_unit c <? 128)%Z; cbn [forallb];
    now rewrite ?Hu, ?Hlead, ?Hcont, IH.
Qed.

Lemma utf8_encode_inj (value1 value2 : string) :
  utf8_encode value1 = utf8_encode value2 -> value1 = value2.
Proof.
  revert value2. induction value1 as [|c1 value1 IH]; intros [|c2 value2];
    cbn [utf8_encode].
  - reflexivity.
  - destruct (_ <? 128)%Z; discriminate.
  - destruct (_ <? 128)%Z; discriminate.
  - fold (Laws.code_unit c1). fold (Laws.code_unit c2).
    destruct (utf8_character c1) as (_ & _ & _ & Hlead1 & Hone1 & Htwo1).
    destruct (utf8_character c2) as (_ & _ & _ & Hlead2 & Hone2 & Htwo2).
    cbv zeta in *.
    destruct (Laws.code_unit c1 <? 128)%Z eqn:Hu1;
      destruct (Laws.code_unit c2 <? 128)%Z eqn:Hu2; intros Heq.
    + injection Heq as Hu Hrest. rewrite <- Hone1, <- Hone2, Hu. f_equal. now apply IH.
    + injection Heq as Hu _. rewrite Hu in Hu1. lia.
    + injection Heq as Hu _. rewrite <- Hu in Hu2. lia.
    + injection Heq as Hlead Hcont Hrest.
      rewrite <- (Htwo1 eq_refl), <- (Htwo2 eq_refl), Hlead, Hcont. f_equal.
      now apply IH.
Qed.


(** *** Credentials on every request *)

Section AuthenticationProperties.
Context `{Platform}.
Variable this : WebDAVClient.
Variable server : Server.

Ltac quiet_k :=
  intros ? ?; unfold throw, ret;
  repeat match goal with
         | |- context [if ?b then _ else _] => destruct b
         | |- context [match ?x with _ => _ end] => destruct x
         end; reflexivity.

Lemma buildHeaders_adds_authorization (auth : string)
    (additional : option (gmap string string)) :
  authHeader this = Some auth -> auth <> "" ->
  customHeaders this !! "Authorization" = None ->
  buildHeaders this additional !! "Authorization"
  = Some (default auth (default ∅ additional !! "Authorization")).
Proof.
  intros Hauth Hne Hcustom. unfold buildHeaders. rewrite Hauth.
  assert (Htruthy : truthy auth = true).
  { unfold truthy. now apply negb_true_iff, String.eqb_neq. }
  rewrite Htruthy. cbn [andb].
  destruct (default ∅ additional !! "Authorization") as [given|] eqn:Hgiven.
  - assert (Hmerged : (default ∅ additional ∪ customHeaders this) !! "Authorization"
                      = Some given) by now apply lookup_union_Some_l.
    rewrite bool_decide_eq_false_2 by congruence. exact Hmerged.
  - assert (Hmerged : (default ∅ additional ∪ customHeaders this) !! "Authorization"
                      = None) by now apply lookup_union_None.
    rewrite bool_decide_eq_true_2 by exact Hmerged.
    now rewrite lookup_insert_eq.
Qed.

Lemma carries_request (method path : string) (body : option string)
    (headers : option (gmap string string)) (sent : list Request) (name value : string) :
  buildHeaders this headers !! name = Some value ->
  Laws.carries (request this server method path body headers) sent name value.
Proof.
  intros Hvalue rq Hin. rewrite requests_of_request in Hin.
  destruct (resolveRequestURL this path) as [target|]; [| destruct Hin].
  destruct Hin as [<- | []]. exact Hvalue.
Qed.

Lemma carries_bind {A B} (m : Async A) (k : A -> Async B) (sent : list Request)
    (name value : string) :
  Laws.quiet k -> Laws.carries m sent name value ->
  Laws.carries (bind m k) sent name value.
Proof.
  intros Hk Hm rq Hin. rewrite (requests_of_bind_quiet _ _ _ Hk) in Hin. now apply Hm.
Qed.

Lemma carries_nothing {A} (e : Thrown) (sent : list Request) (name value : string) :
  Laws.carries (@throw A e) sent name value.
Proof.
  intros rq Hin. unfold requests_of, throw in Hin. cbn in Hin.
  rewrite drop_all in Hin. destruct Hin.
Qed.

(** X20.  Every request is authenticated.  For a client built with a user
    name and a password, whose configured headers hold no [Authorization],
    every request of every operation, [exists] included, carries the header
    [Authorization] with ["Basic "] and the base64 of [username:password].  The
    one exception is the PUT request of [putFileContents], the only operation
    that takes headers from its caller: it carries the caller's
    [Authorization] when there is one, and the client's otherwise. *)
Theorem requests_authenticated (options : WebDAVClientOptions) (user pass : string)
    (sent : list Request) :
  constructor options = Ok this ->
  username options = Some user ->
  password options = Some pass ->
  default ∅ (headers options) !! "Authorization" = None ->
  let auth := "Basic " +:+ toBase64 (user +:+ ":" +:+ pass) in
  Laws.every_operation this server
    (fun A op =>
       forall rq, In rq (requests_of op sent) ->
         Spec.header "Authorization" rq = Some auth \/ method rq = "PUT")
  /\ (forall path, Laws.carries (exists_ this server path) sent "Authorization" auth)
  /\ (forall path data given,
        Laws.carries (putFileContents this server path data given) sent
          "Authorization" (default auth (default ∅ given !! "Authorization"))).
Proof.
  intros Hthis Huser Hpass Hconfigured auth.
  destruct (constructor_fields this options Hthis) as [Hcustom Hauth].
  rewrite Huser, Hpass in Hauth. fold auth in Hauth.
  rewrite <- Hcustom in Hconfigured.
  assert (Hbuild := buildHeaders_adds_authorization auth).
  assert (Hne : auth <> "") by discriminate.
  assert (Hrequest : forall method path body additional,
            default ∅ additional !! "Authorization" = None ->
            Laws.carries (request this server method path body additional) sent
              "Authorization" auth).
  { intros method path body additional Hnone. apply carries_request.
    rewrite (Hbuild additional Hauth Hne Hconfigured), Hnone. reflexivity. }
  assert (Hstat : forall path, Laws.carries (stat this server path) sent
                                 "Authorization" auth).
  { intros path. unfold stat. apply carries_bind; [quiet_k |]. now apply Hrequest. }
  assert (Hown : forall A (op : Async A),
            Laws.carries op sent "Authorization" auth ->
            forall rq, In rq (requests_of op sent) ->
              Spec.header "Authorization" rq = Some auth \/ method rq = "PUT").
  { intros A op Hop rq Hin. left. now apply Hop. }
  split; [| split].
  - unfold Laws.every_operation. repeat split; intros.
    + revert rq H0. apply Hown. unfold getDirectoryContents.
      apply carries_bind; [quiet_k |]. now apply Hrequest.
    + revert rq H0. apply Hown, Hstat.
    + revert rq H0. apply Hown. unfold getFileContents.
      apply carries_bind; [quiet_k |]. now apply Hrequest.
    + revert rq H0. apply Hown. unfold getFileContentsAsText, getFileContents.
      apply carries_bind; [quiet_k |]. apply carries_bind; [quiet_k |].
      now apply Hrequest.
    + right. unfold putFileContents in H0.
      rewrite requests_of_bind_quiet in H0 by quiet_k.
      rewrite requests_of_request in H0.
      destruct (resolveRequestURL this path) as [target|]; [| destruct H0].
      destruct H0 as [<- | []]. reflexivity.
    + revert rq H0. apply Hown. unfold createDirectory.
      apply carries_bind; [quiet_k |]. now apply Hrequest.
    + revert rq H0. apply Hown. unfold deleteFile.
      apply carries_bind; [quiet_k |]. now apply Hrequest.
    + revert rq H0. apply Hown. unfold moveFile, transfer.
      destruct (resolveRequestURL this toPath); [| apply carries_nothing].
      apply carries_bind; [quiet_k |]. now apply Hrequest.
    + revert rq H0. apply Hown. unfold copyFile, transfer.
      destruct (resolveRequestURL this toPath); [| apply carries_nothing].
      apply carries_bind; [quiet_k |]. now apply Hrequest.
    + revert rq H0. apply Hown. unfold getQuota.
      apply carries_bind; [quiet_k |]. now apply Hrequest.
    + revert rq H0. apply Hown. unfold search.
      destruct (date_clause "gt" (modifiedAfter options0)); [| apply carries_nothing].
      destruct (date_clause "lt" (modifiedBefore options0)); [| apply carries_nothing].
      apply carries_bind; [quiet_k |]. now apply Hrequest.
  - intros path rq Hin. apply (Hstat path).
    assert (Hsnd : snd (exists_ this server path sent) = snd (stat this server path sent)).
    { unfold exists_, try_catch, bind.
      destruct (stat this server path sent) as [[found|e] sent']; [reflexivity |].
      cbn [snd]. unfold ret, throw.
      repeat match goal with
             | |- context [if ?b then _ else _] => destruct b
             end; reflexivity. }
    unfold requests_of in *. now rewrite <- Hsnd.
  - intros path data given. unfold putFileContents.
    apply carries_bind; [quiet_k |]. apply carries_request.
    apply (Hbuild given Hauth Hne Hconfigured).
Qed.

End AuthenticationProperties.

(** *** Paths that are URLs *)

Lemma star_consumed {R} (icase : bool) (p : ascii -> bool) (s : string)
    (cap : option string) (k : string -> option string -> option R) (x : R) :
  exec_at icase (Star p) s cap k = Some x ->
  exists u s', s = u +:+ s' /\ Laws.all_chars p u = true /\ k s' cap = Some x.
Proof.
  cbn [exec_at]. induction s as [|a s IHs]; intros Hx.
  - now exists "", "".
  - destruct (p a) eqn:Hp; [| now exists "", (String a s)].
    match type of Hx with
    | match ?g with _ => _ end = _ => destruct g as [y|] eqn:Hgo
    end; [| now exists "", (String a s)].
    injection Hx as ->. destruct (IHs eq_refl) as (u & s' & Hs & Hu & Hk).
    exists (String a u), s'. cbn [String.append Laws.all_chars].
    now rewrite Hs, Hp, Hu.
Qed.

Lemma exec_at_Cls {R} (icase : bool) (p : ascii -> bool) (a : ascii) (s : string)
    (cap : option string) (k : string -> option string -> option R) :
  exec_at icase (Cls p) (String a s) cap k = if p a then k s cap else None.
Proof. reflexivity. Qed.

Section AbsolutePaths.
Context `{Platform}.
Variable this : WebDAVClient.

(** X21.  Which paths are taken for URLs.  The scheme test succeeds
    exactly on a path that begins with a letter, goes on with letters, digits,
    [+], [.] and [-], and then has a colon: such a path, for instance a file
    name with a colon after its first word, is parsed as a URL of its own by
    both resolvers, without the base URL; every other path is resolved by
    [resolveRequestURL] against the base URL, so a path that begins with a
    slash, a dot or a digit never leaves it. *)
Theorem absolute_path_characterised (path : string) :
  (test_anchored scheme_expression path = true
   <-> exists letter scheme rest,
         path = String letter (scheme +:+ ":" +:+ rest)
         /\ is_alpha letter = true
         /\ Laws.all_chars is_scheme_char scheme = true)
  /\ (test_anchored scheme_expression path = true ->
      resolveRequestURL this path = URL_new path None
      /\ resolveURL this path = URL_new path None)
  /\ (test_anchored scheme_expression path = false ->
      exists relative,
        resolveRequestURL this path = URL_new relative (Some (URL_href (base this)))
        /\ (path = relative \/ path = "/" +:+ relative))
  /\ (forall c rest,
        path = String c rest -> is_alpha c = false ->
        test_anchored scheme_expression path = false).
Proof.
  assert (Hpattern : forall s,
    match_here scheme_expression s
    = exec_at false (Cls is_alpha) s None
        (fun s1 cap1 =>
           exec_at false (Star is_scheme_char) s1 cap1
             (fun s2 cap2 =>
                exec_at false (Chr ":") s2 cap2
                  (fun s' cap =>
                     Some ((String.length s - String.length s')%nat, cap))))).
  { reflexivity. }
  split; [split |].
  - unfold test_anchored. rewrite Hpattern.
    destruct path as [|letter tail]; [discriminate |].
    rewrite exec_at_Cls. destruct (is_alpha letter) eqn:Hletter; [| discriminate].
    match goal with
    | |- match ?e with _ => _ end = true -> _ => destruct e as [x|] eqn:Hx
    end; [intros _ | discriminate].
    apply star_consumed in Hx. destruct Hx as (scheme & s' & -> & Hscheme & Hcolon).
    cbn [exec_at] in Hcolon. destruct s' as [|a rest]; [discriminate |].
    destruct (chr_match false ":" a) eqn:Ha; [| discriminate].
    cbn [chr_match] in Ha. apply Ascii.eqb_eq in Ha. subst a.
    now exists letter, scheme, rest.
  - intros (letter & scheme & rest & -> & Hletter & Hscheme).
    unfold test_anchored. rewrite Hpattern, exec_at_Cls, Hletter.
    match goal with
    | |- match ?e with _ => _ end = true => destruct e eqn:Hx; [reflexivity | exfalso]
    end.
    revert Hx. apply (star_complete false is_scheme_char scheme _ None _ Hscheme).
    change (":" +:+ rest) with (String ":" rest).
    now rewrite exec_at_Chr_head by reflexivity.
  - split; [| split].
    + intros Hscheme. unfold resolveRequestURL, resolveURL. now rewrite Hscheme.
    + intros Hscheme. unfold resolveRequestURL. rewrite Hscheme.
      destruct (startsWith path "/") eqn:Hslash.
      * exists (slice 1 path). split; [reflexivity | right].
        apply startsWith_inv in Hslash. destruct Hslash as [r ->]. reflexivity.
      * exists path. split; [reflexivity | now left].
    + intros c rest -> Hc. unfold test_anchored.
      now rewrite Hpattern, exec_at_Cls, Hc.
Qed.

End AbsolutePaths.

(** ** The properties above on the example client *)

Section PropertyExamples.

Import Examples.

#[local] Existing Instance Whatwg.platform.

(** X2 on a transport without connection. *)
Lemma transport_failure_surfaces_witness :
  fst (getFileContents client (Laws.offline Laws.network_error) "a.txt" [])
  = Throw Laws.network_error
  /\ fst (getQuota client (Laws.offline Laws.network_error) None [])
     = Throw Laws.network_error
  /\ fst (exists_ client (Laws.offline Laws.network_error) "a.txt" [])
     = Throw Laws.network_error.
Proof.
  destruct (transport_failure_surfaces client (Laws.offline Laws.network_error) []
              Laws.network_error (fun _ => eq_refl)) as [Hall Hexists].
  destruct Hall as (_ & _ & Hget & _ & _ & _ & _ & _ & _ & Hquota & _).
  split; [apply Hget; vm_compute; discriminate |].
  split; [apply Hquota; vm_compute; discriminate |].
  apply Hexists; [vm_compute; discriminate | right; split; reflexivity].
Defined.

(** X3 on a server that answers 201. *)
Lemma success_mapping_witness :
  fst (putFileContents client (always created) "a.txt" (Some "text") None []) = Ok tt
  /\ fst (moveFile client (always created) "a.txt" "b.txt" None []) = Ok tt.
Proof.
  destruct (success_mapping client (always created) [] created (fun _ => eq_refl) eq_refl)
    as (_ & _ & Hput & _ & _ & Hmove & _).
  split; [apply Hput | apply Hmove]; vm_compute; discriminate.
Defined.

(** X4 on a server error. *)
Lemma deleteFile_outcome_witness :
  fst (deleteFile client (always server_error) "a.txt" [])
  = Throw (Error "Failed to delete resource: 500 Server Error").
Proof.
  apply (deleteFile_outcome client (always server_error) "a.txt" [] server_error
           (fun _ => eq_refl)).
  vm_compute. discriminate.
Defined.

(** X5: the listing of the base collection leaves the collection out. *)
Lemma listing_excludes_target_witness :
  fst (getDirectoryContents client (always (multi_status doc_root)) "/" None []) = Ok [].
Proof.
  destruct (listing_excludes_target client (always (multi_status doc_root)) "/" None []
              (multi_status doc_root) (fun _ => eq_refl) eq_refl)
    as (entries & Hfst & Hentries & _); [vm_compute; discriminate |].
  rewrite Hfst, Hentries. vm_compute. reflexivity.
Defined.

(** X6: a status that is not 404, with a status text that [exists]
    recognises. *)
Lemma exists_outcome_witness :
  fst (exists_ client (always gone) "missing.txt" []) = Ok false.
Proof.
  apply (proj2 (exists_outcome client (always gone) "missing.txt" []
                  (url_of ["dav"; "missing.txt"]) gone eq_refl (fun _ => eq_refl)));
    [reflexivity | right; reflexivity].
Defined.

(** X8: the first block lacks the quota properties, the second is
    taken. *)
Lemma getQuota_first_complete_witness :
  fst (getQuota client (always (multi_status doc_quota)) None [])
  = Ok (Some {| used := 25; available := 100 |}).
Proof.
  destruct (getQuota_first_complete client (always (multi_status doc_quota)) None []
              (multi_status doc_quota) (fun _ => eq_refl) eq_refl) as [Hfirst _];
    [vm_compute; discriminate |].
  rewrite Hfirst. vm_compute. reflexivity.
Defined.


(** X13 on a length with white space before it and a unit after it. *)
Lemma safeParseInteger_numeral_witness : safeParseInteger "  1024 bytes" = 1024%Z.
Proof.
  apply (safeParseInteger_numeral 1024 "  " " bytes"); [lia | reflexivity | reflexivity].
Defined.

(** X14: the self-closing tag of a collection, and an element whose name
    only begins with [collection]. *)
Lemma hasTag_opening_tag_witness :
  hasTag "<d:collection/>" "collection" = true
  /\ hasTag "<d:collections>" "collection" = true.
Proof.
  split.
  - apply (proj1 (hasTag_opening_tag "collection" "" "d" ":" "/" ""
                    eq_refl (or_intror eq_refl) eq_refl)).
  - apply (proj1 (hasTag_opening_tag "collection" "" "d" ":" "s" ""
                    eq_refl (or_intror eq_refl) eq_refl)).
Defined.

(** X15 on the status of a block: the [prop] element stands before it,
    and the content is text. *)
Lemma getTagContent_element_witness :
  getTagContent
    "<d:prop><d:getetag>e1</d:getetag></d:prop> <d:status>HTTP/1.1 200 OK</d:status>"
    "status"
  = "HTTP/1.1 200 OK"
  /\ getTagContent "  <d:prop><d:getetag>e1</d:getetag></d:prop><d:status/>" "prop"
     = "<d:getetag>e1</d:getetag>".
Proof.
  split.
  - apply (proj1 (getTagContent_element "status"
                    "<d:prop><d:getetag>e1</d:getetag></d:prop> "
                    "d" ":" "" "HTTP/1.1 200 OK" "d" ":" ""
                    (or_intror eq_refl) eq_refl (or_intror eq_refl) eq_refl eq_refl eq_refl
                    (or_intror eq_refl) (or_introl eq_refl))).
  - apply (proj1 (getTagContent_element "prop" "  " "d" ":" ""
                    "<d:getetag>e1</d:getetag>" "d" ":" "<d:status/>"
                    (or_introl eq_refl) eq_refl (or_intror eq_refl) eq_refl eq_refl eq_refl
                    (or_intror eq_refl) (or_intror eq_refl))).
Defined.

(** X17: [/a.txt] and [a.txt] are the same resource below the base. *)
Lemma leading_slash_ignored_witness :
  resolveRequestURL client "/a.txt" = Some (url_of ["dav"; "a.txt"])
  /\ getFileContents client (always created) "/a.txt"
     = getFileContents client (always created) "a.txt".
Proof.
  destruct (leading_slash_ignored client (always created) "a.txt" eq_refl eq_refl)
    as (Hresolve & _ & _ & _ & _ & Hget & _).
  split; [exact (eq_trans Hresolve eq_refl) | exact Hget].
Defined.



(** X20 on the example client: the request of a listing. *)
Lemma requests_authenticated_witness :
  List.map (Spec.header "Authorization")
    (requests_of (exists_ client (always not_found) "a.txt") [])
  = [Some "Basic dXNlcjpwYXNz"].
Proof.
  destruct (requests_authenticated client (always not_found) options "user" "pass" []
              eq_refl eq_refl eq_refl eq_refl) as (_ & Hexists & _).
  assert (Hone : exists rq, requests_of (exists_ client (always not_found) "a.txt") [] = [rq]).
  { eexists. vm_compute. reflexivity. }
  destruct Hone as [rq Hone]. rewrite Hone. cbn [List.map].
  rewrite (Hexists "a.txt" rq); [reflexivity |]. rewrite Hone. now left.
Defined.

End PropertyExamples.
